(** * SubGen: subtitle utilities, translation client and transcription worker

    A shallow embedding of the parts of [utils.py], [components.py] and
    [transcription.py] that the specification talks about, with the
    properties of the specification stated and settled against it.

    Conventions.
    - A Python [str] is a list of characters; a character is an 8-bit code
      (the Latin-1 code points), which is where [str.isspace] and [int] are
      decided by the tables written out below.
    - A Python [int] is a [Z]; list indices and lengths are [nat].
    - A Python exception is a constructor of [exn]; a call that may raise
      returns a [result]. *)

From Stdlib Require Import ZArith List Ascii String Lia Bool.
From stdpp Require Import base option list gmap strings.

Open Scope Z_scope.

(** ** Exceptions *)

Inductive exn : Type :=
| ValueError
| IndexError
| TypeError
| KeyError
| RecursionError
| RequestException.

Inductive result (A : Type) : Type :=
| Ok (a : A)
| Raise (e : exn).
Arguments Ok {A} a.
Arguments Raise {A} e.

(** Sequencing of calls that may raise. *)
Definition bind {A B} (m : result A) (f : A -> result B) : result B :=
  match m with
  | Ok a => f a
  | Raise e => Raise e
  end.

Declare Scope result_scope.
Delimit Scope result_scope with result.
Notation "'let*' x ':=' m 'in' k" := (bind m (fun x => k))
  (at level 10, x name, m at level 200, k at level 200) : result_scope.
Open Scope result_scope.

(** ** Python string primitives *)

Module Py.

Definition str : Type := list ascii.

Definition py (s : string) : str := list_ascii_of_string s.

Definition nl : ascii := "010"%char.

(** [c.isspace()] on the 8-bit code points: TAB..CR, FS..US and SPACE,
    NEL and NBSP. *)
Definition is_space (c : ascii) : bool :=
  let n := nat_of_ascii c in
  (((9 <=? n) && (n <=? 13)) || ((28 <=? n) && (n <=? 32))
   || (n =? 133) || (n =? 160))%nat.

Fixpoint lstrip (s : str) : str :=
  match s with
  | c :: s' => if is_space c then lstrip s' else s
  | [] => []
  end.

Definition rstrip (s : str) : str := rev (lstrip (rev s)).

(** [s.strip()] *)
Definition strip (s : str) : str := rstrip (lstrip s).

Fixpoint starts_with (p s : str) : bool :=
  match p, s with
  | [], _ => true
  | a :: p', b :: s' => Ascii.eqb a b && starts_with p' s'
  | _ :: _, [] => false
  end.

(** [p in s] for strings. *)
Fixpoint contains (p s : str) : bool :=
  starts_with p s ||
  match s with
  | [] => false
  | _ :: s' => contains p s'
  end.

(** [s.split(sep)] for a non-empty [sep]: the leftmost occurrences, not
    overlapping. [skip] is the number of characters of the separator just
    found that are still to be passed over; [cur] is the piece read so far,
    last character first. *)
Fixpoint split_go (sep : str) (skip : nat) (cur s : str) : list str :=
  match s with
  | [] => [rev cur]
  | c :: s' =>
      match skip with
      | S k => split_go sep k cur s'
      | O =>
          if starts_with sep s
          then rev cur :: split_go sep (length sep - 1) [] s'
          else split_go sep 0 (c :: cur) s'
      end
  end.

Definition split (sep s : str) : list str := split_go sep 0 [] s.

(** [s.replace(old, new)] for a non-empty [old]. *)
Fixpoint replace_go (old new : str) (skip : nat) (s : str) : str :=
  match s with
  | [] => []
  | c :: s' =>
      match skip with
      | S k => replace_go old new k s'
      | O =>
          if starts_with old s
          then new ++ replace_go old new (length old - 1) s'
          else c :: replace_go old new 0 s'
      end
  end.

Definition replace (old new s : str) : str := replace_go old new 0 s.

(** [sep.join(parts)] *)
Fixpoint join (sep : str) (parts : list str) : str :=
  match parts with
  | [] => []
  | [p] => p
  | p :: ps => p ++ sep ++ join sep ps
  end.

(** [s.ljust(width, fill)] and [s.rjust(width, fill)] *)
Definition ljust (width : nat) (fill : ascii) (s : str) : str :=
  s ++ repeat fill (width - length s).

Definition rjust (width : nat) (fill : ascii) (s : str) : str :=
  repeat fill (width - length s) ++ s.

(** [s[:-k]] *)
Definition drop_last (k : nat) (s : str) : str := take (length s - k) s.

(** [l[i]], raising [IndexError] out of range (non-negative [i]). *)
Definition index {A} (l : list A) (i : nat) : result A :=
  match l !! i with
  | Some a => Ok a
  | None => Raise IndexError
  end.

(** *** Decimal rendering *)

Definition digit_char (d : N) : ascii := ascii_of_N (48 + d).

Fixpoint digits_go (fuel : nat) (n : N) (acc : str) : str :=
  match fuel with
  | O => acc
  | S f =>
      let acc' := digit_char (n mod 10) :: acc in
      if (n / 10 =? 0)%N then acc' else digits_go f (n / 10)%N acc'
  end.

(** The decimal digits of a natural number, without leading zeros. *)
Definition str_of_N (n : N) : str :=
  digits_go (S (N.to_nat (N.size n))) n [].

(** ["%d" % z], [str(z)] and [f"{z}"] *)
Definition str_of_Z (z : Z) : str :=
  if z <? 0 then "-"%char :: str_of_N (Z.abs_N z) else str_of_N (Z.abs_N z).

(** ["%0wd" % z] and [f"{z:0wd}"]: zeros between the sign and the digits
    up to [width] characters in all. *)
Definition fmt_0d (width : nat) (z : Z) : str :=
  let ds := str_of_N (Z.abs_N z) in
  if z <? 0
  then "-"%char :: repeat "0"%char (width - 1 - length ds) ++ ds
  else repeat "0"%char (width - length ds) ++ ds.

(** *** [int(s)] in base 10 *)

Definition digit_val (c : ascii) : option N :=
  let n := N_of_ascii c in
  if ((48 <=? n) && (n <=? 57))%N then Some (n - 48)%N else None.

(** The characters after a digit: digits, each optionally preceded by one
    underscore. *)
Fixpoint int_digits (acc : N) (s : str) : option N :=
  match s with
  | [] => Some acc
  | c :: s' =>
      match digit_val c with
      | Some d => int_digits (10 * acc + d)%N s'
      | None =>
          if Ascii.eqb c "_"
          then match s' with
               | c2 :: s'' =>
                   match digit_val c2 with
                   | Some d => int_digits (10 * acc + d)%N s''
                   | None => None
                   end
               | [] => None
               end
          else None
      end
  end.

Definition int_unsigned (s : str) : option N :=
  match s with
  | c :: s' =>
      match digit_val c with
      | Some d => int_digits d s'
      | None => None
      end
  | [] => None
  end.

Definition int_signed (s : str) : option Z :=
  match s with
  | c :: r =>
      if Ascii.eqb c "-" then (fun n => - Z.of_N n) <$> int_unsigned r
      else if Ascii.eqb c "+" then Z.of_N <$> int_unsigned r
      else Z.of_N <$> int_unsigned s
  | [] => None
  end.

(** The whitespace [int] drops around a number: the characters C's
    [isspace] takes (TAB..CR and SPACE) and, above code 127, those Unicode
    takes as whitespace (NEL and NBSP). The separators FS..US, which
    [str.strip] drops, are not among them: [int("1\x1f")] raises. *)
Definition is_int_space (c : ascii) : bool :=
  let n := nat_of_ascii c in
  (((9 <=? n) && (n <=? 13)) || (n =? 32) || (n =? 133) || (n =? 160))%nat.

Fixpoint lstrip_int (s : str) : str :=
  match s with
  | c :: s' => if is_int_space c then lstrip_int s' else s
  | [] => []
  end.

Definition strip_int (s : str) : str := rev (lstrip_int (rev (lstrip_int s))).

(** [int(s)]: the whitespace around the number is dropped, then an
    optional sign and the digits; anything else is a [ValueError]. The
    limit CPython 3.11 and later put on the number of digits
    ([sys.set_int_max_str_digits], 4300 unless set otherwise) is left out:
    this is the conversion with the limit off, as in the versions before. *)
Definition int (s : str) : result Z :=
  match int_signed (strip_int s) with
  | Some z => Ok z
  | None => Raise ValueError
  end.

(** *** Notions used in the statements *)

(** The text before the first [c], and the text after it. *)
Fixpoint before_first (c : ascii) (s : str) : str :=
  match s with
  | [] => []
  | x :: r => if Ascii.eqb c x then [] else x :: before_first c r
  end.

Fixpoint after_first (c : ascii) (s : str) : str :=
  match s with
  | [] => []
  | x :: r => if Ascii.eqb c x then r else after_first c r
  end.

Definition subst_char (a b x : ascii) : ascii :=
  if Ascii.eqb a x then b else x.

Definition is_digit (c : ascii) : Prop := is_Some (digit_val c).

Definition dval (c : ascii) : N := default 0%N (digit_val c).

(** The number a string of digits denotes. *)
Fixpoint dec_value (ds : str) : N :=
  match ds with
  | [] => 0
  | c :: r => dval c * 10 ^ N.of_nat (length r) + dec_value r
  end%N.

End Py.

Import Py.

(** ** Subtitle segments *)

(** A segment is the dictionary [{"start": .., "end": .., "text": ..}]. The
    worker stores in ["text"] whatever the translation returned, so the type
    of the text is left open: it is [str] everywhere else. *)
Record segment (T : Type) : Type := Segment {
  start : str;
  end_ : str;
  text : T
}.
Arguments Segment {T} _ _ _.
Arguments start {T} _.
Arguments end_ {T} _.
Arguments text {T} _.

(** [enumerate(l, k)] *)
Fixpoint enumerate {A} (k : nat) (l : list A) : list (nat * A) :=
  match l with
  | [] => []
  | a :: l' => (k, a) :: enumerate (S k) l'
  end.

(** ** utils.py *)

Module Utils.

(** *** SRT to VTT *)

Definition header : str := py "WEBVTT" ++ [nl; nl].

(** One turn of the loop of [save_srt_to_vtt] over the blocks. *)
Definition vtt_step (vtt_content block : str) : str :=
  match strip block with
  | [] => vtt_content
  | _ :: _ =>
      let lines := split [nl] block in
      if (3 <=? length lines)%nat
      then match lines with
           | _ :: line1 :: rest =>
               let timestamp := replace (py ",") (py ".") line1 in
               let text := join [nl] rest in
               vtt_content ++ timestamp ++ [nl] ++ text ++ [nl; nl]
           | _ => vtt_content
           end
      else vtt_content
  end.

(** [save_srt_to_vtt] *)
Definition save_srt_to_vtt (srt_content : str) : str :=
  fold_left vtt_step (split [nl; nl] srt_content) header.

(** *** What the conversion is expected to give *)

(** The cue of a segment: the timing line with dots for commas, the text,
    a blank line. *)
Definition vtt_cue (seg : segment str) : str :=
  replace (py ",") (py ".") (start seg ++ py " --> " ++ end_ seg)
  ++ [nl] ++ text seg ++ [nl; nl].

(** The header, once, and the cues of the segments in order. *)
Definition vtt_of_segments (segments : list (segment str)) : str :=
  header ++ concat (vtt_cue <$> segments).

(** Every newline of the text is followed by a character that is not a
    newline. *)
Fixpoint tight (s : str) : bool :=
  match s with
  | [] => true
  | c :: r =>
      (negb (Ascii.eqb c nl)
       || match r with
          | [] => false
          | d :: _ => negb (Ascii.eqb d nl)
          end)
      && tight r
  end.

(** The text starts with a character that is not a newline. *)
Definition starts_line (s : str) : bool :=
  match s with
  | [] => false
  | c :: _ => negb (Ascii.eqb c nl)
  end.

(** No line of the text is empty: the text is not empty, neither begins
    nor ends with a newline, and has no two newlines in a row. *)
Definition no_empty_line (s : str) : bool := starts_line s && tight s.

(** A segment whose timestamps are on one line and whose text has no
    empty line. *)
Definition well_formed (seg : segment str) : bool :=
  negb (contains [nl] (start seg)) && negb (contains [nl] (end_ seg))
  && no_empty_line (text seg).

(** *** Reading speed *)

(** [len(text.split())]: the number of maximal runs of characters that are
    not whitespace. [inside] tells whether the previous character was part
    of a word. *)
Fixpoint count_words (inside : bool) (s : str) : nat :=
  match s with
  | [] => 0
  | c :: s' =>
      if is_space c then count_words false s'
      else (if inside then 0 else 1) + count_words true s'
  end%nat.

Section ReadingSpeed.

(** Python's floats are taken as given: their type, [float(s)] on a string,
    the conversion of an [int], the arithmetic, [sum] over a non-empty list
    of floats, and the tests [x > 0] and [x == 0]. *)
Variable float : Type.
Variable float_of_str : str -> result float.
Variable float_of_Z : Z -> float.
Variables fsub fmul fdiv : float -> float -> float.
Variable fadd : float -> float -> float.
Variable fsum : list float -> float.
Variable fpos : float -> bool.
Variable fzero : float -> bool.

(** A number in a result: an [int] or a [float]. *)
Inductive num : Type :=
| NInt (z : Z)
| NFloat (x : float).

(** [x > 0] *)
Definition num_pos (x : num) : bool :=
  match x with
  | NInt z => 0 <? z
  | NFloat f => fpos f
  end.

(** Truth value of an optional number, as [or] takes it: [None], [0] and
    [0.0] are false. *)
Definition truthy (x : option num) : bool :=
  match x with
  | None => false
  | Some (NInt z) => negb (z =? 0)
  | Some (NFloat f) => negb (fzero f)
  end.

(** [int(parts[0]) * 3600 + int(parts[1]) * 60 +
    float(parts[2].replace(",", "."))] *)
Definition seconds_of_parts (parts : list str) : result float :=
  let* p0 := index parts 0 in
  let* h := int p0 in
  let* p1 := index parts 1 in
  let* m := int p1 in
  let* p2 := index parts 2 in
  let* s := float_of_str (replace (py ",") (py ".") p2) in
  Ok (fadd (float_of_Z (h * 3600 + m * 60)) s).

(** The [try] block computing one segment's duration. *)
Definition segment_duration (seg : segment str) : result float :=
  let start_parts := split (py ":") (start seg) in
  let end_parts := split (py ":") (end_ seg) in
  let* start_seconds := seconds_of_parts start_parts in
  let* end_seconds := seconds_of_parts end_parts in
  Ok (fsub end_seconds start_seconds).

(** The state of the loop: [total_chars], [total_words] and
    [segment_durations]. *)
Definition speed_step (st : Z * Z * list float) (seg : segment str)
  : Z * Z * list float :=
  let '(total_chars, total_words, segment_durations) := st in
  let total_chars := total_chars + Z.of_nat (length (text seg)) in
  let total_words := total_words + Z.of_nat (count_words false (text seg)) in
  match segment_duration seg with
  | Ok duration => (total_chars, total_words, segment_durations ++ [duration])
  | Raise _ => (total_chars, total_words, segment_durations)
  end.

(** [sum(segment_durations)]: the [int] 0 for the empty list. *)
Definition sum_durations (ds : list float) : num :=
  match ds with
  | [] => NInt 0
  | _ :: _ => NFloat (fsum ds)
  end.

(** [k / d] for an [int] k. *)
Definition divide (k : Z) (d : num) : float :=
  match d with
  | NFloat f => fdiv (float_of_Z k) f
  | NInt z => fdiv (float_of_Z k) (float_of_Z z)
  end.

(** [k / d if d > 0 else 0] and [(k / d) * 60 if d > 0 else 0] *)
Definition per_second (k : Z) (d : num) : num :=
  if num_pos d then NFloat (divide k d) else NInt 0.

Definition per_minute (k : Z) (d : num) : num :=
  if num_pos d then NFloat (fmul (divide k d) (float_of_Z 60)) else NInt 0.

(** [calculate_reading_speed(subtitle_segments, total_duration=None)]; the
    result is the dictionary it returns. *)
Definition calculate_reading_speed (subtitle_segments : list (segment str))
    (total_duration : option num) : gmap string num :=
  match subtitle_segments with
  | [] =>
      <[ "avg_speed"%string := NInt 0 ]>
      (<[ "total_chars"%string := NInt 0 ]>
      (<[ "total_words"%string := NInt 0 ]>
      (<[ "total_duration"%string := NInt 0 ]> ∅)))
  | _ :: _ =>
      let '(total_chars, total_words, segment_durations) :=
        fold_left speed_step subtitle_segments (0, 0, []) in
      let total_speaking_duration := sum_durations segment_durations in
      let avg_speed_cps := per_second total_chars total_speaking_duration in
      let avg_speed_wpm := per_minute total_words total_speaking_duration in
      <[ "avg_speed_cps"%string := avg_speed_cps ]>
      (<[ "avg_speed_wpm"%string := avg_speed_wpm ]>
      (<[ "total_chars"%string := NInt total_chars ]>
      (<[ "total_words"%string := NInt total_words ]>
      (<[ "total_speaking_duration"%string := total_speaking_duration ]>
      (<[ "total_duration"%string :=
            if truthy total_duration
            then default (NInt 0) total_duration
            else total_speaking_duration ]> ∅)))))
  end.

End ReadingSpeed.

Arguments NInt {float} z.
Arguments NFloat {float} x.

(** *** Statistics *)

Section SubtitleStats.

Variable float : Type.
Variable float_of_str : str -> result float.
Variable float_of_Z : Z -> float.
Variables fsub fdiv : float -> float -> float.
Variable fadd : float -> float -> float.
Variable fsum : list float -> float.

(** One turn of the loop of [get_subtitle_stats] over the segments: the
    [try] block is the one of [calculate_reading_speed]. *)
Definition duration_step (durations : list float) (seg : segment str)
  : list float :=
  match segment_duration float float_of_str float_of_Z fsub fadd seg with
  | Ok duration => durations ++ [duration]
  | Raise _ => durations
  end.

(** [get_subtitle_stats(segments)]; the result is the dictionary it
    returns. *)
Definition get_subtitle_stats (segments : list (segment str))
  : gmap string (num float) :=
  match segments with
  | [] =>
      <[ "count"%string := NInt 0 ]>
      (<[ "duration"%string := NInt 0 ]>
      (<[ "avg_length"%string := NInt 0 ]>
      (<[ "max_length"%string := NInt 0 ]> ∅)))
  | _ :: _ =>
      let count := Z.of_nat (length segments) in
      let char_lengths :=
        (fun s => Z.of_nat (length (text s))) <$> segments in
      let avg_length :=
        if 0 <? count
        then NFloat (fdiv (float_of_Z (fold_left Z.add char_lengths 0))
                          (float_of_Z count))
        else NInt 0 in
      let max_length :=
        match char_lengths with
        | [] => 0
        | x :: xs => fold_left Z.max xs x
        end in
      let durations := fold_left duration_step segments [] in
      let avg_duration :=
        match durations with
        | [] => NInt 0
        | _ :: _ =>
            NFloat (fdiv (fsum durations)
                         (float_of_Z (Z.of_nat (length durations))))
        end in
      let total_duration :=
        match durations with
        | [] => NInt 0
        | _ :: _ => NFloat (fsum durations)
        end in
      <[ "count"%string := NInt count ]>
      (<[ "total_duration"%string := total_duration ]>
      (<[ "avg_duration"%string := avg_duration ]>
      (<[ "avg_length"%string := avg_length ]>
      (<[ "max_length"%string := NInt max_length ]> ∅))))
  end.

End SubtitleStats.

(** *** Timestamp validation *)

(** The body of the [try] block of [validate_timestamp]. *)
Definition validate_timestamp_try (timestamp_str : str) : result (option str) :=
  let parts := split (py ":") timestamp_str in
  if negb (length parts =? 3)%nat then Ok None
  else
    let* p0 := index parts 0 in
    let* hours := int p0 in
    let* p1 := index parts 1 in
    let* minutes := int p1 in
    let* p2 := index parts 2 in
    let seconds_parts := split (py ".") (replace (py ",") (py ".") p2) in
    let* sp0 := index seconds_parts 0 in
    let* seconds := int sp0 in
    if negb ((0 <=? hours) && ((0 <=? minutes) && (minutes <? 60))
             && ((0 <=? seconds) && (seconds <? 60)))
    then Ok None
    else
      let hms := fmt_0d 2 hours ++ py ":" ++ fmt_0d 2 minutes ++ py ":"
                 ++ fmt_0d 2 seconds ++ py "," in
      if contains (py ",") p2
      then
        let* frac := index (split (py ",") p2) 1 in
        let milliseconds := take 3 (ljust 3 "0" frac) in
        Ok (Some (hms ++ milliseconds))
      else
        let* milliseconds :=
          (if contains (py ".") p2
           then let* frac := index (split (py ".") p2) 1 in
                Ok (take 3 (ljust 3 "0" frac))
           else Ok (py "000")) in
        Ok (Some (hms ++ milliseconds)).

(** [validate_timestamp]: the [try] block with [except ValueError: return
    None]; any other exception would leave the function. *)
Definition validate_timestamp (timestamp_str : str) : result (option str) :=
  match validate_timestamp_try timestamp_str with
  | Raise ValueError => Ok None
  | r => r
  end.

(** *** The validation in closed form *)

(** The three colon-separated parts, when there are exactly three. *)
Definition fields (s : str) : option (str * str * str) :=
  match split (py ":") s with
  | [p0; p1; p2] => Some (p0, p1, p2)
  | _ => None
  end.

(** The seconds of the third part: its text up to the first comma or dot. *)
Fixpoint seconds_field (p2 : str) : str :=
  match p2 with
  | [] => []
  | x :: r =>
      if Ascii.eqb x "," || Ascii.eqb x "." then [] else x :: seconds_field r
  end.

(** The text between the first [c] and the next. *)
Definition second_piece (c : ascii) (s : str) : str :=
  before_first c (after_first c s).

(** The milliseconds of the third part: three characters, from the text
    after the separator filled up with zeros; the comma is looked for
    before the dot. *)
Definition millis_field (p2 : str) : str :=
  if contains (py ",") p2
  then take 3 (ljust 3 "0" (second_piece "," p2))
  else if contains (py ".") p2
       then take 3 (ljust 3 "0" (second_piece "." p2))
       else py "000".

(** A text without colon, comma or dot. *)
Definition plain (s : str) : Prop :=
  (":"%char ∉ s) /\ (","%char ∉ s) /\ ("."%char ∉ s).

(** [HH:MM:SS,mmm] *)
Definition normal (h m sec : Z) (ms : str) : str :=
  fmt_0d 2 h ++ py ":" ++ fmt_0d 2 m ++ py ":" ++ fmt_0d 2 sec ++ py ","
  ++ ms.

(** What [validate_timestamp] computes, by the parts of its input. *)
Definition validate_timestamp_closed (s : str) : option str :=
  match fields s with
  | None => None
  | Some (p0, p1, p2) =>
      match int p0, int p1, int (seconds_field p2) with
      | Ok h, Ok m, Ok sec =>
          if (0 <=? h) && ((0 <=? m) && (m <? 60))
             && ((0 <=? sec) && (sec <? 60))
          then Some (normal h m sec (millis_field p2))
          else None
      | _, _, _ => None
      end
  end.

End Utils.

(** ** components.py *)

Module Components.

(** One turn of the loop of [get_srt_content]:
    [srt_content += f"{idx}\n{start} --> {end}\n{text}\n\n"]. *)
Definition srt_entry (idx : nat) (seg : segment str) : str :=
  str_of_Z (Z.of_nat idx) ++ [nl] ++ start seg ++ py " --> " ++ end_ seg
  ++ [nl] ++ text seg ++ [nl; nl].

(** [SubtitleEditor.get_srt_content], on the segments [get_segments]
    reads back from the widgets. *)
Definition get_srt_content (segments : list (segment str)) : str :=
  fold_left (fun srt_content '(idx, seg) => srt_content ++ srt_entry idx seg)
            (enumerate 1 segments) [].

(** The serialisation entry after entry, and the lines of an entry before
    its blank line. *)
Fixpoint srt_text (idx : nat) (segs : list (segment str)) : str :=
  match segs with
  | [] => []
  | seg :: rest => srt_entry idx seg ++ srt_text (S idx) rest
  end.

Definition timing (seg : segment str) : str :=
  start seg ++ py " --> " ++ end_ seg.

Definition entry_body (idx : nat) (seg : segment str) : str :=
  str_of_Z (Z.of_nat idx) ++ nl :: timing seg ++ nl :: text seg.

End Components.


(** ** transcription.py *)

Module Transcription.

(** *** The translation service *)

(** What [response.json()] can return. A number keeps its literal: the code
    never looks into it. The fields of a dictionary have distinct keys. *)
#[local] Set Warnings "-register-all".
Inductive value : Type :=
| VNone
| VBool (b : bool)
| VNum (literal : str)
| VStr (s : str)
| VList (items : list value)
| VDict (fields : list (str * value)).
#[local] Set Warnings "register-all".

(** The body of an HTTP response: not JSON, JSON nested deeper than the
    interpreter lets the parser recurse, or JSON that parses to a value. *)
Inductive body : Type :=
| NotJson
| TooDeep
| Json (v : value).

(** What [requests.post] does: it raises a [RequestException] (time-out,
    connection error, ...) or returns a response. *)
Inductive reply : Type :=
| NoResponse
| Response (status_code : Z) (b : body).

Record payload : Type := Payload {
  q : str;
  source : str;
  target : str;
  format : str
}.

(** The network as one call of [translate_text] finds it: the reply to a
    POST of a payload to a URL. *)
Definition network : Type := str -> payload -> reply.

Definition SERVERS : list str :=
  [ py "https://translate.argosopentech.com";
    py "https://libretranslate.de";
    py "https://translate.terraprint.co";
    py "https://lt.vern.cc" ].

(** [key in v] for a string [key]: a key of a dictionary, an item of a
    list, a substring of a string; [TypeError] on what is not iterable. *)
Definition py_in (key : str) (v : value) : result bool :=
  match v with
  | VDict fields => Ok (bool_decide (key ∈ fields.*1))
  | VList items =>
      Ok (existsb (fun x => match x with
                            | VStr s => bool_decide (s = key)
                            | _ => false
                            end) items)
  | VStr s => Ok (contains key s)
  | VNone | VBool _ | VNum _ => Raise TypeError
  end.

Fixpoint lookup_field (key : str) (fields : list (str * value))
  : option value :=
  match fields with
  | [] => None
  | (k, x) :: rest =>
      if bool_decide (k = key) then Some x else lookup_field key rest
  end.

(** [v[key]] for a string [key]. *)
Definition getitem (v : value) (key : str) : result value :=
  match v with
  | VDict fields =>
      match lookup_field key fields with
      | Some x => Ok x
      | None => Raise KeyError
      end
  | _ => Raise TypeError
  end.

(** [response.json()]; a body that is not JSON raises
    [requests.exceptions.JSONDecodeError], which is a [RequestException]
    (requests 2.27 and later); on JSON nested too deep the parser raises
    [RecursionError], which is none. *)
Definition json (b : body) : result value :=
  match b with
  | Json v => Ok v
  | NotJson => Raise RequestException
  | TooDeep => Raise RecursionError
  end.

Section TranslateText.

Variable post : network.

(** The body of the [try] block for one server: [Some v] when the function
    returns [v] from inside the loop, [None] when the loop goes on. *)
Definition ask (server : str) (data : payload) : result (option value) :=
  match post (server ++ py "/translate") data with
  | NoResponse => Raise RequestException
  | Response status_code b =>
      if status_code =? 200
      then
        let* res := json b in
        let* found := py_in (py "translatedText") res in
        if found
        then let* x := getitem res (py "translatedText") in Ok (Some x)
        else Ok None
      else Ok None
  end.

(** The loop over the servers; [except requests.RequestException: continue]
    lets any other exception through. *)
Fixpoint try_servers (servers : list str) (text : str) (data : payload)
  : result value :=
  match servers with
  | [] => Ok (VStr text)
  | server :: rest =>
      match ask server data with
      | Ok (Some x) => Ok x
      | Ok None => try_servers rest text data
      | Raise RequestException => try_servers rest text data
      | Raise e => Raise e
      end
  end.

(** [TranslationService.translate_text] *)
Definition translate_text (text target_language : str) : result value :=
  match strip text with
  | [] => Ok (VStr text)
  | _ :: _ =>
      let data := {| q := text; source := py "auto";
                     target := target_language; format := py "text" |} in
      try_servers SERVERS text data
  end.

(** The payload [translate_text] posts. *)
Definition payload_of (text target_language : str) : payload :=
  {| q := text; source := py "auto"; target := target_language;
     format := py "text" |}.

(** A reply after which the loop goes on to the next server: no response,
    a status other than 200, a body that is not JSON, or JSON in which
    ["translatedText"] is not found. *)
Definition declines (r : reply) : Prop :=
  match r with
  | NoResponse => True
  | Response status_code b =>
      status_code <> 200 \/ b = NotJson
      \/ exists v, b = Json v /\ py_in (py "translatedText") v = Ok false
  end.

End TranslateText.

Section TranslateBatch.

(** The network as the task of each index finds it, and the order in which
    [as_completed] hands back the tasks submitted. *)
Variable net : nat -> network.
Variable as_completed : list (nat * str) -> list (nat * str).

Definition nonblank (text : str) : bool :=
  match strip text with
  | [] => false
  | _ :: _ => true
  end.

(** One turn of the loop over the completed futures. *)
Definition collect (target_language : str) (results : list value)
    (task : nat * str) : list value :=
  let '(index, text) := task in
  match translate_text (net index) text target_language with
  | Ok translated_text => <[index := translated_text]> results
  | Raise _ => results
  end.

(** [TranslationService.translate_batch]; [max_workers] bounds the number
    of tasks running at once and does not show in the result. *)
Definition translate_batch (texts : list str) (target_language : str)
  : list value :=
  let texts_to_translate :=
    List.filter (fun '(i, text) => nonblank text) (enumerate 0 texts) in
  match texts_to_translate with
  | [] => VStr <$> texts
  | _ :: _ =>
      fold_left (collect target_language)
                (as_completed texts_to_translate) (VStr <$> texts)
  end.

End TranslateBatch.

(** *** The transcription worker *)

(** [datetime.timedelta], normalised as Python keeps it:
    [0 <= seconds < 86400] and [0 <= microseconds < 1000000]. *)
Record timedelta : Type := Timedelta {
  days : Z;
  seconds : Z;
  microseconds : Z
}.

(** [timedelta(seconds=x)], for the number of microseconds that [x] seconds
    round to. *)
Definition timedelta_of_us (us : Z) : timedelta :=
  {| days := us / 86400000000;
     seconds := (us mod 86400000000) / 1000000;
     microseconds := us mod 1000000 |}.

(** [str(t)]: ["H:MM:SS"], with the days in front when there are any and
    the six digits of the microseconds behind when they are not zero. *)
Definition timedelta_str (t : timedelta) : str :=
  let mm := seconds t / 60 in
  let ss := seconds t mod 60 in
  let hh := mm / 60 in
  let mm := mm mod 60 in
  let s := str_of_Z hh ++ py ":" ++ fmt_0d 2 mm ++ py ":" ++ fmt_0d 2 ss in
  let s :=
    if days t =? 0 then s
    else str_of_Z (days t) ++ py " day"
         ++ (if Z.abs (days t) =? 1 then [] else py "s") ++ py ", " ++ s in
  if microseconds t =? 0 then s
  else s ++ py "." ++ fmt_0d 6 (microseconds t).

(** [str(timedelta(seconds=x)).rjust(12, "0")[:-3].replace(".", ",")] for
    a time [x] of [us] microseconds that [timedelta] holds. *)
Definition format_time (us : Z) : str :=
  replace (py ".") (py ",")
    (drop_last 3 (rjust 12 "0" (timedelta_str (timedelta_of_us us)))).

(** A time in seconds as the model returns it, a float: a finite float is
    given by the count of microseconds [timedelta] rounds it to. *)
Inductive float_time : Type :=
| Finite (us : Z)
| Infinite
| NotANumber.

(** Whether [timedelta] holds a count of microseconds: its days, the
    quotient rounded down, are at most 999999999 in magnitude. *)
Definition timedelta_holds (us : Z) : bool :=
  let days := us / 86400000000 in
  (-999999999 <=? days) && (days <=? 999999999).

(** [str(e)] for the [OverflowError] of [timedelta(seconds=x)] on a count
    of microseconds it does not hold: the days do not fit a C [int], or
    fit and are out of range. *)
Definition overflow_text (us : Z) : str :=
  let days := us / 86400000000 in
  if (days <? -2147483648) || (2147483647 <? days)
  then py "Python int too large to convert to C int"
  else py "days=" ++ str_of_Z days ++ py "; must have magnitude <= 999999999".

(** A segment as the model returns it. *)
Record raw_segment : Type := RawSegment {
  raw_start : float_time;
  raw_end : float_time;
  raw_text : str
}.

(** The dictionary [model.transcribe] returns, with the two keys the worker
    reads; either can be missing. *)
Record transcription : Type := TranscribeResult {
  language : option str;
  segments : option (list raw_segment)
}.

(** The signals of the thread. *)
Inductive event : Type :=
| progress_update (percent : Z) (message : str)
| transcription_complete (segs : list (segment value))
| error_occurred (message : str).

(** The state the worker shares with the main thread: the flag
    [self.cancelled] and the signals emitted so far. [clock] counts the
    worker's emissions and readings of the flag. *)
Record world : Type := World {
  cancelled : bool;
  clock : nat;
  log : list event
}.

Definition initial : world :=
  {| cancelled := false; clock := 0; log := [] |}.

(** [WhisperTranscriptionThread.cancel], called by the main thread. The
    raising of the flag and the emission of the message are taken as one
    step: the worker does not see the flag up before the message is in the
    log. *)
Definition cancel (w : world) : world :=
  {| cancelled := true;
     clock := clock w;
     log := log w ++ [progress_update 0 (py "Cancelling operation...")] |}.

(** What a piece of the worker's code comes to: a value, or an exception
    with the text [str(e)]. *)
Inductive outcome (A : Type) : Type :=
| Done (a : A)
| Failed (message : str).
Arguments Done {A} a.
Arguments Failed {A} message.

Definition W (A : Type) : Type := world -> outcome A * world.

Definition wret {A} (a : A) : W A := fun w => (Done a, w).

Definition wbind {A B} (m : W A) (f : A -> W B) : W B := fun w =>
  match m w with
  | (Done a, w') => f a w'
  | (Failed message, w') => (Failed message, w')
  end.

Definition wraise {A} (message : str) : W A := fun w => (Failed message, w).

(** [try: m except Exception as e: handler(str(e))] *)
Definition try_except {A} (m : W A) (handler : str -> W A) : W A := fun w =>
  match m w with
  | (Done a, w') => (Done a, w')
  | (Failed message, w') => handler message w'
  end.

(** A call that returns or raises and touches neither the flag nor the
    signals. *)
Definition raising {A} (o : outcome A) : W A := fun w => (o, w).

(** [str(timedelta(seconds=x)).rjust(12, "0")[:-3].replace(".", ",")] for
    any float [x]: [timedelta] raises [OverflowError] on a time it does
    not hold and on an infinity, and [ValueError] on a NaN. *)
Definition time_text (x : float_time) : outcome str :=
  match x with
  | Finite us =>
      if timedelta_holds us then Done (format_time us)
      else Failed (overflow_text us)
  | Infinite => Failed (py "cannot convert float infinity to integer")
  | NotANumber => Failed (py "cannot convert float NaN to integer")
  end.

Declare Scope worker_scope.
Delimit Scope worker_scope with worker.
Notation "'let*' x ':=' m 'in' k" := (wbind m (fun x => k))
  (at level 10, x name, m at level 200, k at level 200) : worker_scope.
Notation "m ';;' k" := (wbind m (fun _ => k))
  (at level 100, k at level 200, right associativity) : worker_scope.

Section Worker.

(** The constructor's arguments. *)
Variable audio_path : str.
Variable source_language : str.
Variable translate : bool.
Variable target_language : option str.

(** The machine and the libraries: the memory of the first CUDA device in
    bytes, if there is one; whether [whisper.load_model] raises, and with
    which text; what [model.transcribe] returns or raises, for the path and
    the language option it is given; the network as the translation of
    text [j] of the batch starting at [i] finds it, and the order in which
    the tasks of that batch complete. *)
Variable gpu_total_memory : option Z.
Variable load_model : str -> option str.
Variable transcribe : str -> option str -> outcome transcription.
Variable net : nat -> nat -> network.
Variable as_completed : nat -> list (nat * str) -> list (nat * str).

(** The main thread: whether it calls [cancel] just before the worker's
    action number [k] (an emission or a reading of the flag). *)
Variable cancel_before : nat -> bool.

Definition tick (w : world) : world :=
  let w' := if cancel_before (clock w) then cancel w else w in
  {| cancelled := cancelled w'; clock := S (clock w'); log := log w' |}.

(** [signal.emit(...)] *)
Definition emit (e : event) : W unit := fun w =>
  let w' := tick w in
  (Done tt,
   {| cancelled := cancelled w'; clock := clock w'; log := log w' ++ [e] |}).

(** Reading [self.cancelled]. *)
Definition is_cancelled : W bool := fun w =>
  let w' := tick w in (Done (cancelled w'), w').

Local Open Scope worker_scope.

(** [f"{gpu_memory:.1f}"] for [gpu_memory = total_memory / 1024**3]: the
    quotient to one decimal, halves to the even digit. The quotient is an
    exact float for any memory size below 2^53 bytes. *)
Definition gb_1f (total_memory : Z) : str :=
  let scaled := total_memory * 10 in
  let quot := scaled / 1073741824 in
  let rem := scaled mod 1073741824 in
  let tenths :=
    if (536870912 <? rem) || ((rem =? 536870912) && Z.odd quot)
    then quot + 1 else quot in
  str_of_Z (tenths / 10) ++ py "." ++ str_of_Z (tenths mod 10).

(** [_select_model_size]; [gpu_memory > k] is [total_memory > k * 1024**3]. *)
Definition _select_model_size : W str :=
  match gpu_total_memory with
  | Some total_memory =>
      let model_size :=
        if 10 * 1073741824 <? total_memory then py "large"
        else if 5 * 1073741824 <? total_memory then py "medium"
        else if 2 * 1073741824 <? total_memory then py "small"
        else py "base" in
      emit (progress_update 15
              (py "Using " ++ model_size
               ++ py " model with GPU acceleration ("
               ++ gb_1f total_memory ++ py " GB VRAM)"));;
      wret model_size
  | None =>
      emit (progress_update 15
              (py "Using " ++ py "base" ++ py " model (CPU mode - slower)"));;
      wret (py "base")
  end.

(** The loop of [_process_segments]. [65 + int((idx + 1) / total_segments
    * 30)] is taken with the exact quotient. *)
Fixpoint process_loop (total_segments idx : nat) (raw : list raw_segment)
    (segs : list (segment str)) : W (list (segment str)) :=
  match raw with
  | [] => wret segs
  | seg :: rest =>
      let* c := is_cancelled in
      if c then wret []
      else
        let* start_time := raising (time_text (raw_start seg)) in
        let* end_time := raising (time_text (raw_end seg)) in
        let segs := segs ++ [ {| start := start_time; end_ := end_time;
                                 text := strip (raw_text seg) |} ] in
        (if negb translate
         then
           let progress :=
             65 + (Z.of_nat (idx + 1) * 30) / Z.of_nat total_segments in
           emit (progress_update progress
                   (py "Processing segment " ++ str_of_Z (Z.of_nat (idx + 1))
                    ++ py "/" ++ str_of_Z (Z.of_nat total_segments)))
         else wret tt);;
        process_loop total_segments (S idx) rest segs
  end.

Definition _process_segments (raw_segments : list raw_segment)
  : W (list (segment str)) :=
  process_loop (length raw_segments) 0 raw_segments [].

(** [range(0, total, step)] for a positive [step]. *)
Definition batch_starts (total step : nat) : list nat :=
  (fun k => k * step)%nat <$> seq 0 (Nat.div (total + step - 1) step).

(** [translated_segments[idx]["text"] = translated_batch[j]] for the
    indices of one batch. *)
Fixpoint assign (segs : list (segment value)) (pairs : list (nat * nat))
    (translated_batch : list value) : outcome (list (segment value)) :=
  match pairs with
  | [] => Done segs
  | (j, idx) :: rest =>
      match segs !! idx, translated_batch !! j with
      | Some seg, Some x =>
          assign (<[idx := {| start := start seg; end_ := end_ seg;
                              text := x |}]> segs) rest translated_batch
      | _, _ => Failed (py "list index out of range")
      end
  end.

(** The loop of [_translate_segments] over the batches: [None] when the
    function returns the empty list from inside the loop, [Some] of the
    segments when the loop ends. [70 + int(i / total_texts * 25)] is taken
    with the exact quotient. *)
Fixpoint translate_loop (target : str) (texts : list str)
    (batch_size : nat) (starts : list nat)
    (translated_segments : list (segment value))
  : W (option (list (segment value))) :=
  match starts with
  | [] => wret (Some translated_segments)
  | i :: rest =>
      let total_texts := length texts in
      let* c := is_cancelled in
      if c then wret None
      else
        let batch := take batch_size (drop i texts) in
        let batch_indices :=
          seq i (Nat.min (i + batch_size) total_texts - i) in
        let progress :=
          70 + (Z.of_nat i * 25) / Z.of_nat total_texts in
        emit (progress_update progress
                (py "Translating segments " ++ str_of_Z (Z.of_nat (i + 1))
                 ++ py "-" ++ str_of_Z (Z.of_nat (i + length batch))
                 ++ py "/" ++ str_of_Z (Z.of_nat total_texts)));;
        let translated_batch :=
          translate_batch (net i) (as_completed i) batch target in
        match assign translated_segments (enumerate 0 batch_indices)
                     translated_batch with
        | Done segs => translate_loop target texts batch_size rest segs
        | Failed message => wraise message
        end
  end.

(** A segment with its text as a value. *)
Definition as_value (seg : segment str) : segment value :=
  {| start := start seg; end_ := end_ seg; text := VStr (text seg) |}.

(** [_translate_segments]. The copy of the list is shallow: the
    dictionaries whose text is assigned are those of the argument. The
    worker calls it with the target language set. *)
Definition _translate_segments (segs : list (segment str))
  : W (list (segment value)) :=
  emit (progress_update 70 (py "Starting translation..."));;
  let texts := text <$> segs in
  let total_texts := length texts in
  let batch_size := Nat.max 5 (Nat.div total_texts 10) in
  let translated_segments := as_value <$> segs in
  let* r :=
    translate_loop (default [] target_language) texts batch_size
                   (batch_starts total_texts batch_size)
                   translated_segments in
  match r with
  | None => wret []
  | Some translated_segments =>
      emit (progress_update 95 (py "Translation completed."));;
      wret translated_segments
  end.

(** Truth value of [self.translate and self.target_language]. *)
Definition translation_wanted : bool :=
  translate &&
  match target_language with
  | Some (_ :: _) => true
  | _ => false
  end.

(** The part of [run] from the start to its last reading of the flag:
    [Some segs] when every reading found the flag down, [None] when the
    function returned early. *)
Definition run_main : W (option (list (segment value))) :=
  emit (progress_update 5 (py "Initializing transcription model..."));;
  let* model_size := _select_model_size in
  emit (progress_update 10
          (py "Loading " ++ model_size ++ py " model..."));;
  (match load_model model_size with
   | None => wret tt
   | Some message => wraise message
   end);;
  let* c := is_cancelled in
  if c then wret None
  else
    emit (progress_update 30 (py "Model loaded. Starting transcription..."));;
    let* lang :=
      (if negb (bool_decide (source_language = py "auto"))
       then
         emit (progress_update 35
                 (py "Transcribing with language: " ++ source_language));;
         wret (Some source_language)
       else
         emit (progress_update 35
                 (py "Detecting language automatically..."));;
         wret None) in
    let* res :=
      (fun w => (transcribe audio_path lang, w)) in
    let* c := is_cancelled in
    if c then wret None
    else
      emit (progress_update 60
              (py "Transcription complete. Processing results..."));;
      let detected_language := default (py "unknown") (language res) in
      emit (progress_update 65
              (py "Detected language: " ++ detected_language));;
      let* raw :=
        (match segments res with
         | Some raw => wret raw
         | None => wraise (py "'segments'")
         end) in
      let* segs := _process_segments raw in
      let* c := is_cancelled in
      if c then wret None
      else
        if translation_wanted
        then
          let* segs := _translate_segments segs in
          let* c := is_cancelled in
          if c then wret None else wret (Some segs)
        else
          wret (Some (as_value <$> segs)).

(** The end of [run]: the two completion signals. *)
Definition run_final (segs : list (segment value)) : W unit :=
  emit (progress_update 100 (py "Complete!"));;
  emit (transcription_complete segs).

(** [WhisperTranscriptionThread.run] *)
Definition run : W unit :=
  try_except
    (let* r := run_main in
     match r with
     | Some segs => run_final segs
     | None => wret tt
     end)
    (fun message =>
       emit (error_occurred (py "Transcription error: " ++ message))).

End Worker.

(** *** Notions used in the statements about the worker *)

(** The message [cancel] emits. *)
Definition cancel_message : event :=
  progress_update 0 (py "Cancelling operation...").

(** The completion signals: a progress of 100 and [transcription_complete]. *)
Definition is_completion (e : event) : bool :=
  match e with
  | progress_update percent _ => percent =? 100
  | transcription_complete _ => true
  | error_occurred _ => false
  end.

(** A signal that is neither a completion signal nor mistaken for the
    cancellation message: the cancellation message itself, a progress
    between 5 and 95, or an error. *)
Definition benign (e : event) : Prop :=
  match e with
  | progress_update percent message =>
      e = cancel_message \/ 5 <= percent <= 95
  | transcription_complete _ => False
  | error_occurred _ => True
  end.

(** A progress signal. *)
Definition is_progress (e : event) : Prop :=
  match e with
  | progress_update _ _ => True
  | _ => False
  end.

(** The percentage [_process_segments] reports after segment [i] of [n],
    counted from 0, and the signal it emits. *)
Definition segment_percent (n i : nat) : Z :=
  65 + (Z.of_nat (i + 1) * 30) / Z.of_nat n.

Definition segment_progress (n i : nat) : event :=
  progress_update (segment_percent n i)
    (py "Processing segment " ++ str_of_Z (Z.of_nat (i + 1))
     ++ py "/" ++ str_of_Z (Z.of_nat n)).

(** The indices of the batch that starts at [i]:
    [range(i, min(i + batch_size, total_texts))]. *)
Definition batch_indices (total_texts batch_size i : nat) : list nat :=
  seq i (Nat.min (i + batch_size) total_texts - i).

(** The signal [_translate_segments] emits before the batch that starts
    at [i]: the range shown ends at [min(i + batch_size, total_texts)]. *)
Definition batch_progress (total_texts batch_size i : nat) : event :=
  progress_update (70 + (Z.of_nat i * 25) / Z.of_nat total_texts)
    (py "Translating segments " ++ str_of_Z (Z.of_nat (i + 1))
     ++ py "-" ++ str_of_Z (Z.of_nat (Nat.min (i + batch_size) total_texts))
     ++ py "/" ++ str_of_Z (Z.of_nat total_texts)).

(** A progress signal of at most [bound] percent. *)
Definition progress_at_most (bound : Z) (e : event) : Prop :=
  match e with
  | progress_update percent _ => percent <= bound
  | _ => False
  end.

(** Every signal emitted so far is [good]. *)
Definition log_all (good : event -> Prop) (w : world) : Prop :=
  Forall good (log w).

(** What the log of a run keeps true: its signals are benign, and the flag
    is up only after the cancellation message. *)
Definition sound (w : world) : Prop :=
  Forall benign (log w) /\ (cancelled w = true -> cancel_message ∈ log w).

(** From a world where [P] holds, [m] ends in a world where [Q] holds of
    its value, or raises in a world where [E] holds. *)
Definition triple {A} (P : world -> Prop) (m : W A)
    (Q : A -> world -> Prop) (E : world -> Prop) : Prop :=
  forall w, P w ->
    match m w with
    | (Done a, w') => Q a w'
    | (Failed _, w') => E w'
    end.

(** The record [_process_segments] makes of a raw segment, or the
    exception the rendering of its start or of its end raises. *)
Definition normalise (seg : raw_segment) : outcome (segment str) :=
  match time_text (raw_start seg) with
  | Failed message => Failed message
  | Done start_time =>
      match time_text (raw_end seg) with
      | Failed message => Failed message
      | Done end_time =>
          Done {| start := start_time; end_ := end_time;
                  text := strip (raw_text seg) |}
      end
  end.

(** The records of the raw segments, one for one, when every rendering
    goes through. *)
Definition recorded (raw : list raw_segment) (records : list (segment str))
  : Prop :=
  Forall2 (fun seg record => normalise seg = Done record) raw records.

(** A time [timedelta] holds: a finite one, its days in range. *)
Definition held (x : float_time) : bool :=
  match x with
  | Finite us => timedelta_holds us
  | Infinite | NotANumber => false
  end.

(** A segment whose two times [timedelta] holds. *)
Definition timed (seg : raw_segment) : bool :=
  held (raw_start seg) && held (raw_end seg).

(** The flag as the worker's action number [a] finds it, counted from the
    world [w] on ([a] is not before the clock of [w]): up already in [w],
    or raised by a [cancel] before one of the actions from the clock of
    [w] to [a]. *)
Definition flag_at (cancel_before : nat -> bool) (w : world) (a : nat)
  : bool :=
  cancelled w || existsb cancel_before (seq (clock w) (S a - clock w)).

(** The action of [_translate_segments], called in the world [w], that
    reads the flag at the start of batch number [k]: the emission of the
    start and two actions for every earlier batch come before it. *)
Definition batch_reading (w : world) (k : nat) : nat := clock w + 1 + 2 * k.

(** Whether [_translate_segments], called in [w] on [batches] batches,
    finds the flag up at the start of one of them. *)
Definition found_at_batch_start (cancel_before : nat -> bool) (w : world)
    (batches : nat) : bool :=
  existsb (fun k => flag_at cancel_before w (batch_reading w k))
          (seq 0 batches).

(** Two segments with the same timestamps. *)
Definition same_times {T U} (o : segment T) (seg : segment U) : Prop :=
  start o = start seg /\ end_ o = end_ seg.

(** Output segment [i] has the timestamps of input segment [i], for every
    [i], and there are as many. *)
Definition aligned (out : list (segment value)) (segs : list (segment str))
  : Prop :=
  length out = length segs /\
  forall i seg, segs !! i = Some seg ->
    exists o, out !! i = Some o /\ start o = start seg /\ end_ o = end_ seg.

End Transcription.

(** A count of microseconds stands for the finite time it gives. *)
Coercion Transcription.Finite : Z >-> Transcription.float_time.

(** * Facts about the string primitives *)

Section StringFacts.

Lemma starts_with_single (c x : ascii) (s : str) :
  starts_with [c] (x :: s) = Ascii.eqb c x.
Proof. simpl. apply andb_true_r. Qed.

Lemma split_go_single_cons (c x : ascii) (cur s : str) :
  split_go [c] 0 cur (x :: s) =
  if Ascii.eqb c x then rev cur :: split_go [c] 0 [] s
  else split_go [c] 0 (x :: cur) s.
Proof. cbn [split_go]. rewrite starts_with_single. reflexivity. Qed.

(** A piece without the separator is read up to the next separator. *)
Lemma split_go_single_piece (c : ascii) (a cur : str) :
  c ∉ a -> split_go [c] 0 cur a = [rev cur ++ a].
Proof.
  revert cur. induction a as [|x a IH]; intros cur Hc.
  - simpl. by rewrite app_nil_r.
  - rewrite split_go_single_cons.
    apply not_elem_of_cons in Hc as [Hx Ha].
    destruct (Ascii.eqb c x) eqn:E.
    + apply Ascii.eqb_eq in E. congruence.
    + rewrite IH by done. simpl. by rewrite <- app_assoc.
Qed.

Lemma split_go_single_app (c : ascii) (a r cur : str) :
  c ∉ a ->
  split_go [c] 0 cur (a ++ c :: r) = (rev cur ++ a) :: split_go [c] 0 [] r.
Proof.
  revert cur. induction a as [|x a IH]; intros cur Hc.
  - simpl app at 1. rewrite split_go_single_cons, Ascii.eqb_refl.
    by rewrite app_nil_r.
  - simpl app at 1. rewrite split_go_single_cons.
    apply not_elem_of_cons in Hc as [Hx Ha].
    destruct (Ascii.eqb c x) eqn:E.
    + apply Ascii.eqb_eq in E. congruence.
    + rewrite IH by done. simpl. by rewrite <- app_assoc.
Qed.

Lemma split_single_piece (c : ascii) (a : str) :
  c ∉ a -> split [c] a = [a].
Proof. intros. unfold split. by rewrite split_go_single_piece. Qed.

Lemma split_single_app (c : ascii) (a r : str) :
  c ∉ a -> split [c] (a ++ c :: r) = a :: split [c] r.
Proof. intros. unfold split. by rewrite split_go_single_app. Qed.

(** Every string is a first piece without the separator, alone or followed
    by the separator and the rest. *)
Lemma cut_at (c : ascii) (s : str) :
  (c ∉ s) \/ (exists a r, s = a ++ c :: r /\ (c ∉ a)).
Proof.
  induction s as [|x s IH].
  - left. apply not_elem_of_nil.
  - destruct (decide (x = c)) as [->|Hx].
    + right. exists [], s. split; [done|apply not_elem_of_nil].
    + destruct IH as [IH|(a & r & -> & Ha)].
      * left. apply not_elem_of_cons. split; [congruence|done].
      * right. exists (x :: a), r. split; [done|].
        apply not_elem_of_cons. split; [congruence|done].
Qed.

Lemma split_single_length_pos (c : ascii) (s : str) :
  (0 < length (split [c] s))%nat.
Proof.
  destruct (cut_at c s) as [H|(a & r & -> & Ha)].
  - rewrite split_single_piece by done. simpl. lia.
  - rewrite split_single_app by done. simpl. lia.
Qed.

(** The pieces carry no separator and only characters of the string. *)
Lemma split_single_pieces (c : ascii) (s : str) :
  Forall (fun p => (c ∉ p) /\ (forall x, x ∈ p -> x ∈ s)) (split [c] s).
Proof.
  remember (length s) as n eqn:Hn. revert s Hn.
  induction n as [n IH] using lt_wf_ind. intros s ->.
  destruct (cut_at c s) as [H|(a & r & -> & Ha)].
  - rewrite split_single_piece by done. repeat constructor; auto.
  - rewrite split_single_app by done. constructor.
    + split; [done|]. intros x Hx. apply elem_of_app. by left.
    + eapply Forall_impl.
      * apply (IH (length r)); [|done]. rewrite length_app. simpl. lia.
      * intros p [Hp Hsub]. split; [done|]. intros x Hx.
        apply elem_of_app. right. apply elem_of_cons. right. by apply Hsub.
Qed.

Lemma join_split_single (c : ascii) (s : str) :
  join [c] (split [c] s) = s.
Proof.
  remember (length s) as n eqn:Hn. revert s Hn.
  induction n as [n IH] using lt_wf_ind. intros s ->.
  destruct (cut_at c s) as [H|(a & r & -> & Ha)].
  - by rewrite split_single_piece.
  - rewrite split_single_app by done.
    assert (Hr : join [c] (split [c] r) = r).
    { apply (IH (length r)); [|done]. rewrite length_app. simpl. lia. }
    pose proof (split_single_length_pos c r) as Hpos.
    destruct (split [c] r) as [|p ps] eqn:E; [simpl in Hpos; lia|].
    change (join [c] (a :: p :: ps)) with (a ++ [c] ++ join [c] (p :: ps)).
    by rewrite Hr.
Qed.

(** A string that splits in three. *)
Lemma split_single_three (c : ascii) (s p0 p1 p2 : str) :
  split [c] s = [p0; p1; p2] ->
  s = p0 ++ c :: p1 ++ c :: p2 /\ (c ∉ p0) /\ (c ∉ p1) /\ (c ∉ p2).
Proof.
  intros E. pose proof (join_split_single c s) as J.
  pose proof (split_single_pieces c s) as F. rewrite E in J, F.
  apply Forall_cons in F as [[H0 _] F].
  apply Forall_cons in F as [[H1 _] F].
  apply Forall_cons in F as [[H2 _] _].
  split; [|done]. rewrite <- J. simpl. done.
Qed.

Lemma split_single_three_of (c : ascii) (p0 p1 p2 : str) :
  c ∉ p0 -> c ∉ p1 -> c ∉ p2 ->
  split [c] (p0 ++ c :: p1 ++ c :: p2) = [p0; p1; p2].
Proof.
  intros H0 H1 H2.
  rewrite split_single_app by done. rewrite split_single_app by done.
  by rewrite split_single_piece.
Qed.

Lemma contains_single (c : ascii) (s : str) :
  contains [c] s = true <-> c ∈ s.
Proof.
  induction s as [|x s IH].
  - simpl. split; [discriminate|]. intros H. by apply not_elem_of_nil in H.
  - cbn [contains]. rewrite starts_with_single, orb_true_iff, IH.
    rewrite Ascii.eqb_eq, elem_of_cons. tauto.
Qed.

Lemma contains_single_false (c : ascii) (s : str) :
  contains [c] s = false <-> c ∉ s.
Proof.
  rewrite <- contains_single. destruct (contains [c] s); split; congruence.
Qed.

Lemma replace_single (a b : ascii) (s : str) :
  replace [a] [b] s = map (subst_char a b) s.
Proof.
  unfold replace. induction s as [|x s IH]; [done|].
  cbn [replace_go map]. rewrite starts_with_single. unfold subst_char at 1.
  destruct (Ascii.eqb a x); simpl; by rewrite IH.
Qed.

End StringFacts.

Section DigitFacts.

Lemma digit_val_char (d : N) : (d < 10)%N -> digit_val (digit_char d) = Some d.
Proof.
  intros H. unfold digit_val, digit_char.
  rewrite N_ascii_embedding by lia.
  replace ((48 <=? 48 + d)%N && (48 + d <=? 57)%N) with true.
  - f_equal. lia.
  - symmetry. apply andb_true_iff. split; apply N.leb_le; lia.
Qed.

Lemma digit_char_is_digit (d : N) : (d < 10)%N -> is_digit (digit_char d).
Proof. intros H. exists d. by apply digit_val_char. Qed.

Lemma digit_not_space (c : ascii) : is_digit c -> is_space c = false.
Proof.
  intros [d H]. revert H.
  destruct c as [[] [] [] [] [] [] [] []]; vm_compute; congruence.
Qed.

Lemma digit_not_punct (c : ascii) :
  is_digit c ->
  c <> ":"%char /\ c <> ","%char /\ c <> "."%char /\ c <> "-"%char
  /\ c <> "+"%char /\ c <> "_"%char.
Proof.
  intros [d H]. repeat split; intros ->; vm_compute in H; congruence.
Qed.

Lemma int_digits_value (ds : str) (a : N) :
  Forall is_digit ds ->
  int_digits a ds = Some (a * 10 ^ N.of_nat (length ds) + dec_value ds)%N.
Proof.
  intros F. revert a. induction F as [|c r [d Hd] F IH]; intros a.
  - simpl. f_equal. lia.
  - cbn [int_digits]. rewrite Hd, IH. f_equal.
    cbn [dec_value length]. unfold dval. rewrite Hd. simpl default.
    rewrite Nat2N.inj_succ, N.pow_succ_r'. lia.
Qed.

Lemma int_unsigned_value (ds : str) :
  Forall is_digit ds -> ds <> [] -> int_unsigned ds = Some (dec_value ds).
Proof.
  intros F Hne. destruct F as [|c r [d Hd] F]; [done|].
  cbn [int_unsigned]. rewrite Hd, int_digits_value by done.
  f_equal. cbn [dec_value]. unfold dval. rewrite Hd. done.
Qed.

Lemma digits_go_step (fuel : nat) (n : N) (acc : str) :
  digits_go (S fuel) n acc =
  if (n / 10 =? 0)%N then digit_char (n mod 10) :: acc
  else digits_go fuel (n / 10)%N (digit_char (n mod 10) :: acc).
Proof. reflexivity. Qed.

Lemma digits_go_value (fuel : nat) (n : N) (acc : str) :
  (n < 2 ^ N.of_nat fuel)%N -> Forall is_digit acc ->
  Forall is_digit (digits_go (S fuel) n acc) /\
  dec_value (digits_go (S fuel) n acc)
  = (n * 10 ^ N.of_nat (length acc) + dec_value acc)%N.
Proof.
  revert n acc. induction fuel as [|fuel IH]; intros n acc Hn Hacc;
    rewrite digits_go_step;
    assert (Hd : (n mod 10 < 10)%N) by (apply N.mod_lt; lia);
    assert (Hacc' : Forall is_digit (digit_char (n mod 10) :: acc))
      by (constructor; [by apply digit_char_is_digit|done]);
    assert (Hv : dec_value (digit_char (n mod 10) :: acc)
                 = (n mod 10 * 10 ^ N.of_nat (length acc) + dec_value acc)%N)
      by (cbn [dec_value]; unfold dval; by rewrite digit_val_char);
    destruct (N.eqb_spec (n / 10) 0) as [E|E].
  - split; [done|]. rewrite Hv.
    rewrite (N.div_mod n 10) at 2 by lia. rewrite E. lia.
  - exfalso. apply E. apply N.div_small. simpl in Hn. lia.
  - split; [done|]. rewrite Hv.
    rewrite (N.div_mod n 10) at 2 by lia. rewrite E. lia.
  - assert (Hlt : (n / 10 < 2 ^ N.of_nat fuel)%N).
    { rewrite Nat2N.inj_succ, N.pow_succ_r' in Hn.
      apply N.Div0.div_lt_upper_bound. lia. }
    destruct (IH (n / 10)%N _ Hlt Hacc') as [F V].
    split; [done|]. rewrite V, Hv. cbn [length].
    rewrite Nat2N.inj_succ, N.pow_succ_r'.
    rewrite (N.div_mod n 10) at 3 by lia. lia.
Qed.

Lemma str_of_N_digits (n : N) :
  Forall is_digit (str_of_N n) /\ dec_value (str_of_N n) = n.
Proof.
  unfold str_of_N.
  destruct (digits_go_value (N.to_nat (N.size n)) n []) as [F V].
  - rewrite N2Nat.id. apply N.size_gt.
  - constructor.
  - split; [done|]. rewrite V. simpl. lia.
Qed.

Lemma digits_go_nonempty (fuel : nat) (n : N) (acc : str) :
  digits_go (S fuel) n acc <> [].
Proof.
  revert n acc. induction fuel as [|fuel IH]; intros n acc;
    rewrite digits_go_step; destruct (n / 10 =? 0)%N;
    try discriminate; apply IH.
Qed.

Lemma str_of_N_nonempty (n : N) : str_of_N n <> [].
Proof. apply digits_go_nonempty. Qed.

Lemma zero_is_digit : is_digit "0"%char.
Proof. by exists 0%N. Qed.

Lemma dec_value_zeros (k : nat) (ds : str) :
  dec_value (repeat "0"%char k ++ ds) = dec_value ds.
Proof. induction k as [|k IH]; [done|]. simpl. rewrite IH. unfold dval. simpl. lia. Qed.

(** The zero-padded rendering of a number that is not negative. *)
Lemma fmt_0d_digits (width : nat) (z : Z) :
  0 <= z ->
  Forall is_digit (fmt_0d width z) /\ fmt_0d width z <> []
  /\ dec_value (fmt_0d width z) = Z.to_N z.
Proof.
  intros Hz. unfold fmt_0d.
  destruct (Z.ltb_spec z 0) as [?|_]; [lia|].
  destruct (str_of_N_digits (Z.abs_N z)) as [F V].
  split; [|split].
  - apply Forall_app. split; [|done].
    apply Forall_forall. intros x Hx. apply list_elem_of_In, repeat_spec in Hx.
    subst. apply zero_is_digit.
  - intros E. apply app_eq_nil in E as [_ E]. by apply str_of_N_nonempty in E.
  - rewrite dec_value_zeros, V. lia.
Qed.

Lemma digit_not_int_space (c : ascii) : is_digit c -> is_int_space c = false.
Proof.
  intros [d H]. revert H.
  destruct c as [[] [] [] [] [] [] [] []]; vm_compute; congruence.
Qed.

Lemma lstrip_nonspace (c : ascii) (s : str) :
  is_space c = false -> lstrip (c :: s) = c :: s.
Proof. intros H. simpl. by rewrite H. Qed.

Lemma strip_digits (ds : str) : Forall is_digit ds -> strip ds = ds.
Proof.
  intros F. unfold strip, rstrip.
  assert (L : forall l, Forall is_digit l -> lstrip l = l).
  { intros l Fl. destruct Fl as [|c r Hc _]; [done|].
    apply lstrip_nonspace. by apply digit_not_space. }
  rewrite (L ds F). rewrite L.
  - apply rev_involutive.
  - apply Forall_forall. intros x Hx.
    rewrite Forall_forall in F. apply F.
    apply list_elem_of_In. apply in_rev. by apply list_elem_of_In.
Qed.

Lemma strip_int_digits (ds : str) : Forall is_digit ds -> strip_int ds = ds.
Proof.
  intros F. unfold strip_int.
  assert (L : forall l, Forall is_digit l -> lstrip_int l = l).
  { intros l Fl. destruct Fl as [|c r Hc _]; [done|].
    cbn [lstrip_int]. by rewrite digit_not_int_space. }
  rewrite (L ds F). rewrite L.
  - apply rev_involutive.
  - apply Forall_forall. intros x Hx.
    rewrite Forall_forall in F. apply F.
    apply list_elem_of_In. apply in_rev. by apply list_elem_of_In.
Qed.

Lemma int_digits_string (ds : str) :
  Forall is_digit ds -> ds <> [] -> int ds = Ok (Z.of_N (dec_value ds)).
Proof.
  intros F Hne. unfold int. rewrite strip_int_digits by done.
  unfold int_signed. destruct ds as [|c r]; [done|].
  apply Forall_cons in F as HF. destruct HF as [Hc Hr].
  destruct (digit_not_punct c Hc) as (_ & _ & _ & Hm & Hp & _).
  destruct (Ascii.eqb_spec c "-") as [?|_]; [done|].
  destruct (Ascii.eqb_spec c "+") as [?|_]; [done|].
  rewrite int_unsigned_value by done. done.
Qed.

Lemma int_fmt_0d (width : nat) (z : Z) : 0 <= z -> int (fmt_0d width z) = Ok z.
Proof.
  intros Hz. destruct (fmt_0d_digits width z Hz) as (F & Hne & V).
  rewrite int_digits_string by done. rewrite V. f_equal. lia.
Qed.

Lemma digits_notin (c : ascii) (ds : str) :
  ~ is_digit c -> Forall is_digit ds -> c ∉ ds.
Proof.
  intros Hc F Hin. rewrite Forall_forall in F. apply Hc. by apply F.
Qed.

End DigitFacts.

(** * Timestamp validation *)

Section ValidateTimestamp.

Lemma split_go_first (c : ascii) (s cur : str) :
  split_go [c] 0 cur s =
  (rev cur ++ before_first c s)
  :: (if contains [c] s then split [c] (after_first c s) else []).
Proof.
  revert cur. induction s as [|x s IH]; intros cur.
  - simpl. by rewrite app_nil_r.
  - rewrite split_go_single_cons. cbn [contains before_first after_first].
    rewrite starts_with_single. destruct (Ascii.eqb c x).
    + simpl. by rewrite app_nil_r.
    + rewrite IH. simpl. by rewrite <- app_assoc.
Qed.

Lemma lookup_split_0 (c : ascii) (s : str) :
  split [c] s !! 0%nat = Some (before_first c s).
Proof. unfold split. by rewrite split_go_first. Qed.

Lemma index_split_0 (c : ascii) (s : str) :
  index (split [c] s) 0 = Ok (before_first c s).
Proof. unfold index. by rewrite lookup_split_0. Qed.

Lemma index_split_1 (c : ascii) (s : str) :
  contains [c] s = true ->
  index (split [c] s) 1 = Ok (Utils.second_piece c s).
Proof.
  intros H. unfold index, split at 1. rewrite split_go_first, H.
  change ((?x :: ?l) !! 1%nat) with (l !! 0%nat).
  by rewrite lookup_split_0.
Qed.

Lemma before_first_seconds (p2 : str) :
  before_first "." (map (subst_char "," ".") p2) = Utils.seconds_field p2.
Proof.
  induction p2 as [|x r IH]; [reflexivity|].
  destruct (Ascii.eqb_spec "," x) as [<-|E1]; [reflexivity|].
  destruct (Ascii.eqb_spec "." x) as [<-|E2]; [reflexivity|].
  apply Ascii.eqb_neq in E1, E2.
  cbn [map]. replace (subst_char "," "." x) with x
    by (unfold subst_char; by rewrite E1).
  cbn [before_first Utils.seconds_field].
  rewrite (Ascii.eqb_sym x ","), (Ascii.eqb_sym x "."), E1, E2.
  cbn [orb]. by rewrite IH.
Qed.

Lemma int_raise (s : str) (e : exn) : int s = Raise e -> e = ValueError.
Proof. unfold int. destruct (int_signed (strip_int s)); congruence. Qed.

Lemma split_three_fields (s p0 p1 p2 : str) :
  split (py ":") s = [p0; p1; p2] -> Utils.fields s = Some (p0, p1, p2).
Proof. unfold Utils.fields. by intros ->. Qed.

(** The function computes its closed form, and never raises. *)
Lemma validate_timestamp_eq (s : str) :
  Utils.validate_timestamp s = Ok (Utils.validate_timestamp_closed s).
Proof.
  unfold Utils.validate_timestamp, Utils.validate_timestamp_try,
    Utils.validate_timestamp_closed, Utils.fields.
  destruct (split (py ":") s) as [|p0 [|p1 [|p2 [|p3 rest]]]]; try reflexivity.
  cbn [length Nat.eqb negb index lookup list_lookup bind].
  destruct (int p0) as [h|e0] eqn:E0;
    [|apply int_raise in E0; subst; reflexivity].
  cbn [bind].
  destruct (int p1) as [m|e1] eqn:E1;
    [|apply int_raise in E1; subst; reflexivity].
  cbn [bind].
  change (py ".") with ["."%char]. change (py ",") with [","%char].
  rewrite replace_single.
  rewrite index_split_0, before_first_seconds. cbn [bind].
  destruct (int (Utils.seconds_field p2)) as [sec|e2] eqn:E2;
    [|apply int_raise in E2; subst; reflexivity].
  cbn [bind].
  destruct ((0 <=? h) && ((0 <=? m) && (m <? 60))
            && ((0 <=? sec) && (sec <? 60))); [|reflexivity].
  cbn [negb]. unfold Utils.normal, Utils.millis_field.
  change (py ".") with ["."%char]. change (py ",") with [","%char].
  destruct (contains [","%char] p2) eqn:Ec.
  - rewrite index_split_1 by done. cbn [bind].
    by rewrite <- !app_assoc.
  - destruct (contains ["."%char] p2) eqn:Ed.
    + rewrite index_split_1 by done. cbn [bind].
      by rewrite <- !app_assoc.
    + cbn [bind]. by rewrite <- !app_assoc.
Qed.


Lemma before_first_notin (c : ascii) (s : str) :
  c ∉ s -> before_first c s = s.
Proof.
  induction s as [|x s IH]; [done|]. intros H.
  apply not_elem_of_cons in H as [Hx Hs]. cbn [before_first].
  destruct (Ascii.eqb_spec c x) as [?|_]; [done|]. by rewrite IH.
Qed.

Lemma before_first_app (c : ascii) (a r : str) :
  c ∉ a -> before_first c (a ++ c :: r) = a.
Proof.
  induction a as [|x a IH]; intros H.
  - simpl. by rewrite Ascii.eqb_refl.
  - apply not_elem_of_cons in H as [Hx Ha]. cbn [app before_first].
    destruct (Ascii.eqb_spec c x) as [?|_]; [done|]. by rewrite IH.
Qed.

Lemma after_first_app (c : ascii) (a r : str) :
  c ∉ a -> after_first c (a ++ c :: r) = r.
Proof.
  induction a as [|x a IH]; intros H.
  - simpl. by rewrite Ascii.eqb_refl.
  - apply not_elem_of_cons in H as [Hx Ha]. cbn [app after_first].
    destruct (Ascii.eqb_spec c x) as [?|_]; [done|]. by rewrite IH.
Qed.

Lemma before_first_sub (c : ascii) (s : str) (x : ascii) :
  x ∈ before_first c s -> x ∈ s /\ x <> c.
Proof.
  induction s as [|y s IH]; cbn [before_first].
  - intros H. by apply not_elem_of_nil in H.
  - destruct (Ascii.eqb_spec c y) as [->|Hy].
    + intros H. by apply not_elem_of_nil in H.
    + intros [->|H]%elem_of_cons.
      * split; [apply elem_of_cons; by left|congruence].
      * destruct (IH H). split; [apply elem_of_cons; by right|done].
Qed.

Lemma after_first_sub (c : ascii) (s : str) (x : ascii) :
  x ∈ after_first c s -> x ∈ s.
Proof.
  induction s as [|y s IH]; cbn [after_first]; [done|].
  destruct (Ascii.eqb c y); intros H; apply elem_of_cons; right; auto.
Qed.

Lemma second_piece_sub (c : ascii) (s : str) (x : ascii) :
  x ∈ Utils.second_piece c s -> x ∈ s /\ x <> c.
Proof.
  unfold Utils.second_piece. intros [H1 H2]%before_first_sub.
  split; [by eapply after_first_sub|done].
Qed.

Lemma seconds_field_app (a r : str) (sep : ascii) :
  ","%char ∉ a -> "."%char ∉ a -> sep = ","%char \/ sep = "."%char ->
  Utils.seconds_field (a ++ sep :: r) = a.
Proof.
  intros Hc Hd Hsep. induction a as [|x a IH].
  - cbn [app Utils.seconds_field]. by destruct Hsep as [-> | ->].
  - apply not_elem_of_cons in Hc as [Hc1 Hc2].
    apply not_elem_of_cons in Hd as [Hd1 Hd2].
    cbn [app Utils.seconds_field].
    destruct (Ascii.eqb_spec x ",") as [?|_]; [congruence|].
    destruct (Ascii.eqb_spec x ".") as [?|_]; [congruence|].
    cbn [orb]. by rewrite IH.
Qed.

(** Three characters, whatever follows the separator. *)
Lemma pad3_length (frac : str) : length (take 3 (ljust 3 "0" frac)) = 3%nat.
Proof.
  unfold ljust. rewrite length_take, length_app, repeat_length. lia.
Qed.

Lemma pad3_sub (frac : str) (x : ascii) :
  x ∈ take 3 (ljust 3 "0" frac) -> x ∈ frac \/ x = "0"%char.
Proof.
  intros H. apply (subseteq_take 3) in H. unfold ljust in H.
  apply elem_of_app in H as [H|H]; [by left|right].
  apply list_elem_of_In, repeat_spec in H. done.
Qed.

Lemma pad3_id (ms : str) : length ms = 3%nat -> take 3 (ljust 3 "0" ms) = ms.
Proof.
  intros H. unfold ljust. rewrite H. simpl repeat. rewrite app_nil_r.
  apply take_ge. lia.
Qed.

Lemma millis_field_length (p2 : str) : length (Utils.millis_field p2) = 3%nat.
Proof.
  unfold Utils.millis_field.
  destruct (contains (py ",") p2); [|destruct (contains (py ".") p2)];
    try apply pad3_length. reflexivity.
Qed.

Lemma millis_field_sub (p2 : str) (x : ascii) :
  x ∈ Utils.millis_field p2 -> x ∈ p2 \/ x = "0"%char.
Proof.
  unfold Utils.millis_field.
  destruct (contains (py ",") p2); [|destruct (contains (py ".") p2)].
  - intros [Hx| ->]%pad3_sub; [left|by right].
    by apply second_piece_sub in Hx as [Hx _].
  - intros [Hx| ->]%pad3_sub; [left|by right].
    by apply second_piece_sub in Hx as [Hx _].
  - intros Hx. right. apply list_elem_of_In in Hx. simpl in Hx. intuition.
Qed.

Lemma millis_field_no_comma (p2 : str) : ","%char ∉ Utils.millis_field p2.
Proof.
  unfold Utils.millis_field. change (py ",") with [","%char].
  destruct (contains [","%char] p2) eqn:Ec.
  - intros [H|H]%pad3_sub; [|done].
    apply second_piece_sub in H as [_ H]. done.
  - apply contains_single_false in Ec. destruct (contains (py ".") p2).
    + intros [H|H]%pad3_sub; [|done].
      apply second_piece_sub in H as [H _]. done.
    + intros H. apply list_elem_of_In in H. simpl in H.
      intuition discriminate.
Qed.

Lemma colon_not_digit : ~ is_digit ":"%char.
Proof. intros [d H]. vm_compute in H. discriminate. Qed.

Lemma comma_not_digit : ~ is_digit ","%char.
Proof. intros [d H]. vm_compute in H. discriminate. Qed.

Lemma dot_not_digit : ~ is_digit "."%char.
Proof. intros [d H]. vm_compute in H. discriminate. Qed.

(** A timestamp in normal form is validated to itself. *)
Lemma validate_normal (h m sec : Z) (ms : str) :
  0 <= h -> 0 <= m < 60 -> 0 <= sec < 60 ->
  length ms = 3%nat -> ":"%char ∉ ms -> ","%char ∉ ms ->
  Utils.validate_timestamp (Utils.normal h m sec ms)
  = Ok (Some (Utils.normal h m sec ms)).
Proof.
  intros Hh Hm Hs Hlen Hcolon Hcomma.
  destruct (fmt_0d_digits 2 h Hh) as (Fh & _ & _).
  destruct (fmt_0d_digits 2 m (proj1 Hm)) as (Fm & _ & _).
  destruct (fmt_0d_digits 2 sec (proj1 Hs)) as (Fs & _ & _).
  rewrite validate_timestamp_eq. f_equal.
  unfold Utils.validate_timestamp_closed.
  assert (Hf : Utils.fields (Utils.normal h m sec ms)
               = Some (fmt_0d 2 h, fmt_0d 2 m, fmt_0d 2 sec ++ ","%char :: ms)).
  { apply split_three_fields. unfold Utils.normal.
    change (py ":") with [":"%char]. change (py ",") with [","%char].
    cbn [app]. apply split_single_three_of.
    - by apply digits_notin; [apply colon_not_digit|].
    - by apply digits_notin; [apply colon_not_digit|].
    - intros [H|H]%elem_of_app.
      + revert H. by apply digits_notin; [apply colon_not_digit|].
      + apply elem_of_cons in H as [H|H]; [discriminate|done]. }
  rewrite Hf, !int_fmt_0d by lia.
  rewrite seconds_field_app; [| | |by left].
  2: by apply digits_notin; [apply comma_not_digit|].
  2: by apply digits_notin; [apply dot_not_digit|].
  rewrite int_fmt_0d by lia.
  replace ((0 <=? h) && ((0 <=? m) && (m <? 60))
           && ((0 <=? sec) && (sec <? 60))) with true.
  2: { symmetry. repeat (apply andb_true_iff; split);
       try apply Z.leb_le; try apply Z.ltb_lt; lia. }
  do 2 f_equal. unfold Utils.millis_field.
  change (py ",") with [","%char].
  replace (contains [","%char] (fmt_0d 2 sec ++ ","%char :: ms)) with true.
  2: { symmetry. apply contains_single, elem_of_app. right.
       apply elem_of_cons. by left. }
  unfold Utils.second_piece. rewrite after_first_app.
  2: by apply digits_notin; [apply comma_not_digit|].
  rewrite before_first_notin by done. by apply pad3_id.
Qed.

(** What an accepted input is validated to. *)
Lemma validate_some (s out : str) :
  Utils.validate_timestamp s = Ok (Some out) ->
  exists p0 p1 p2 h m sec,
    split (py ":") s = [p0; p1; p2] /\
    int p0 = Ok h /\ int p1 = Ok m /\ int (Utils.seconds_field p2) = Ok sec /\
    0 <= h /\ 0 <= m < 60 /\ 0 <= sec < 60 /\
    out = Utils.normal h m sec (Utils.millis_field p2).
Proof.
  rewrite validate_timestamp_eq. intros [= H]. revert H.
  unfold Utils.validate_timestamp_closed, Utils.fields.
  destruct (split (py ":") s) as [|p0 [|p1 [|p2 [|p3 rest]]]]; try discriminate.
  destruct (int p0) as [h|] eqn:E0; [|discriminate].
  destruct (int p1) as [m|] eqn:E1; [|discriminate].
  destruct (int (Utils.seconds_field p2)) as [sec|] eqn:E2; [|discriminate].
  destruct ((0 <=? h) && ((0 <=? m) && (m <? 60))
            && ((0 <=? sec) && (sec <? 60))) eqn:R; [|discriminate].
  intros [= <-]. exists p0, p1, p2, h, m, sec.
  rewrite !andb_true_iff, !Z.leb_le, !Z.ltb_lt in R.
  repeat split; auto; lia.
Qed.

End ValidateTimestamp.

Section ValidateTimestampClaims.

(** With seconds and fraction free of separators, a comma and a dot
    between them are validated alike. *)
Lemma separator_independent (hh mm ss frac : str) :
  ":"%char ∉ hh -> ":"%char ∉ mm -> Utils.plain ss -> Utils.plain frac ->
  Utils.validate_timestamp
    (hh ++ py ":" ++ mm ++ py ":" ++ ss ++ py "," ++ frac)
  = Utils.validate_timestamp
    (hh ++ py ":" ++ mm ++ py ":" ++ ss ++ py "." ++ frac).
Proof.
  intros Hh Hm (Hs1 & Hs2 & Hs3) (Hf1 & Hf2 & Hf3).
  rewrite !validate_timestamp_eq. f_equal.
  unfold Utils.validate_timestamp_closed.
  change (py ":") with [":"%char]. change (py ",") with [","%char].
  change (py ".") with ["."%char]. cbn [app].
  assert (F : forall sep, sep <> ":"%char ->
            Utils.fields (hh ++ ":"%char :: mm ++ ":"%char :: ss ++ sep :: frac)
            = Some (hh, mm, ss ++ sep :: frac)).
  { intros sep Hsep. apply split_three_fields.
    change (py ":") with [":"%char]. apply split_single_three_of; try done.
    intros [H|H]%elem_of_app; [done|].
    apply elem_of_cons in H as [H|H]; [congruence|done]. }
  rewrite !F by discriminate.
  destruct (int hh) as [h|]; [|done]. destruct (int mm) as [m|]; [|done].
  rewrite !seconds_field_app by auto.
  destruct (int ss) as [sec|]; [|done].
  destruct ((0 <=? h) && ((0 <=? m) && (m <? 60))
            && ((0 <=? sec) && (sec <? 60))); [|done].
  do 2 f_equal. unfold Utils.millis_field.
  change (py ",") with [","%char]. change (py ".") with ["."%char].
  replace (contains [","%char] (ss ++ ","%char :: frac)) with true.
  2: { symmetry. apply contains_single, elem_of_app. right.
       apply elem_of_cons. by left. }
  replace (contains [","%char] (ss ++ "."%char :: frac)) with false.
  2: { symmetry. apply contains_single_false.
       intros [H|H]%elem_of_app; [done|].
       apply elem_of_cons in H as [H|H]; [discriminate|done]. }
  replace (contains ["."%char] (ss ++ "."%char :: frac)) with true.
  2: { symmetry. apply contains_single, elem_of_app. right.
       apply elem_of_cons. by left. }
  unfold Utils.second_piece. rewrite !after_first_app by done.
  by rewrite !before_first_notin by done.
Qed.

End ValidateTimestampClaims.

(** C6, on the code. The text after the comma or dot is never parsed:
    ["1:2:3,xyz"] is accepted and comes back as ["01:02:03,xyz"], where a
    part that is no number asks for [None]; ["1:2:3,5.7"], with both
    separators, comes back as ["01:02:03,5.7"]. The two examples of the
    specification hold. *)
Theorem validate_timestamp_unparsed_milliseconds :
  Utils.validate_timestamp (py "1:2:3,xyz") = Ok (Some (py "01:02:03,xyz")) /\
  Utils.validate_timestamp (py "1:2:3,5.7") = Ok (Some (py "01:02:03,5.7")) /\
  Utils.validate_timestamp (py "1:2:3.5") = Ok (Some (py "01:02:03,500")) /\
  Utils.validate_timestamp (py "bad") = Ok None.
Proof. repeat split; reflexivity. Qed.

(** C7. Validation is idempotent: whenever [validate_timestamp] returns a
    timestamp, validating that timestamp returns it again. *)
Theorem validate_timestamp_idempotent (s out : str) :
  Utils.validate_timestamp s = Ok (Some out) ->
  Utils.validate_timestamp out = Ok (Some out).
Proof.
  intros V. apply validate_some in V
    as (p0 & p1 & p2 & h & m & sec & Hs & _ & _ & _ & Hh & Hm & Hsec & ->).
  change (py ":") with [":"%char] in Hs.
  apply split_single_three in Hs as (_ & _ & _ & Hp2).
  apply validate_normal; auto using millis_field_length, millis_field_no_comma.
  intros [H|H]%millis_field_sub; [done|discriminate].
Qed.

Lemma validate_timestamp_idempotent_witness :
  Utils.validate_timestamp (py "00:00:01,000")
  = Ok (Some (py "00:00:01,000")) /\
  Utils.validate_timestamp (py "1:2:3.5") = Ok (Some (py "01:02:03,500")) /\
  Utils.validate_timestamp (py "01:02:03,500")
  = Ok (Some (py "01:02:03,500")).
Proof.
  split; [|split].
  - apply (validate_timestamp_idempotent (py "00:00:01,000")). reflexivity.
  - reflexivity.
  - apply (validate_timestamp_idempotent (py "1:2:3.5")). reflexivity.
Defined.

(** C8. The segment [00:00:01,000 --> 00:00:03,000] with the text [Hi] is
    serialised to the SRT text of the specification, and that text is
    converted to the VTT text of the specification. *)
Theorem srt_vtt_example :
  let seg := {| start := py "00:00:01,000"; end_ := py "00:00:03,000";
                text := py "Hi" |} in
  let srt := py "1" ++ [nl] ++ py "00:00:01,000 --> 00:00:03,000" ++ [nl]
             ++ py "Hi" ++ [nl; nl] in
  let vtt := py "WEBVTT" ++ [nl; nl] ++ py "00:00:01.000 --> 00:00:03.000"
             ++ [nl] ++ py "Hi" ++ [nl; nl] in
  Components.get_srt_content [seg] = srt /\ Utils.save_srt_to_vtt srt = vtt.
Proof. split; reflexivity. Qed.

(** * SRT to VTT *)

Section SrtToVtt.

Import Components.

Lemma lstrip_nil (s : str) : lstrip s = [] <-> forallb is_space s = true.
Proof.
  induction s as [|c s IH]; [done|]. cbn [lstrip forallb].
  destruct (is_space c); cbn [andb]; [done|]. split; discriminate.
Qed.

Lemma lstrip_head (s : str) (c : ascii) (r : str) :
  lstrip s = c :: r -> is_space c = false.
Proof.
  induction s as [|x s IH]; [discriminate|]. cbn [lstrip].
  destruct (is_space x) eqn:E; [done|]. by intros [= <- _].
Qed.

Lemma forallb_rev {A} (f : A -> bool) (l : list A) :
  forallb f (rev l) = forallb f l.
Proof.
  induction l as [|a l IH]; [done|]. simpl.
  rewrite forallb_app, IH. simpl. rewrite andb_true_r. apply andb_comm.
Qed.

(** Only a text of whitespace strips to the empty text. *)
Lemma strip_nil (s : str) : strip s = [] <-> forallb is_space s = true.
Proof.
  unfold strip, rstrip. split.
  - intros H. apply (f_equal (@rev ascii)) in H.
    rewrite rev_involutive in H. simpl in H.
    apply lstrip_nil in H. rewrite forallb_rev in H.
    destruct (lstrip s) as [|c r] eqn:E; [by apply lstrip_nil|].
    apply lstrip_head in E. simpl in H. by rewrite E in H.
  - intros H. apply lstrip_nil in H. by rewrite H.
Qed.

Lemma strip_cons_nonspace (c : ascii) (s : str) :
  is_space c = false -> strip (c :: s) <> [].
Proof. intros H E. apply strip_nil in E. simpl in E. by rewrite H in E. Qed.

(** The blocks of a text: a tight block is read up to the blank line that
    follows it. *)
Lemma split_blank_app (b rest cur : str) :
  Utils.tight b = true ->
  split_go [nl; nl] 0 cur (b ++ nl :: nl :: rest)
  = (rev cur ++ b) :: split_go [nl; nl] 0 [] rest.
Proof.
  revert cur. induction b as [|c b IH]; intros cur T.
  - cbn. by rewrite app_nil_r.
  - cbn [Utils.tight] in T. apply andb_true_iff in T as [T1 T2].
    cbn [app split_go].
    replace (starts_with [nl; nl] (c :: b ++ nl :: nl :: rest)) with false.
    + rewrite IH by done. simpl. by rewrite <- app_assoc.
    + symmetry. cbn [starts_with].
      destruct (Ascii.eqb_spec nl c) as [<-|Hc]; [|done].
      rewrite Ascii.eqb_refl in T1. cbn [negb orb] in T1.
      destruct b as [|d b]; [discriminate|]. cbn [app].
      rewrite (Ascii.eqb_sym nl d).
      destruct (Ascii.eqb d nl); [discriminate|done].
Qed.

Lemma tight_app (a b : str) :
  nl ∉ a -> Utils.starts_line b = true -> Utils.tight b = true ->
  Utils.tight (a ++ nl :: b) = true.
Proof.
  intros Ha Hb Tb. induction a as [|c a IH].
  - cbn [app Utils.tight]. rewrite Ascii.eqb_refl. cbn [negb orb].
    destruct b as [|d b]; [discriminate|].
    cbn [Utils.starts_line] in Hb. by rewrite Hb, Tb.
  - apply not_elem_of_cons in Ha as [Hc Ha]. cbn [app Utils.tight].
    rewrite IH by done.
    destruct (Ascii.eqb_spec c nl) as [?|_]; [congruence|done].
Qed.

Lemma starts_line_app (a b : str) :
  Utils.starts_line a = true -> Utils.starts_line (a ++ b) = true.
Proof. by destruct a. Qed.

Lemma nl_not_digit : ~ is_digit nl.
Proof. intros [d H]. vm_compute in H. discriminate. Qed.

Lemma str_of_nat_digits (k : nat) : Forall is_digit (str_of_Z (Z.of_nat k)).
Proof.
  unfold str_of_Z. destruct (Z.ltb_spec (Z.of_nat k) 0) as [?|_]; [lia|].
  apply str_of_N_digits.
Qed.

Lemma str_of_nat_nonempty (k : nat) : str_of_Z (Z.of_nat k) <> [].
Proof.
  unfold str_of_Z. destruct (Z.ltb_spec (Z.of_nat k) 0) as [?|_]; [lia|].
  apply str_of_N_nonempty.
Qed.

Lemma srt_entry_body (idx : nat) (seg : segment str) :
  Components.srt_entry idx seg = entry_body idx seg ++ [nl; nl].
Proof.
  unfold Components.srt_entry, entry_body, timing.
  cbn [app]. repeat (rewrite <- app_assoc; cbn [app]). reflexivity.
Qed.

Lemma well_formed_parts (seg : segment str) :
  Utils.well_formed seg = true ->
  (nl ∉ timing seg) /\ Utils.starts_line (timing seg) = true /\
  Utils.starts_line (text seg) = true /\ Utils.tight (text seg) = true.
Proof.
  unfold Utils.well_formed, Utils.no_empty_line.
  rewrite !andb_true_iff, !negb_true_iff, !contains_single_false.
  intros [[Hs He] [Hl Ht]]. repeat split; try done.
  - unfold timing. intros [H|H]%elem_of_app; [done|].
    apply elem_of_app in H as [H|H]; [|done].
    apply list_elem_of_In in H. simpl in H. intuition discriminate.
  - unfold timing. destruct (start seg) as [|c r]; [done|].
    apply not_elem_of_cons in Hs as [Hc _]. cbn.
    destruct (Ascii.eqb_spec c nl) as [?|_]; [congruence|done].
Qed.

Lemma entry_body_tight (idx : nat) (seg : segment str) :
  Utils.well_formed seg = true -> Utils.tight (entry_body idx seg) = true.
Proof.
  intros (Hn & Hl & Htl & Ht)%well_formed_parts. unfold entry_body.
  apply tight_app.
  - apply digits_notin; [apply nl_not_digit|apply str_of_nat_digits].
  - by apply starts_line_app.
  - by apply tight_app.
Qed.

(** One well-formed block gives one cue. *)
Lemma vtt_step_entry (vtt : str) (idx : nat) (seg : segment str) :
  Utils.well_formed seg = true ->
  Utils.vtt_step vtt (entry_body idx seg) = vtt ++ Utils.vtt_cue seg.
Proof.
  intros (Hn & _ & _ & _)%well_formed_parts.
  unfold Utils.vtt_step.
  pose proof (str_of_nat_digits idx) as Fd.
  pose proof (str_of_nat_nonempty idx) as Hne.
  destruct (strip (entry_body idx seg)) as [|c0 r0] eqn:Es.
  { exfalso. revert Es. unfold entry_body.
    destruct (str_of_Z (Z.of_nat idx)) as [|d ds]; [done|].
    apply strip_cons_nonspace, digit_not_space.
    by apply Forall_cons in Fd as [? _]. }
  unfold entry_body.
  rewrite split_single_app
    by (apply digits_notin; [apply nl_not_digit|done]).
  rewrite split_single_app by done.
  pose proof (split_single_length_pos nl (text seg)) as Hpos.
  replace (3 <=? length (str_of_Z (Z.of_nat idx) :: timing seg
                           :: split [nl] (text seg)))%nat with true
    by (symmetry; apply Nat.leb_le; simpl; lia).
  rewrite join_split_single. reflexivity.
Qed.

(** A block of fewer than three lines leaves the output as it is. *)
Lemma vtt_step_short (vtt block : str) :
  (length (split [nl] block) < 3)%nat -> Utils.vtt_step vtt block = vtt.
Proof.
  intros H. unfold Utils.vtt_step. destruct (strip block); [done|].
  replace (3 <=? length (split [nl] block))%nat with false; [done|].
  symmetry. apply Nat.leb_gt. lia.
Qed.

Lemma get_srt_content_fold (segs : list (segment str)) (idx : nat) (acc : str) :
  fold_left (fun srt_content '(idx, seg) =>
               srt_content ++ Components.srt_entry idx seg)
            (enumerate idx segs) acc
  = acc ++ srt_text idx segs.
Proof.
  revert idx acc. induction segs as [|seg rest IH]; intros idx acc.
  - simpl. by rewrite app_nil_r.
  - cbn [enumerate fold_left srt_text]. rewrite IH. by rewrite <- app_assoc.
Qed.

Lemma get_srt_content_text (segs : list (segment str)) :
  Components.get_srt_content segs = srt_text 1 segs.
Proof. unfold Components.get_srt_content. by rewrite get_srt_content_fold. Qed.

Lemma vtt_blocks (segs : list (segment str)) (idx : nat) (vtt : str) :
  Forall (fun seg => Utils.well_formed seg = true) segs ->
  fold_left Utils.vtt_step (split [nl; nl] (srt_text idx segs)) vtt
  = vtt ++ concat (Utils.vtt_cue <$> segs).
Proof.
  intros F. revert idx vtt. induction F as [|seg rest Hseg F IH]; intros idx vtt.
  - simpl. by rewrite app_nil_r.
  - cbn [srt_text]. rewrite srt_entry_body, <- app_assoc. cbn [app].
    unfold split. rewrite split_blank_app by (by apply entry_body_tight).
    cbn [rev app fold_left]. rewrite vtt_step_entry by done.
    fold (split [nl; nl] (srt_text (S idx) rest)). rewrite IH.
    cbn [fmap list_fmap concat]. by rewrite <- app_assoc.
Qed.

End SrtToVtt.

(** C5, as the code has it. For segments whose timestamps hold no newline
    and whose texts have no empty line, the conversion of the SRT
    serialisation is the header followed by one cue per segment, in order:
    the timing line with dots for commas, the text as it was, a blank line;
    the index lines are gone. A block of fewer than three lines adds
    nothing to the output. *)
Theorem srt_to_vtt_well_formed :
  (forall segs : list (segment str),
     Forall (fun seg => Utils.well_formed seg = true) segs ->
     Utils.save_srt_to_vtt (Components.get_srt_content segs)
     = Utils.vtt_of_segments segs) /\
  (forall vtt block : str,
     (length (split [nl] block) < 3)%nat -> Utils.vtt_step vtt block = vtt).
Proof.
  split; [|exact vtt_step_short].
  intros segs F. unfold Utils.save_srt_to_vtt, Utils.vtt_of_segments.
  rewrite get_srt_content_text. by apply vtt_blocks.
Qed.

Lemma srt_to_vtt_well_formed_witness :
  let segs := [ {| start := py "00:00:01,000"; end_ := py "00:00:03,000";
                   text := py "Hi" ++ [nl] ++ py "there" |};
                {| start := py "00:00:03,000"; end_ := py "00:00:04,250";
                   text := py "Bye" |} ] in
  Forall (fun seg => Utils.well_formed seg = true) segs /\
  Utils.save_srt_to_vtt (Components.get_srt_content segs)
  = Utils.vtt_of_segments segs /\
  Utils.vtt_step Utils.header (py "1" ++ [nl] ++ py "x") = Utils.header.
Proof.
  assert (F : Forall (fun seg => Utils.well_formed seg = true)
      [ {| start := py "00:00:01,000"; end_ := py "00:00:03,000";
           text := py "Hi" ++ [nl] ++ py "there" |};
        {| start := py "00:00:03,000"; end_ := py "00:00:04,250";
           text := py "Bye" |} ]).
  { repeat constructor. }
  split; [exact F|]. split.
  - apply (proj1 srt_to_vtt_well_formed _ F).
  - apply (proj2 srt_to_vtt_well_formed). simpl. lia.
Defined.

(** C5, as stated, fails. A segment with an empty text is serialised to a
    block of two lines, which the conversion drops; a text with an empty
    line is cut at that line, and what follows it is dropped. *)
Lemma srt_to_vtt_counterexample :
  let silent := {| start := py "00:00:01,000"; end_ := py "00:00:03,000";
                   text := [] |} in
  let verse := {| start := py "00:00:01,000"; end_ := py "00:00:03,000";
                  text := py "a" ++ [nl; nl] ++ py "b" |} in
  Utils.save_srt_to_vtt (Components.get_srt_content [silent])
  = Utils.header /\
  Utils.save_srt_to_vtt (Components.get_srt_content [silent])
  <> Utils.vtt_of_segments [silent] /\
  Utils.save_srt_to_vtt (Components.get_srt_content [verse])
  = Utils.header ++ py "00:00:01.000 --> 00:00:03.000" ++ [nl] ++ py "a"
    ++ [nl; nl] /\
  Utils.save_srt_to_vtt (Components.get_srt_content [verse])
  <> Utils.vtt_of_segments [verse].
Proof.
  split; [reflexivity|]. split; [vm_compute; discriminate|].
  split; [reflexivity|]. vm_compute. discriminate.
Qed.

(** * The translation service *)

Section Enumerate.

Context {A : Type}.

Lemma elem_of_enumerate (l : list A) (k i : nat) (a : A) :
  (i, a) ∈ enumerate k l <-> (k <= i)%nat /\ l !! (i - k)%nat = Some a.
Proof.
  revert k. induction l as [|x l IH]; intros k; cbn [enumerate].
  - split; [by intros H%not_elem_of_nil|]. by intros [_ H].
  - rewrite elem_of_cons, IH. split.
    + intros [[= -> ->]|[Hk Hl]].
      * split; [lia|]. by rewrite Nat.sub_diag.
      * split; [lia|]. by replace (i - k)%nat with (S (i - S k)) by lia.
    + intros [Hk Hl]. destruct (decide (i = k)) as [->|Hne].
      * left. rewrite Nat.sub_diag in Hl. simpl in Hl. congruence.
      * right. split; [lia|].
        by replace (i - k)%nat with (S (i - S k)) in Hl by lia.
Qed.

Lemma enumerate_fst (l : list A) (k : nat) :
  (enumerate k l).*1 = seq k (length l).
Proof.
  revert k. induction l as [|x l IH]; intros k; [done|].
  cbn. by rewrite IH.
Qed.

Lemma filter_fst_NoDup {B} (f : B * A -> bool) (l : list (B * A)) :
  NoDup l.*1 -> NoDup (List.filter f l).*1.
Proof.
  induction l as [|[b a] l IH]; [done|]. cbn.
  intros [Hb Hl]%NoDup_cons. destruct (f (b, a)); [|auto].
  cbn. apply NoDup_cons. split; [|auto].
  intros (x & Hx1 & Hx2)%list_elem_of_fmap. apply Hb.
  apply list_elem_of_fmap. exists x. split; [done|].
  apply list_elem_of_In in Hx2. apply filter_In in Hx2 as [Hx2 _].
  by apply list_elem_of_In.
Qed.

End Enumerate.

Section TranslateBatchFacts.

Import Transcription.

Variable net : nat -> network.
Variable target_language : str.

Local Abbreviation collect := (Transcription.collect net target_language).

Lemma collect_length (ts : list (nat * str)) (rs : list value) :
  length (fold_left collect ts rs) = length rs.
Proof.
  revert rs. induction ts as [|[j u] ts IH]; intros rs; [done|].
  cbn [fold_left]. rewrite IH. unfold Transcription.collect.
  destruct (translate_text (net j) u target_language); [|done].
  apply length_insert.
Qed.

(** An index with no task keeps its entry. *)
Lemma collect_other (ts : list (nat * str)) (rs : list value) (i : nat) :
  i ∉ ts.*1 -> fold_left collect ts rs !! i = rs !! i.
Proof.
  revert rs. induction ts as [|[j u] ts IH]; intros rs Hi; [done|].
  cbn in Hi. apply not_elem_of_cons in Hi as [Hij Hi].
  cbn [fold_left]. rewrite IH by done. unfold Transcription.collect.
  destruct (translate_text (net j) u target_language); [|done].
  by apply list_lookup_insert_ne.
Qed.

(** The index of a task holds the translation, or what it held when the
    translation raises. *)
Lemma collect_task (ts : list (nat * str)) (rs : list value) (i : nat)
    (t : str) :
  NoDup ts.*1 -> (i, t) ∈ ts -> (i < length rs)%nat ->
  fold_left collect ts rs !! i
  = match translate_text (net i) t target_language with
    | Ok x => Some x
    | Raise _ => rs !! i
    end.
Proof.
  revert rs. induction ts as [|[j u] ts IH]; intros rs Hnd Hin Hlt.
  - by apply not_elem_of_nil in Hin.
  - cbn in Hnd. apply NoDup_cons in Hnd as [Hj Hnd].
    cbn [fold_left]. apply elem_of_cons in Hin as [[= <- <-]|Hin].
    + rewrite collect_other by done. unfold Transcription.collect.
      destruct (translate_text (net i) t target_language); [|done].
      by apply list_lookup_insert_eq.
    + assert (Hne : j <> i).
      { intros ->. apply Hj. apply list_elem_of_fmap. by exists (i, t). }
      rewrite IH; try done.
      * destruct (translate_text (net i) t target_language); [done|].
        unfold Transcription.collect.
        destruct (translate_text (net j) u target_language); [|done].
        by apply list_lookup_insert_ne.
      * unfold Transcription.collect.
        destruct (translate_text (net j) u target_language); [|done].
        by rewrite length_insert.
Qed.

End TranslateBatchFacts.

Section TranslateBatchClaim.

Import Transcription.

Variable net : nat -> network.
Variable as_completed : list (nat * str) -> list (nat * str).
Hypothesis as_completed_perm : forall l, Permutation (as_completed l) l.

Lemma translate_batch_lookup (texts : list str) (target_language : str)
    (i : nat) (text : str) :
  texts !! i = Some text ->
  translate_batch net as_completed texts target_language !! i
  = if nonblank text
    then match translate_text (net i) text target_language with
         | Ok x => Some x
         | Raise _ => Some (VStr text)
         end
    else Some (VStr text).
Proof.
  intros Hi. unfold translate_batch.
  set (tasks := List.filter (fun '(i, text) => nonblank text)
                            (enumerate 0 texts)).
  assert (Hmem : forall j t, (j, t) ∈ tasks
                 <-> texts !! j = Some t /\ nonblank t = true).
  { intros j t. unfold tasks. rewrite list_elem_of_In, filter_In.
    rewrite <- list_elem_of_In, elem_of_enumerate, Nat.sub_0_r.
    intuition lia. }
  assert (Hnd : NoDup tasks.*1).
  { apply filter_fst_NoDup. rewrite enumerate_fst. apply NoDup_seq. }
  assert (Hinit : (VStr <$> texts) !! i = Some (VStr text))
    by (by rewrite list_lookup_fmap, Hi).
  assert (Hblank : nonblank text = false ->
            forall ts, Permutation ts tasks ->
            fold_left (collect net target_language) ts (VStr <$> texts) !! i
            = Some (VStr text)).
  { intros Hb ts Hp. rewrite collect_other; [done|].
    intros (x & Hx1 & Hx2)%list_elem_of_fmap. destruct x as [j t].
    cbn in Hx1. subst j. rewrite Hp in Hx2.
    apply Hmem in Hx2 as [Ht Hn]. congruence. }
  destruct (nonblank text) eqn:Hnb.
  - assert (Hin : (i, text) ∈ tasks) by (by apply Hmem).
    destruct tasks as [|task0 rest] eqn:Et.
    { by apply not_elem_of_nil in Hin. }
    rewrite (collect_task net target_language _ _ i text).
    + rewrite Hinit. by destruct (translate_text (net i) text target_language).
    + by rewrite as_completed_perm.
    + by rewrite as_completed_perm.
    + rewrite length_fmap. by eapply lookup_lt_Some.
  - destruct tasks as [|task0 rest] eqn:Et; [done|].
    by apply Hblank.
Qed.

Lemma translate_batch_length (texts : list str) (target_language : str) :
  length (translate_batch net as_completed texts target_language)
  = length texts.
Proof.
  unfold translate_batch.
  destruct (List.filter _ _); [apply length_fmap|].
  by rewrite collect_length, length_fmap.
Qed.

End TranslateBatchClaim.

(** C2. Whatever order the tasks complete in, [translate_batch] returns a
    list as long as its input, and at each index: the input text itself
    when it is blank; the input text itself when its translation raises;
    the translation otherwise. *)
Theorem translate_batch_aligned
    (net : nat -> Transcription.network)
    (as_completed : list (nat * str) -> list (nat * str))
    (texts : list str) (target_language : str) :
  (forall l, Permutation (as_completed l) l) ->
  let results :=
    Transcription.translate_batch net as_completed texts target_language in
  length results = length texts /\
  forall i text,
    texts !! i = Some text ->
    (Transcription.nonblank text = false ->
     results !! i = Some (Transcription.VStr text)) /\
    (forall e,
       Transcription.translate_text (net i) text target_language = Raise e ->
       results !! i = Some (Transcription.VStr text)) /\
    (forall x,
       Transcription.nonblank text = true ->
       Transcription.translate_text (net i) text target_language = Ok x ->
       results !! i = Some x).
Proof.
  intros Hperm results. split.
  - by apply translate_batch_length.
  - intros i text Hi. unfold results.
    rewrite (translate_batch_lookup net as_completed Hperm _ _ i text Hi).
    split; [|split].
    + by intros ->.
    + intros e ->. by destruct (Transcription.nonblank text).
    + by intros x -> ->.
Qed.

(** * The transcription worker *)

Section WorkerFacts.

Import Transcription.
Local Open Scope worker_scope.

Variable cancel_before : nat -> bool.

Local Abbreviation tick := (Transcription.tick cancel_before).
Local Abbreviation emit := (Transcription.emit cancel_before).
Local Abbreviation is_cancelled := (Transcription.is_cancelled cancel_before).

(** ** Rules *)

Lemma triple_ret {A} (a : A) (Q : A -> world -> Prop) (E : world -> Prop) :
  triple (Q a) (wret a) Q E.
Proof. by intros w H. Qed.

Lemma triple_raise {A} (message : str) (Q : A -> world -> Prop)
    (E : world -> Prop) :
  triple E (wraise message) Q E.
Proof. by intros w H. Qed.

Lemma triple_bind {A B} (P : world -> Prop) (m : W A) (R : A -> world -> Prop)
    (f : A -> W B) (Q : B -> world -> Prop) (E : world -> Prop) :
  triple P m R E -> (forall a, triple (R a) (f a) Q E) ->
  triple P (wbind m f) Q E.
Proof.
  intros Hm Hf w HP. unfold wbind. specialize (Hm w HP).
  destruct (m w) as [[a|message] w']; [|done]. by apply Hf.
Qed.

Lemma triple_weaken {A} (P P' : world -> Prop) (m : W A)
    (Q Q' : A -> world -> Prop) (E E' : world -> Prop) :
  triple P' m Q' E' ->
  (forall w, P w -> P' w) -> (forall a w, Q' a w -> Q a w) ->
  (forall w, E' w -> E w) ->
  triple P m Q E.
Proof.
  intros H HP HQ HE w Hw. specialize (H w (HP w Hw)).
  destruct (m w) as [[a|message] w']; auto.
Qed.

(** ** Soundness of the log *)

Lemma cancel_message_benign : benign cancel_message.
Proof. by left. Qed.

Lemma tick_sound (w : world) : sound w -> sound (tick w).
Proof.
  intros [Hl Hc]. unfold Transcription.tick.
  destruct (cancel_before (clock w)); [|done].
  split; cbn.
  - apply Forall_app. split; [done|].
    constructor; [apply cancel_message_benign|done].
  - intros _. apply elem_of_app. right. apply elem_of_cons; by left.
Qed.

Lemma tick_cancelled (w : world) :
  cancelled w = true -> cancelled (tick w) = true.
Proof.
  intros H. unfold Transcription.tick.
  by destruct (cancel_before (clock w)).
Qed.

Lemma emit_sound (e : event) :
  benign e -> triple sound (emit e) (fun _ => sound) sound.
Proof.
  intros He w Hw. cbn. destruct (tick_sound w Hw) as [Hl Hc].
  split; cbn.
  - apply Forall_app. split; [done|]. by constructor.
  - intros H. apply elem_of_app. left. by apply Hc.
Qed.

Lemma is_cancelled_sound :
  triple sound is_cancelled (fun c w => sound w /\ c = cancelled w) sound.
Proof. intros w Hw. cbn. split; [by apply tick_sound|done]. Qed.

(** Sequencing when all that is kept is the soundness of the log. *)
Lemma sound_bind {A B} (m : W A) (R : A -> world -> Prop) (f : A -> W B)
    (Q : B -> world -> Prop) :
  triple sound m R sound -> (forall a, triple (R a) (f a) Q sound) ->
  triple sound (wbind m f) Q sound.
Proof. apply triple_bind. Qed.

Lemma sound_seq {A B} (m : W A) (k : W B) (Q : B -> world -> Prop) :
  triple sound m (fun _ => sound) sound -> triple sound k Q sound ->
  triple sound (wbind m (fun _ => k)) Q sound.
Proof. intros Hm Hk. eapply triple_bind; [exact Hm|]. intros a. exact Hk. Qed.

(** ** The progress of the two loops *)

Lemma process_progress (idx total : nat) :
  (idx < total)%nat ->
  5 <= 65 + (Z.of_nat (idx + 1) * 30) / Z.of_nat total <= 95.
Proof.
  intros H.
  assert (0 <= (Z.of_nat (idx + 1) * 30) / Z.of_nat total)
    by (apply Z.div_pos; lia).
  assert ((Z.of_nat (idx + 1) * 30) / Z.of_nat total <= 30)
    by (apply Z.div_le_upper_bound; lia).
  lia.
Qed.

Lemma translate_progress (i total : nat) :
  (i < total)%nat -> 5 <= 70 + (Z.of_nat i * 25) / Z.of_nat total <= 95.
Proof.
  intros H.
  assert (0 <= (Z.of_nat i * 25) / Z.of_nat total)
    by (apply Z.div_pos; lia).
  assert ((Z.of_nat i * 25) / Z.of_nat total <= 25)
    by (apply Z.div_le_upper_bound; lia).
  lia.
Qed.

Lemma batch_starts_lt (total step : nat) :
  (0 < step)%nat -> Forall (fun i => (i < total)%nat) (batch_starts total step).
Proof.
  intros Hs. unfold batch_starts. apply Forall_fmap, Forall_forall.
  intros k Hk. apply elem_of_seq in Hk as [_ Hk]. cbn in *.
  assert (Hd : (k <= (total + step - 1) / step - 1)%nat) by lia.
  assert (Hm : ((total + step - 1) / step * step <= total + step - 1)%nat).
  { rewrite Nat.mul_comm. apply Nat.Div0.mul_div_le. }
  nia.
Qed.


(** A call that only returns or raises keeps what holds of the world. *)
Lemma triple_raising {A} (o : outcome A) (P : world -> Prop) :
  triple P (raising o) (fun _ => P) P.
Proof. intros w Hw. unfold raising. by destruct o. Qed.

Lemma sound_ret {A} (a : A) : triple sound (wret a) (fun _ => sound) sound.
Proof. by intros w H. Qed.

Lemma sound_raise {A} (message : str) (Q : A -> world -> Prop) :
  triple sound (wraise message) Q sound.
Proof. by intros w H. Qed.

Lemma sound_emit {B} (e : event) (k : W B) (Q : B -> world -> Prop) :
  benign e -> triple sound k Q sound ->
  triple sound (wbind (emit e) (fun _ => k)) Q sound.
Proof. intros He Hk. apply sound_seq; [by apply emit_sound|done]. Qed.

Lemma sound_check {B} (k : bool -> W B) (Q : B -> world -> Prop) :
  (forall c, triple (fun w => sound w /\ c = cancelled w) (k c) Q sound) ->
  triple sound (wbind is_cancelled k) Q sound.
Proof. intros Hk. eapply triple_bind; [apply is_cancelled_sound|done]. Qed.

Lemma triple_pre {A} (P P' : world -> Prop) (m : W A)
    (Q : A -> world -> Prop) (E : world -> Prop) :
  (forall w, P w -> P' w) -> triple P' m Q E -> triple P m Q E.
Proof. intros HP H. eapply triple_weaken; eauto. Qed.

Lemma triple_post {A} (P : world -> Prop) (m : W A)
    (Q Q' : A -> world -> Prop) (E : world -> Prop) :
  (forall a w, Q' a w -> Q a w) -> triple P m Q' E -> triple P m Q E.
Proof. intros HQ H. eapply triple_weaken; eauto. Qed.

Ltac progress_bound :=
  right; first [ lia | by apply process_progress | by apply translate_progress ].

(** ** The log stays sound through every part of the run *)

Section Sound.

Variable audio_path : str.
Variable source_language : str.
Variable translate : bool.
Variable target_language : option str.
Variable gpu_total_memory : option Z.
Variable load_model : str -> option str.
Variable transcribe : str -> option str -> outcome transcription.
Variable net : nat -> nat -> network.
Variable as_completed : nat -> list (nat * str) -> list (nat * str).

Lemma select_model_size_sound :
  triple sound (_select_model_size gpu_total_memory cancel_before)
         (fun _ => sound) sound.
Proof.
  unfold _select_model_size. destruct gpu_total_memory.
  - apply sound_emit; [progress_bound|apply sound_ret].
  - apply sound_emit; [progress_bound|apply sound_ret].
Qed.

Lemma process_loop_sound (total : nat) (raw : list raw_segment) :
  forall idx segs, (idx + length raw <= total)%nat ->
  triple sound (process_loop translate cancel_before total idx raw segs)
         (fun _ => sound) sound.
Proof.
  induction raw as [|seg rest IH]; intros idx segs Hlen; cbn [process_loop].
  - apply sound_ret.
  - cbn [length] in Hlen. apply sound_check. intros c.
    apply (triple_pre _ sound); [by intros w [H _]|].
    destruct c; [apply sound_ret|].
    eapply triple_bind; [apply triple_raising|]. intros start_time.
    eapply triple_bind; [apply triple_raising|]. intros end_time.
    apply sound_seq.
    + destruct translate; cbn [negb]; [apply sound_ret|].
      apply emit_sound. right. apply process_progress. lia.
    + apply IH. lia.
Qed.

Lemma process_segments_sound (raw : list raw_segment) :
  triple sound (_process_segments translate cancel_before raw)
         (fun _ => sound) sound.
Proof. apply process_loop_sound. simpl. lia. Qed.

Lemma translate_loop_sound (target : str) (texts : list str)
    (batch_size : nat) (starts : list nat) :
  Forall (fun i => (i < length texts)%nat) starts ->
  forall segs,
  triple sound
    (translate_loop net as_completed cancel_before target texts batch_size
                    starts segs)
    (fun _ => sound) sound.
Proof.
  induction 1 as [|i rest Hi _ IH]; intros segs; cbn [translate_loop].
  - apply sound_ret.
  - apply sound_check. intros c.
    apply (triple_pre _ sound); [by intros w [H _]|].
    destruct c; [apply sound_ret|].
    apply sound_emit; [right; by apply translate_progress|].
    destruct (assign _ _ _); [apply IH|apply sound_raise].
Qed.

Lemma translate_segments_sound (segs : list (segment str)) :
  triple sound
    (_translate_segments target_language net as_completed cancel_before segs)
    (fun _ => sound) sound.
Proof.
  unfold _translate_segments. apply sound_emit; [progress_bound|].
  eapply triple_bind.
  - apply translate_loop_sound. apply batch_starts_lt. lia.
  - intros [out|]; [|apply sound_ret].
    apply sound_emit; [progress_bound|apply sound_ret].
Qed.

(** [run_main] hands segments on only when its last reading of the flag
    found it down. *)
Lemma run_main_sound :
  triple sound
    (run_main audio_path source_language translate target_language
              gpu_total_memory load_model transcribe net as_completed
              cancel_before)
    (fun r w => sound w /\ (is_Some r -> cancelled w = false))
    sound.
Proof.
  set (Q := fun (r : option (list (segment value))) (w : world) =>
              sound w /\ (is_Some r -> cancelled w = false)).
  assert (Hnone : forall P : world -> Prop,
            (forall w, P w -> sound w) -> triple P (wret None) Q sound).
  { intros P HP w Hw. split; [by apply HP|]. by intros [? [=]]. }
  assert (Hlast : forall segs,
            triple sound
              (wbind is_cancelled
                 (fun c => if c then wret None else wret (Some segs)))
              Q sound).
  { intros segs. apply sound_check. intros [|].
    - apply Hnone. by intros w [H _].
    - intros w [Hs Hc]. by split. }
  unfold run_main.
  apply sound_emit; [progress_bound|].
  eapply triple_bind; [apply select_model_size_sound|]. intros model_size.
  apply sound_emit; [progress_bound|].
  apply sound_seq.
  { destruct (load_model model_size); [apply sound_raise|apply sound_ret]. }
  apply sound_check. intros [|]; [apply Hnone; by intros w [H _]|].
  apply (triple_pre _ sound); [by intros w [H _]|].
  apply sound_emit; [progress_bound|].
  eapply (triple_bind _ _ (fun _ => sound)).
  { destruct (negb _); (apply sound_emit; [progress_bound|apply sound_ret]). }
  intros lang.
  eapply (triple_bind _ _ (fun _ => sound)).
  { intros w Hw. by destruct (transcribe audio_path lang). }
  intros res.
  apply sound_check. intros [|]; [apply Hnone; by intros w [H _]|].
  apply (triple_pre _ sound); [by intros w [H _]|].
  apply sound_emit; [progress_bound|].
  apply sound_emit; [progress_bound|].
  eapply (triple_bind _ _ (fun _ => sound)).
  { destruct (segments res); [apply sound_ret|apply sound_raise]. }
  intros raw.
  eapply triple_bind; [apply process_segments_sound|]. intros segs.
  apply sound_check. intros [|]; [apply Hnone; by intros w [H _]|].
  destruct (translation_wanted translate target_language).
  - apply (triple_pre _ sound); [by intros w [H _]|].
    eapply triple_bind; [apply translate_segments_sound|]. intros out.
    apply Hlast.
  - intros w [Hs Hc]. by split.
Qed.

End Sound.

End WorkerFacts.

Section TranslateSegments.

Import Transcription.
Local Open Scope worker_scope.

Variable target_language : option str.
Variable net : nat -> nat -> network.
Variable as_completed : nat -> list (nat * str) -> list (nat * str).
Variable cancel_before : nat -> bool.

Lemma translate_batch_same_length (i : nat) (batch : list str) (target : str) :
  length (translate_batch (net i) (as_completed i) batch target)
  = length batch.
Proof.
  unfold translate_batch.
  destruct (List.filter _ _); [apply length_fmap|].
  by rewrite collect_length, length_fmap.
Qed.

Lemma insert_same_times (segs : list (segment value))
    (segs0 : list (segment str)) (idx : nat) (seg : segment value)
    (x : value) :
  Forall2 same_times segs segs0 -> segs !! idx = Some seg ->
  Forall2 same_times
    (<[idx := {| start := start seg; end_ := end_ seg; text := x |}]> segs)
    segs0.
Proof.
  intros F Hseg.
  destruct (Forall2_lookup_l _ _ _ _ _ F Hseg) as (s0 & Hs0 & [R1 R2]).
  rewrite <- (list_insert_id segs0 idx s0) by done.
  apply Forall2_insert; [done|]. by split.
Qed.

(** The assignments of one batch go through and leave the timestamps. *)
Lemma assign_same_times (pairs : list (nat * nat))
    (translated_batch : list value) (segs0 : list (segment str)) :
  forall segs,
  Forall2 same_times segs segs0 ->
  Forall (fun '(j, idx) =>
            (idx < length segs0)%nat /\ (j < length translated_batch)%nat)
         pairs ->
  exists segs', assign segs pairs translated_batch = Done segs'
                /\ Forall2 same_times segs' segs0.
Proof.
  induction pairs as [|[j idx] rest IH]; intros segs F Hp.
  - by exists segs.
  - apply Forall_cons in Hp as [[Hidx Hj] Hp]. cbn [assign].
    rewrite <- (Forall2_length _ _ _ F) in Hidx.
    destruct (lookup_lt_is_Some_2 _ _ Hidx) as [seg Hseg].
    destruct (lookup_lt_is_Some_2 _ _ Hj) as [x Hx].
    rewrite Hseg, Hx. apply IH; [|done]. by apply insert_same_times.
Qed.

Lemma batch_pairs_in_range (texts : list str) (i batch_size : nat) :
  Forall (fun '(j, idx) =>
            (idx < length texts)%nat
            /\ (j < length (take batch_size (drop i texts)))%nat)
         (enumerate 0
            (seq i (Nat.min (i + batch_size) (length texts) - i))).
Proof.
  apply Forall_forall. intros [j idx] H.
  apply elem_of_enumerate in H as [_ H]. rewrite Nat.sub_0_r in H.
  apply lookup_seq in H as [-> H].
  rewrite length_take, length_drop. lia.
Qed.

(** The loop returns [None] with the flag up, or segments with the
    timestamps of the input; it does not raise. *)
Lemma translate_loop_aligned (target : str) (segs0 : list (segment str))
    (batch_size : nat) (starts : list nat) :
  forall segs,
  Forall2 same_times segs segs0 ->
  triple (fun _ => True)
    (translate_loop net as_completed cancel_before target (text <$> segs0)
                    batch_size starts segs)
    (fun r w => match r with
                | None => cancelled w = true
                | Some out => Forall2 same_times out segs0
                end)
    (fun _ => False).
Proof.
  induction starts as [|i rest IH]; intros segs F; cbn [translate_loop].
  - by intros w _.
  - eapply (triple_bind _ _ (fun c w => c = cancelled w)).
    { by intros w _. }
    intros [|]; [intros w Hc; cbn; congruence|].
    eapply (triple_bind _ _ (fun _ _ => True)).
    { by intros w _. }
    intros _.
    destruct (assign_same_times
                (enumerate 0
                   (seq i (Nat.min (i + batch_size)
                             (length (text <$> segs0)) - i)))
                (translate_batch (net i) (as_completed i)
                   (take batch_size (drop i (text <$> segs0))) target)
                segs0 segs F) as (segs' & -> & F').
    { rewrite translate_batch_same_length.
      pose proof (batch_pairs_in_range (text <$> segs0) i batch_size) as H.
      by rewrite length_fmap in H |- *. }
    by apply IH.
Qed.

Lemma same_times_aligned (out : list (segment value))
    (segs : list (segment str)) :
  Forall2 same_times out segs -> aligned out segs.
Proof.
  intros F. split; [by eapply Forall2_length|].
  intros i seg Hseg.
  destruct (Forall2_lookup_r _ _ _ _ _ F Hseg) as (o & Ho & [R1 R2]).
  by exists o.
Qed.

Lemma translate_segments_triple (segs : list (segment str)) :
  triple (fun _ => True)
    (_translate_segments target_language net as_completed cancel_before segs)
    (fun out w => (out = [] /\ cancelled w = true) \/ aligned out segs)
    (fun _ => False).
Proof.
  unfold _translate_segments.
  eapply (triple_bind _ _ (fun _ _ => True)); [by intros w _|]. intros _.
  eapply triple_bind.
  - apply translate_loop_aligned.
    apply Forall2_fmap_l, Forall_Forall2_diag, Forall_forall.
    by intros seg _.
  - intros [out|].
    + eapply (triple_bind _ _ (fun _ _ => Forall2 same_times out segs)).
      { by intros w H. }
      intros _ w H. right. by apply same_times_aligned.
    + intros w H. by left.
Qed.

(** ** When the flag is found *)

Lemma tick_flag (w : world) :
  cancelled (tick cancel_before w)
  = cancelled w || cancel_before (clock w).
Proof.
  unfold tick. destruct (cancel_before (clock w)); cbn.
  - by rewrite orb_true_r.
  - by rewrite orb_false_r.
Qed.

Lemma tick_clock (w : world) : clock (tick cancel_before w) = S (clock w).
Proof. unfold tick. by destruct (cancel_before (clock w)). Qed.

Lemma flag_at_now (w : world) :
  flag_at cancel_before w (clock w) = cancelled (tick cancel_before w).
Proof.
  unfold flag_at. rewrite tick_flag.
  replace (S (clock w) - clock w)%nat with 1%nat by lia.
  cbn. by rewrite orb_false_r.
Qed.

(** The flag an action finds is the same counted from a later world. *)
Lemma flag_at_from (w w' : world) (a : nat) :
  (clock w <= clock w')%nat -> (clock w' <= S a)%nat ->
  cancelled w'
  = cancelled w
    || existsb cancel_before (seq (clock w) (clock w' - clock w)) ->
  flag_at cancel_before w' a = flag_at cancel_before w a.
Proof.
  intros H1 H2 Hc. unfold flag_at. rewrite Hc.
  replace (S a - clock w)%nat
    with ((clock w' - clock w) + (S a - clock w'))%nat by lia.
  rewrite seq_app, existsb_app.
  replace (clock w + (clock w' - clock w))%nat with (clock w') by lia.
  by rewrite orb_assoc.
Qed.

Lemma existsb_ext_seq (f g : nat -> bool) (n : nat) :
  (forall k, f k = g (S k)) ->
  existsb f (seq 0 n) = existsb g (seq 1 n).
Proof.
  intros H. rewrite <- fmap_S_seq.
  induction (seq 0 n) as [|k l IH]; [done|].
  cbn. by rewrite H, IH.
Qed.

(** The loop returns from inside exactly when a reading at the start of
    a batch finds the flag up; it does not raise. *)
Lemma translate_loop_found (target : str) (segs0 : list (segment str))
    (batch_size : nat) (starts : list nat) :
  forall segs w,
  Forall2 same_times segs segs0 ->
  let found :=
    existsb (fun k => flag_at cancel_before w (clock w + 2 * k))
            (seq 0 (length starts)) in
  match translate_loop net as_completed cancel_before target
          (text <$> segs0) batch_size starts segs w with
  | (Done None, _) => found = true
  | (Done (Some out), _) => found = false /\ Forall2 same_times out segs0
  | (Failed _, _) => False
  end.
Proof.
  induction starts as [|i rest IH]; intros segs w F found; subst found.
  - cbn. by split.
  - cbn [translate_loop length seq existsb].
    replace (clock w + 2 * 0)%nat with (clock w) by lia.
    rewrite flag_at_now.
    unfold wbind at 1. cbn [is_cancelled].
    destruct (cancelled (tick cancel_before w)) eqn:Hc; [done|].
    cbn [orb]. unfold wbind at 1. cbn [emit].
    destruct (assign_same_times
                (enumerate 0
                   (seq i (Nat.min (i + batch_size)
                             (length (text <$> segs0)) - i)))
                (translate_batch (net i) (as_completed i)
                   (take batch_size (drop i (text <$> segs0))) target)
                segs0 segs F) as (segs' & -> & F').
    { rewrite translate_batch_same_length.
      pose proof (batch_pairs_in_range (text <$> segs0) i batch_size) as H.
      by rewrite length_fmap in H |- *. }
    match goal with
    | |- context [translate_loop _ _ _ _ _ _ _ _ ?w2] =>
        specialize (IH segs' w2 F'); cbv zeta in IH;
        rewrite <- (existsb_ext_seq
                      (fun k => flag_at cancel_before w2 (clock w2 + 2 * k))
                      (fun k => flag_at cancel_before w (clock w + 2 * k)));
        [exact IH|]
    end.
    intros k. cbn [clock]. rewrite !tick_clock.
    replace (clock w + 2 * S k)%nat with (S (S (clock w)) + 2 * k)%nat by lia.
    apply flag_at_from; cbn [clock cancelled]; rewrite ?tick_clock; try lia.
    replace (S (S (clock w)) - clock w)%nat with 2%nat by lia.
    cbn [seq existsb]. rewrite !tick_flag, tick_clock.
    by rewrite orb_false_r, orb_assoc.
Qed.

Lemma translate_segments_found (segs : list (segment str)) (w : world) :
  let r := _translate_segments target_language net as_completed
             cancel_before segs w in
  let total := length segs in
  let batches :=
    length (batch_starts total (Nat.max 5 (total / 10))) in
  match r.1 with
  | Done out =>
      if found_at_batch_start cancel_before w batches
      then out = [] else aligned out segs
  | Failed _ => False
  end.
Proof.
  intros r total batches. subst r.
  unfold _translate_segments. unfold wbind at 1. cbn [emit].
  unfold wbind at 1. rewrite length_fmap. fold total. fold batches.
  set (w1 := {| cancelled := _; clock := _; log := _ |}).
  assert (E : found_at_batch_start cancel_before w batches
              = existsb
                  (fun k => flag_at cancel_before w1 (clock w1 + 2 * k))
                  (seq 0 batches)).
  { unfold found_at_batch_start, batch_reading.
    induction (seq 0 batches) as [|k l IHl]; [done|].
    cbn [existsb]. rewrite IHl. f_equal.
    subst w1. cbn [clock]. rewrite tick_clock.
    replace (clock w + 1 + 2 * k)%nat with (S (clock w) + 2 * k)%nat by lia.
    symmetry. apply flag_at_from; cbn [clock cancelled];
      rewrite ?tick_clock; try lia.
    replace (S (clock w) - clock w)%nat with 1%nat by lia.
    cbn [seq existsb]. by rewrite tick_flag, orb_false_r. }
  rewrite E.
  assert (F : Forall2 same_times (as_value <$> segs) segs).
  { apply Forall2_fmap_l, Forall_Forall2_diag, Forall_forall.
    by intros seg _. }
  match goal with
  | |- context [translate_loop _ _ _ ?t _ _ ?starts ?segs1 w1] =>
      pose proof (translate_loop_found t segs (Nat.max 5 (total / 10))
                    starts segs1 w1 F) as H
  end.
  cbv zeta in H. fold batches in H.
  destruct (translate_loop _ _ _ _ _ _ _ _ _) as [[[out|]|message] w'].
  - destruct H as [-> H].
    unfold wbind. cbn [emit wret fst]. by apply same_times_aligned.
  - by rewrite H.
  - destruct H.
Qed.

End TranslateSegments.

(** C10, as the code has it. [_translate_segments] does not raise. When a
    reading of the flag at the start of a batch finds it up (the main
    thread called [cancel] before that reading), it returns the empty
    list; when none does, it returns as many segments as it was given,
    segment [i] with the start and end of input segment [i], also when the
    flag goes up later. *)
Theorem translate_segments_aligned
    (target_language : option str)
    (net : nat -> nat -> Transcription.network)
    (as_completed : nat -> list (nat * str) -> list (nat * str))
    (cancel_before : nat -> bool)
    (segs : list (segment str)) (w : Transcription.world) :
  let r := Transcription._translate_segments
             target_language net as_completed cancel_before segs w in
  let total := length segs in
  let batches :=
    length (Transcription.batch_starts total (Nat.max 5 (total / 10))) in
  if Transcription.found_at_batch_start cancel_before w batches
  then r.1 = Transcription.Done []
  else exists out, r.1 = Transcription.Done out
                   /\ Transcription.aligned out segs.
Proof.
  intros r total batches. subst r.
  pose proof (translate_segments_found target_language net as_completed
                cancel_before segs w) as H.
  cbv zeta in H. fold total in H. fold batches in H.
  destruct (Transcription._translate_segments _ _ _ _ _ _).1
    as [out|message]; [|done].
  destruct (Transcription.found_at_batch_start _ _ _); [by subst|].
  by exists out.
Qed.

Lemma translate_segments_aligned_witness :
  let segs := [ {| start := py "0:00:01,500"; end_ := py "0:00:03,250";
                   text := py "Hi" |};
                {| start := py "0:00:03,250"; end_ := py "0:00:04,000";
                   text := py " " |} ] in
  let net := fun (_ _ : nat) (_ : str) (_ : Transcription.payload) =>
    Transcription.Response 200
      (Transcription.Json
         (Transcription.VDict
            [(py "translatedText", Transcription.VStr (py "Salut"))])) in
  let run := fun cancel_before =>
    Transcription._translate_segments (Some (py "fr")) net
      (fun _ l => l) cancel_before segs Transcription.initial in
  (exists out, (run (fun _ => false)).1 = Transcription.Done out
               /\ Transcription.aligned out segs) /\
  (run (fun k => Nat.eqb k 1)).1 = Transcription.Done [] /\
  (Transcription.cancelled (run (fun k => Nat.eqb k 3)).2 = true /\
   exists out, (run (fun k => Nat.eqb k 3)).1 = Transcription.Done out
               /\ Transcription.aligned out segs).
Proof.
  intros segs net run. split; [|split; [|split; [reflexivity|]]].
  - exact (translate_segments_aligned (Some (py "fr")) net (fun _ l => l)
             (fun _ => false) segs Transcription.initial).
  - exact (translate_segments_aligned (Some (py "fr")) net (fun _ l => l)
             (fun k => Nat.eqb k 1) segs Transcription.initial).
  - exact (translate_segments_aligned (Some (py "fr")) net (fun _ l => l)
             (fun k => Nat.eqb k 3) segs Transcription.initial).
Defined.

(** * The claims about the worker and the services *)

(** C3. Take a run of the worker from its initial state, with the main
    thread calling [cancel] whenever it likes. If the flag is up when the
    part of [run] before its final phase ends (the final phase is what
    follows the last reading of the flag: the emission of the progress of
    100 and of [transcription_complete]), then the log of the whole run
    holds no completion signal, holds the cancellation message, and every
    other progress in it is between 5 and 95, so that the cancellation
    message, of progress 0, is told apart from them. *)
Theorem run_cancelled_no_completion
    (audio_path source_language : str) (translate : bool)
    (target_language : option str) (gpu_total_memory : option Z)
    (load_model : str -> option str)
    (transcribe : str -> option str
                  -> Transcription.outcome Transcription.transcription)
    (net : nat -> nat -> Transcription.network)
    (as_completed : nat -> list (nat * str) -> list (nat * str))
    (cancel_before : nat -> bool) :
  let before_final :=
    Transcription.run_main audio_path source_language translate
      target_language gpu_total_memory load_model transcribe net
      as_completed cancel_before Transcription.initial in
  let whole :=
    Transcription.run audio_path source_language translate
      target_language gpu_total_memory load_model transcribe net
      as_completed cancel_before Transcription.initial in
  Transcription.cancelled before_final.2 = true ->
  (forall e, e ∈ Transcription.log whole.2 ->
             Transcription.is_completion e = false) /\
  Transcription.cancel_message ∈ Transcription.log whole.2 /\
  (forall percent message,
     Transcription.progress_update percent message
       ∈ Transcription.log whole.2 ->
     Transcription.progress_update percent message
       = Transcription.cancel_message
     \/ 5 <= percent <= 95).
Proof.
  intros before_final whole Hup.
  assert (Hw : Transcription.sound whole.2
               /\ Transcription.cancelled whole.2 = true).
  { subst before_final whole. unfold Transcription.run,
      Transcription.try_except, Transcription.wbind.
    pose proof (run_main_sound cancel_before audio_path source_language
                  translate target_language gpu_total_memory load_model
                  transcribe net as_completed Transcription.initial) as H.
    destruct (Transcription.run_main _ _ _ _ _ _ _ _ _ _ _)
      as [[[segs|]|message] w1].
    - destruct H as [_ H]; [by split|]. cbn in Hup.
      rewrite H in Hup by done. discriminate.
    - destruct H as [H _]; [by split|]. by split.
    - cbn in Hup. split.
      + assert (Hs1 : Transcription.sound w1) by (apply H; by split).
        exact (emit_sound cancel_before
                 (Transcription.error_occurred
                    (py "Transcription error: " ++ message)) I w1 Hs1).
      + cbn. by apply tick_cancelled. }
  destruct Hw as [[Hb Hc] Hup']. rewrite Forall_forall in Hb.
  split; [|split].
  - intros e He. specialize (Hb e He). destruct e as [p m|segs|m]; cbn in *.
    + destruct Hb as [[= -> _]|Hb]; [done|]. apply Z.eqb_neq. lia.
    + done.
    + done.
  - by apply Hc.
  - intros p m He. exact (Hb _ He).
Qed.

Lemma run_cancelled_no_completion_witness :
  let transcribe := fun (_ : str) (_ : option str) =>
    Transcription.Done
      {| Transcription.language := Some (py "en");
         Transcription.segments :=
           Some [ Transcription.RawSegment 1500000 3000000 (py " Hi ");
                  Transcription.RawSegment 3000000 4250000 (py "there") ] |} in
  let net := fun (_ _ : nat) (_ : str) (_ : Transcription.payload) =>
    Transcription.Response 200
      (Transcription.Json
         (Transcription.VDict
            [(py "translatedText", Transcription.VStr (py "Salut"))])) in
  let whole :=
    Transcription.run (py "talk.wav") (py "auto") true (Some (py "fr"))
      (Some 8589934592) (fun _ => None) transcribe net (fun _ l => l)
      (fun k => Nat.eqb k 9) Transcription.initial in
  Transcription.progress_update 60
    (py "Transcription complete. Processing results...")
    ∈ Transcription.log whole.2 /\
  (forall e, e ∈ Transcription.log whole.2 ->
             Transcription.is_completion e = false) /\
  Transcription.cancel_message ∈ Transcription.log whole.2.
Proof.
  intros transcribe net whole. split.
  - apply list_elem_of_In. vm_compute. tauto.
  - pose proof (run_cancelled_no_completion (py "talk.wav") (py "auto") true
                  (Some (py "fr")) (Some 8589934592) (fun _ => None)
                  transcribe net (fun _ l => l) (fun k => Nat.eqb k 9)
                  eq_refl) as (H1 & H2 & _).
    split; [exact H1|exact H2].
Defined.

(** A cancellation that comes after the last reading of the flag lets the
    run complete: the log then holds the cancellation message and both
    completion signals. *)
Example run_cancelled_in_final_phase :
  let transcribe := fun (_ : str) (_ : option str) =>
    Transcription.Done
      {| Transcription.language := Some (py "en");
         Transcription.segments :=
           Some [ Transcription.RawSegment 1500000 3000000 (py " Hi ") ] |} in
  let whole :=
    Transcription.run (py "talk.wav") (py "auto") false None
      None (fun _ => None) transcribe
      (fun _ _ _ _ => Transcription.NoResponse) (fun _ l => l)
      (fun k => Nat.eqb k 12) Transcription.initial in
  exists segs,
    Transcription.log whole.2 =
    [ Transcription.progress_update 5
        (py "Initializing transcription model...");
      Transcription.progress_update 15
        (py "Using base model (CPU mode - slower)");
      Transcription.progress_update 10 (py "Loading base model...");
      Transcription.progress_update 30
        (py "Model loaded. Starting transcription...");
      Transcription.progress_update 35
        (py "Detecting language automatically...");
      Transcription.progress_update 60
        (py "Transcription complete. Processing results...");
      Transcription.progress_update 65 (py "Detected language: en");
      Transcription.progress_update 95 (py "Processing segment 1/1");
      Transcription.cancel_message;
      Transcription.progress_update 100 (py "Complete!");
      Transcription.transcription_complete segs ].
Proof. eexists. vm_compute. reflexivity. Qed.

(** C10, as stated, fails: with the flag raised before the first batch,
    one segment goes in and none comes out. *)
Lemma translate_segments_counterexample :
  let seg := {| start := py "0:00:01,500"; end_ := py "0:00:03,250";
                text := py "Hi" |} in
  let r := Transcription._translate_segments (Some (py "fr"))
             (fun _ _ _ _ => Transcription.NoResponse) (fun _ l => l)
             (fun k => Nat.eqb k 1) [seg] Transcription.initial in
  r.1 = Transcription.Done [] /\ ~ Transcription.aligned [] [seg].
Proof.
  split; [reflexivity|]. intros [H _]. discriminate.
Qed.

Section ProcessSegmentsFacts.

Import Transcription.

Variable translate : bool.
Variable cancel_before : nat -> bool.
Hypothesis never_cancelled : forall k, cancel_before k = false.

Lemma tick_not_cancelled (w : world) :
  cancelled w = false -> cancelled (tick cancel_before w) = false.
Proof. intros H. unfold tick. by rewrite never_cancelled. Qed.

Lemma normalise_done (seg : raw_segment) (record : segment str) :
  normalise seg = Done record ->
  time_text (raw_start seg) = Done (start record)
  /\ time_text (raw_end seg) = Done (end_ record)
  /\ record = {| start := start record; end_ := end_ record;
                 text := strip (raw_text seg) |}.
Proof.
  unfold normalise.
  destruct (time_text (raw_start seg)) as [start_time|]; [|discriminate].
  destruct (time_text (raw_end seg)) as [end_time|]; [|discriminate].
  by intros [= <-].
Qed.

Lemma process_loop_records (total : nat) (raw : list raw_segment)
    (records : list (segment str)) :
  recorded raw records ->
  forall idx segs w,
  cancelled w = false ->
  exists w',
    process_loop translate cancel_before total idx raw segs w
    = (Done (segs ++ records), w')
    /\ cancelled w' = false.
Proof.
  induction 1 as [|seg record rest records' Hseg _ IH]; intros idx segs w Hw.
  - exists w. cbn. by rewrite app_nil_r.
  - apply normalise_done in Hseg as (Hs & He & Hr).
    cbn [process_loop]. unfold wbind at 1. cbn [is_cancelled].
    pose proof (tick_not_cancelled w Hw) as Ht. rewrite Ht.
    unfold wbind at 1, raising at 1. rewrite Hs.
    unfold wbind at 1, raising at 1. rewrite He.
    rewrite <- Hr. unfold wbind.
    destruct translate; cbn [negb wret emit];
      match goal with
      | |- context [process_loop _ _ _ _ _ _ ?w1] =>
          destruct (IH (S idx) (segs ++ [record]) w1)
            as (w' & -> & Hw');
          [ first [ exact Ht | by apply tick_not_cancelled ]
          | exists w'; split; [by rewrite <- app_assoc|done] ]
      end.
Qed.

(** While the run is not cancelled, [_process_segments] returns the record
    of each raw segment whose times [timedelta] holds, in order; the text
    of each is stripped. *)
Lemma process_segments_records (raw : list raw_segment)
    (records : list (segment str)) (w : world) :
  recorded raw records ->
  cancelled w = false ->
  (_process_segments translate cancel_before raw w).1 = Done records.
Proof.
  intros Hr Hw. unfold _process_segments.
  by destruct (process_loop_records (length raw) raw records Hr 0%nat [] w Hw)
    as (w' & -> & _).
Qed.

End ProcessSegmentsFacts.

(** C1, on the code. A segment from 1.5 s to 3 s with the text [" Hi "]
    comes out with the start ["0:00:01,500"], one digit of hours, and the
    end ["000000:00"]; its text is stripped. *)
Theorem process_segments_format :
  let raw := [ Transcription.RawSegment 1500000 3000000 (py " Hi ") ] in
  (Transcription._process_segments true (fun _ => false) raw
     Transcription.initial).1
  = Transcription.Done
      [ {| start := py "0:00:01,500"; end_ := py "000000:00";
           text := py "Hi" |} ].
Proof. reflexivity. Qed.

(** C4, on the code. When the first server answers 200 with the JSON body
    [null], [translate_text] raises a [TypeError]. *)
Theorem translate_text_raises :
  let post : Transcription.network := fun _ _ =>
    Transcription.Response 200 (Transcription.Json Transcription.VNone) in
  Transcription.translate_text post (py "Hello") (py "fr") = Raise TypeError.
Proof. reflexivity. Qed.

Section TranslateTextFacts.

Import Transcription.

Variable post : network.

(** A blank text comes back as it is, whatever the network. *)
Lemma translate_text_blank (text target_language : str) :
  nonblank text = false ->
  translate_text post text target_language = Ok (VStr text).
Proof.
  unfold nonblank, translate_text. by destruct (strip text).
Qed.

(** When every server times out, answers another status than 200, or
    answers 200 with a body that is not JSON or is a JSON object without
    the key [translatedText], the text comes back as it is. *)
Lemma translate_text_fallback (text target_language : str) :
  (forall url data,
     match post url data with
     | NoResponse => True
     | Response status_code b =>
         status_code <> 200 \/ b = NotJson
         \/ exists fields, b = Json (VDict fields)
                           /\ (py "translatedText" ∉ fields.*1)
     end) ->
  translate_text post text target_language = Ok (VStr text).
Proof.
  intros H. unfold translate_text. destruct (strip text); [done|].
  generalize SERVERS. intros servers.
  induction servers as [|server rest IH]; [done|].
  cbn [try_servers]. unfold ask.
  specialize (H (server ++ py "/translate")
                {| q := text; source := py "auto";
                   target := target_language; format := py "text" |}).
  destruct (post _ _) as [|code b]; [done|].
  destruct (Z.eqb_spec code 200) as [->|_]; [|done].
  destruct H as [? | [-> | (fields & -> & Hkey)]]; [done|done|].
  cbn [json bind py_in]. by rewrite bool_decide_eq_false_2.
Qed.

End TranslateTextFacts.

Lemma translate_batch_aligned_witness :
  let net : nat -> Transcription.network := fun i _ _ =>
    match i with
    | O => Transcription.Response 200
             (Transcription.Json
                (Transcription.VDict
                   [(py "translatedText", Transcription.VStr (py "Salut"))]))
    | _ => Transcription.Response 200
             (Transcription.Json Transcription.VNone)
    end in
  let texts := [py "Hello"; py " "; py "World"] in
  let results :=
    Transcription.translate_batch net (@rev (nat * str)) texts (py "fr") in
  length results = 3%nat /\
  results !! 0%nat = Some (Transcription.VStr (py "Salut")) /\
  results !! 1%nat = Some (Transcription.VStr (py " ")) /\
  results !! 2%nat = Some (Transcription.VStr (py "World")).
Proof.
  intros net texts results.
  destruct (translate_batch_aligned net (@rev (nat * str)) texts (py "fr")
              (fun l => Permutation_sym (Permutation_rev l)))
    as [Hlen H].
  split; [exact Hlen|]. split; [|split].
  - exact (proj2 (proj2 (H 0%nat (py "Hello") eq_refl))
             (Transcription.VStr (py "Salut")) eq_refl eq_refl).
  - exact (proj1 (H 1%nat (py " ") eq_refl) eq_refl).
  - exact (proj1 (proj2 (H 2%nat (py "World") eq_refl)) TypeError eq_refl).
Defined.

Section ReadingSpeedFacts.

Variable float : Type.
Variable float_of_str : str -> result float.
Variable float_of_Z : Z -> float.
Variables fsub fmul fdiv : float -> float -> float.
Variable fadd : float -> float -> float.
Variable fsum : list float -> float.
Variable fpos : float -> bool.
Variable fzero : float -> bool.

Local Abbreviation calculate_reading_speed :=
  (Utils.calculate_reading_speed float float_of_str float_of_Z fsub fmul
     fdiv fadd fsum fpos fzero).

Lemma reading_speed_empty_zero (total_duration : option (Utils.num float)) :
  map_Forall (fun _ x => x = Utils.NInt 0)
             (calculate_reading_speed [] total_duration).
Proof.
  cbn [Utils.calculate_reading_speed].
  repeat (apply map_Forall_insert_2; [reflexivity|]).
  apply map_Forall_empty.
Qed.

Lemma reading_speed_nonempty_keys (seg : segment str)
    (rest : list (segment str)) (total_duration : option (Utils.num float)) :
  let r := calculate_reading_speed (seg :: rest) total_duration in
  is_Some (r !! "avg_speed_cps"%string) /\
  is_Some (r !! "avg_speed_wpm"%string) /\
  is_Some (r !! "total_speaking_duration"%string).
Proof.
  cbn [Utils.calculate_reading_speed].
  destruct (fold_left _ _ _) as [[total_chars total_words] durations].
  cbn zeta. repeat split; eexists; by simplify_map_eq.
Qed.

End ReadingSpeedFacts.

(** C9, on the code. On the empty list [calculate_reading_speed] returns
    the dictionary with the keys [avg_speed], [total_chars], [total_words]
    and [total_duration], all 0; the keys [avg_speed_cps], [avg_speed_wpm]
    and [total_speaking_duration], which it returns for every list that is
    not empty, are not in it. *)
Theorem calculate_reading_speed_empty
    (float : Type) (float_of_str : str -> result float)
    (float_of_Z : Z -> float) (fsub fmul fdiv fadd : float -> float -> float)
    (fsum : list float -> float) (fpos fzero : float -> bool)
    (total_duration : option (Utils.num float)) :
  let speed := Utils.calculate_reading_speed float float_of_str float_of_Z
                 fsub fmul fdiv fadd fsum fpos fzero in
  let r := speed [] total_duration in
  dom r = ({[ "avg_speed"; "total_chars"; "total_words";
              "total_duration" ]} : gset string)%string /\
  (forall key x, r !! key = Some x -> x = Utils.NInt 0) /\
  r !! "avg_speed_cps"%string = None /\
  r !! "avg_speed_wpm"%string = None /\
  r !! "total_speaking_duration"%string = None /\
  (forall seg rest,
     is_Some (speed (seg :: rest) total_duration !! "avg_speed_cps"%string) /\
     is_Some (speed (seg :: rest) total_duration !! "avg_speed_wpm"%string) /\
     is_Some (speed (seg :: rest) total_duration
              !! "total_speaking_duration"%string)).
Proof.
  intros speed r. split; [|split; [|split; [|split; [|split]]]].
  - subst r speed. cbn [Utils.calculate_reading_speed].
    rewrite !dom_insert_L, dom_empty_L. set_solver.
  - intros key x. apply reading_speed_empty_zero.
  - reflexivity.
  - reflexivity.
  - reflexivity.
  - intros seg rest. apply reading_speed_nonempty_keys.
Qed.

(** * More about the translation service *)

Section TranslateTextMore.

Import Transcription.

Variable post : network.

Lemma lookup_field_elem (key : str) (fields : list (str * value)) :
  key ∈ fields.*1 <-> is_Some (lookup_field key fields).
Proof.
  induction fields as [|[k x] rest IH]; cbn [lookup_field fmap list_fmap].
  - split; [by intros H%not_elem_of_nil|by intros [? [=]]].
  - cbn. rewrite elem_of_cons, IH. case_bool_decide as Hk.
    + split; [by eexists|]. intros _. left. done.
    + split; [|by right]. intros [->|H]; [done|exact H].
Qed.

Lemma ask_declines (server : str) (data : payload) :
  declines (post (server ++ py "/translate") data) ->
  ask post server data = Ok None \/ ask post server data = Raise RequestException.
Proof.
  unfold declines, ask. destruct (post _ _) as [|code b]; [by right|].
  destruct (Z.eqb_spec code 200) as [->|_]; [|by left].
  intros [?|[->|(v & -> & Hv)]]; [done|by right|].
  cbn [json bind]. rewrite Hv. by left.
Qed.

(** What [ask] raises: a [RequestException], a [TypeError] on JSON that is
    not an object, or a [RecursionError] on JSON nested too deep. *)
Lemma ask_raise (server : str) (data : payload) (e : exn) :
  ask post server data = Raise e ->
  e = RequestException
  \/ (e = TypeError
      /\ exists v, post (server ++ py "/translate") data
                   = Response 200 (Json v)
                   /\ forall fields, v <> VDict fields)
  \/ (e = RecursionError
      /\ post (server ++ py "/translate") data = Response 200 TooDeep).
Proof.
  unfold ask. destruct (post _ _) as [|code b]; [intros [= <-]; by left|].
  destruct (Z.eqb_spec code 200) as [->|_]; [|done].
  destruct b as [| |v];
    [intros [= <-]; by left|intros [= <-]; right; right; by split|].
  cbn [json bind].
  destruct v as [|b|lit|s|items|fields]; cbn [py_in bind];
    try (intros [= <-]; right; left; split; [done|]; eexists; split; [done|];
         intros fields0; discriminate).
  - destruct (contains _ _); cbn [getitem bind]; [|done].
    intros [= <-]. right. left. split; [done|]. eexists. split; [done|].
    intros fields0. discriminate.
  - destruct (existsb _ _); cbn [getitem bind]; [|done].
    intros [= <-]. right. left. split; [done|]. eexists. split; [done|].
    intros fields0. discriminate.
  - case_bool_decide as Hk; [|done]. cbn [getitem].
    apply lookup_field_elem in Hk as [x ->]. done.
Qed.

Lemma try_servers_declined (servers : list str) (text : str) (data : payload) :
  (forall s, s ∈ servers -> declines (post (s ++ py "/translate") data)) ->
  try_servers post servers text data = Ok (VStr text).
Proof.
  induction servers as [|server rest IH]; intros H; [done|].
  cbn [try_servers].
  destruct (ask_declines server data) as [-> | ->].
  - apply H. by left.
  - apply IH. intros s Hs. apply H. by right.
  - apply IH. intros s Hs. apply H. by right.
Qed.

Lemma try_servers_first (servers : list str) (text : str) (data : payload)
    (k : nat) (server : str) (fields : list (str * value)) (x : value) :
  servers !! k = Some server ->
  (forall j s, (j < k)%nat -> servers !! j = Some s ->
               declines (post (s ++ py "/translate") data)) ->
  post (server ++ py "/translate") data = Response 200 (Json (VDict fields)) ->
  lookup_field (py "translatedText") fields = Some x ->
  try_servers post servers text data = Ok x.
Proof.
  revert k. induction servers as [|s0 rest IH]; intros k Hk Hbefore Hpost Hx.
  - done.
  - cbn [try_servers]. destruct k as [|k].
    + cbn in Hk. injection Hk as ->. unfold ask. rewrite Hpost.
      cbn [Z.eqb Pos.eqb json bind py_in].
      rewrite bool_decide_eq_true_2
        by (apply lookup_field_elem; by eexists).
      cbn [getitem]. by rewrite Hx.
    + assert (Hd : declines (post (s0 ++ py "/translate") data))
        by (by apply (Hbefore 0%nat); [lia|]).
      assert (Hrest : try_servers post rest text data = Ok x).
      { apply (IH k); try done. intros j s Hj Hs.
        apply (Hbefore (S j)); [lia|done]. }
      by destruct (ask_declines s0 data Hd) as [-> | ->].
Qed.

Lemma try_servers_raise (servers : list str) (text : str) (data : payload)
    (e : exn) :
  try_servers post servers text data = Raise e ->
  exists server,
    server ∈ servers /\
    ((e = TypeError
      /\ exists v, post (server ++ py "/translate") data
                   = Response 200 (Json v)
                   /\ forall fields, v <> VDict fields)
     \/ (e = RecursionError
         /\ post (server ++ py "/translate") data = Response 200 TooDeep)).
Proof.
  induction servers as [|s0 rest IH]; [done|]. cbn [try_servers].
  assert (Hrest : try_servers post rest text data = Raise e ->
            exists server, server ∈ s0 :: rest /\
              ((e = TypeError
                /\ exists v, post (server ++ py "/translate") data
                             = Response 200 (Json v)
                             /\ forall fields, v <> VDict fields)
               \/ (e = RecursionError
                   /\ post (server ++ py "/translate") data
                      = Response 200 TooDeep))).
  { intros H. destruct (IH H) as (server & Hs & Hcase).
    exists server. split; [by right|done]. }
  destruct (ask post s0 data) as [[x|]|e0] eqn:Ea.
  - done.
  - exact Hrest.
  - destruct (ask_raise _ _ _ Ea) as [-> | [(-> & Hv) | (-> & Hp)]].
    + exact Hrest.
    + intros [= <-]. exists s0. split; [by left|]. by left.
    + intros [= <-]. exists s0. split; [by left|]. by right.
Qed.

Lemma translate_text_nonblank (text target_language : str) :
  nonblank text = true ->
  translate_text post text target_language
  = try_servers post SERVERS text (payload_of text target_language).
Proof. unfold nonblank, translate_text. by destruct (strip text). Qed.

End TranslateTextMore.

(** X1. When every one of the four servers declines (no response, a status
    other than 200, a body that is not JSON, or JSON without the
    translation), [translate_text] returns the text it was given. *)
Theorem translate_text_all_decline
    (post : Transcription.network) (text target_language : str) :
  (forall server,
     server ∈ Transcription.SERVERS ->
     Transcription.declines
       (post (server ++ py "/translate")
             (Transcription.payload_of text target_language))) ->
  Transcription.translate_text post text target_language
  = Ok (Transcription.VStr text).
Proof.
  intros H. destruct (Transcription.nonblank text) eqn:Hb.
  - rewrite translate_text_nonblank by done. by apply try_servers_declined.
  - by apply translate_text_blank.
Qed.

Lemma translate_text_all_decline_witness :
  let post : Transcription.network := fun url _ =>
    if bool_decide (url = py "https://libretranslate.de/translate")
    then Transcription.Response 503 Transcription.NotJson
    else if bool_decide (url = py "https://lt.vern.cc/translate")
    then Transcription.Response 200
           (Transcription.Json
              (Transcription.VDict
                 [(py "error", Transcription.VStr (py "busy"))]))
    else Transcription.NoResponse in
  Transcription.translate_text post (py "Hello") (py "fr")
  = Ok (Transcription.VStr (py "Hello")).
Proof.
  intros post. apply translate_text_all_decline.
  intros server Hs. apply list_elem_of_In in Hs. cbn in Hs.
  destruct Hs as [<- | [<- | [<- | [<- | []]]]]; vm_compute; eauto.
Defined.

(** X2. The servers are tried in the order of the list and the first
    translation found is returned: when the servers before position [k]
    decline and server [k] answers 200 with a JSON object whose
    ["translatedText"] is [x], [translate_text] returns [x], whatever the
    later servers would answer. *)
Theorem translate_text_first_answer
    (post : Transcription.network) (text target_language : str)
    (k : nat) (server : str)
    (fields : list (str * Transcription.value)) (x : Transcription.value) :
  Transcription.nonblank text = true ->
  Transcription.SERVERS !! k = Some server ->
  (forall j s, (j < k)%nat -> Transcription.SERVERS !! j = Some s ->
     Transcription.declines
       (post (s ++ py "/translate")
             (Transcription.payload_of text target_language))) ->
  post (server ++ py "/translate")
       (Transcription.payload_of text target_language)
  = Transcription.Response 200
      (Transcription.Json (Transcription.VDict fields)) ->
  Transcription.lookup_field (py "translatedText") fields = Some x ->
  Transcription.translate_text post text target_language = Ok x.
Proof.
  intros Hb Hk Hbefore Hpost Hx. rewrite translate_text_nonblank by done.
  by eapply try_servers_first.
Qed.

Lemma translate_text_first_answer_witness :
  let post : Transcription.network := fun url _ =>
    if bool_decide (url = py "https://translate.argosopentech.com/translate")
    then Transcription.NoResponse
    else if bool_decide (url = py "https://libretranslate.de/translate")
    then Transcription.Response 200
           (Transcription.Json
              (Transcription.VDict
                 [(py "translatedText", Transcription.VStr (py "Salut"))]))
    else Transcription.Response 200
           (Transcription.Json Transcription.VNone) in
  Transcription.translate_text post (py "Hello") (py "fr")
  = Ok (Transcription.VStr (py "Salut")).
Proof.
  intros post.
  apply (translate_text_first_answer post (py "Hello") (py "fr") 1%nat
           (py "https://libretranslate.de")
           [(py "translatedText", Transcription.VStr (py "Salut"))]).
  - reflexivity.
  - reflexivity.
  - intros j s Hj Hs. assert (j = 0%nat) as -> by lia.
    cbn in Hs. injection Hs as <-. vm_compute. exact I.
  - reflexivity.
  - reflexivity.
Defined.



Section TranslateBatchMore.

Import Transcription.

Lemma translate_batch_ext (net : nat -> network)
    (ac : list (nat * str) -> list (nat * str))
    (texts : list str) (target_language : str) (expected : list value) :
  (forall l, Permutation (ac l) l) ->
  length expected = length texts ->
  (forall i text, texts !! i = Some text ->
     expected !! i
     = if nonblank text
       then match translate_text (net i) text target_language with
            | Ok x => Some x
            | Raise _ => Some (VStr text)
            end
       else Some (VStr text)) ->
  translate_batch net ac texts target_language = expected.
Proof.
  intros Hp Hlen Hexp. apply list_eq. intros i.
  destruct (texts !! i) as [text|] eqn:Hi.
  - rewrite (translate_batch_lookup net ac Hp _ _ i text Hi).
    symmetry. by apply Hexp.
  - apply lookup_ge_None in Hi.
    rewrite !(proj2 (lookup_ge_None _ _)); [done| |].
    + by rewrite Hlen.
    + by rewrite translate_batch_length.
Qed.

End TranslateBatchMore.

(** X4. The result of [translate_batch] does not depend on the order in
    which the concurrent translations complete: two completion orders of
    the same tasks give the same list. *)
Theorem translate_batch_order_independent
    (net : nat -> Transcription.network)
    (order1 order2 : list (nat * str) -> list (nat * str))
    (texts : list str) (target_language : str) :
  (forall l, Permutation (order1 l) l) ->
  (forall l, Permutation (order2 l) l) ->
  Transcription.translate_batch net order1 texts target_language
  = Transcription.translate_batch net order2 texts target_language.
Proof.
  intros H1 H2. apply translate_batch_ext; [done| |].
  - by rewrite translate_batch_length.
  - intros i text Hi. by apply translate_batch_lookup.
Qed.

Lemma translate_batch_order_independent_witness :
  let net : nat -> Transcription.network := fun i _ _ =>
    match i with
    | O => Transcription.Response 200
             (Transcription.Json
                (Transcription.VDict
                   [(py "translatedText", Transcription.VStr (py "Salut"))]))
    | _ => Transcription.Response 200
             (Transcription.Json Transcription.VNone)
    end in
  let texts := [py "Hello"; py " "; py "World"] in
  Transcription.translate_batch net (fun l => l) texts (py "fr")
  = Transcription.translate_batch net (@rev (nat * str)) texts (py "fr").
Proof.
  intros net texts. apply translate_batch_order_independent.
  - intros l. reflexivity.
  - intros l. apply Permutation_sym, Permutation_rev.
Defined.

(** X5. With every server declining for every text, [translate_batch]
    returns the texts it was given, each as it was. *)
Theorem translate_batch_all_decline
    (net : nat -> Transcription.network)
    (as_completed : list (nat * str) -> list (nat * str))
    (texts : list str) (target_language : str) :
  (forall l, Permutation (as_completed l) l) ->
  (forall i url data, Transcription.declines (net i url data)) ->
  Transcription.translate_batch net as_completed texts target_language
  = Transcription.VStr <$> texts.
Proof.
  intros Hp Hd. apply translate_batch_ext; [done|by rewrite length_fmap|].
  intros i text Hi. rewrite list_lookup_fmap, Hi. cbn.
  destruct (Transcription.nonblank text) eqn:Hb; [|done].
  rewrite translate_text_nonblank by done.
  rewrite try_servers_declined; [done|]. intros s _. apply Hd.
Qed.

Lemma translate_batch_all_decline_witness :
  let net : nat -> Transcription.network := fun i _ _ =>
    match i with
    | O => Transcription.NoResponse
    | _ => Transcription.Response 404 Transcription.NotJson
    end in
  Transcription.translate_batch net (@rev (nat * str))
    [py "Hello"; py ""; py "World"] (py "fr")
  = Transcription.VStr <$> [py "Hello"; py ""; py "World"].
Proof.
  intros net. apply translate_batch_all_decline.
  - intros l. apply Permutation_sym, Permutation_rev.
  - intros [|i] url data; cbn; [exact I|left; discriminate].
Defined.

(** * More about digits and timestamps *)

Section FixedWidth.

Lemma dec_value_app (a b : str) :
  dec_value (a ++ b)
  = (dec_value a * 10 ^ N.of_nat (length b) + dec_value b)%N.
Proof.
  induction a as [|c a IH]; [cbn; lia|].
  cbn [app dec_value length]. rewrite IH, length_app, Nat2N.inj_add, N.pow_add_r.
  lia.
Qed.

Lemma dval_lt (c : ascii) : is_digit c -> (dval c < 10)%N.
Proof.
  intros [d H]. unfold dval. rewrite H. cbn. revert H. unfold digit_val.
  destruct (_ && _) eqn:E; [|done]. intros [= <-].
  apply andb_true_iff in E as [E1 E2]. apply N.leb_le in E1, E2. lia.
Qed.

Lemma dec_value_bound (l : str) :
  Forall is_digit l -> (dec_value l < 10 ^ N.of_nat (length l))%N.
Proof.
  induction 1 as [|c r Hc _ IH]; [cbn; lia|].
  cbn [dec_value length]. rewrite Nat2N.inj_succ, N.pow_succ_r'.
  pose proof (dval_lt c Hc). nia.
Qed.

Lemma digit_val_inj (c1 c2 : ascii) (d : N) :
  digit_val c1 = Some d -> digit_val c2 = Some d -> c1 = c2.
Proof.
  unfold digit_val. intros H1 H2.
  destruct (_ && _) eqn:E1 in H1; [|done].
  destruct (_ && _) eqn:E2 in H2; [|done].
  apply andb_true_iff in E1 as [E1 _], E2 as [E2 _].
  apply N.leb_le in E1, E2. injection H1 as H1. injection H2 as H2.
  rewrite <- (ascii_N_embedding c1), <- (ascii_N_embedding c2).
  f_equal. lia.
Qed.

(** Two strings of digits of the same length and the same value are the
    same string. *)
Lemma digits_unique (l1 l2 : str) :
  Forall is_digit l1 -> Forall is_digit l2 -> length l1 = length l2 ->
  dec_value l1 = dec_value l2 -> l1 = l2.
Proof.
  intros F1. revert l2. induction F1 as [|c1 r1 Hc1 F1 IH]; intros l2 F2 Hl Hv.
  - by destruct l2.
  - destruct F2 as [|c2 r2 Hc2 F2]; [done|]. cbn [length] in Hl.
    injection Hl as Hl. cbn [dec_value] in Hv. rewrite Hl in Hv.
    pose proof (dec_value_bound r1 F1) as B1. rewrite Hl in B1.
    pose proof (dec_value_bound r2 F2) as B2.
    pose proof (dval_lt c1 Hc1). pose proof (dval_lt c2 Hc2).
    set (P := (10 ^ N.of_nat (length r2))%N) in *.
    assert (Hd : dval c1 = dval c2).
    { rewrite (N.div_unique (dval c1 * P + dec_value r1) P (dval c1)
                 (dec_value r1)) by lia.
      rewrite Hv. symmetry. apply N.div_unique with (dec_value r2); lia. }
    assert (Hr : dec_value r1 = dec_value r2) by nia.
    f_equal.
    + destruct Hc1 as [d1 E1], Hc2 as [d2 E2]. unfold dval in Hd.
      rewrite E1, E2 in Hd. cbn in Hd. subst d2.
      by eapply digit_val_inj.
    + by apply IH.
Qed.

Lemma digits_go_length (fuel : nat) :
  forall (n : N) (w : nat) (acc : str),
  (0 < w)%nat -> (n < 10 ^ N.of_nat w)%N ->
  (length (digits_go (S fuel) n acc) <= w + length acc)%nat.
Proof.
  induction fuel as [|fuel IH]; intros n w acc Hw Hn;
    rewrite digits_go_step; destruct (N.eqb_spec (n / 10) 0) as [E|E];
    cbn [length digits_go]; try lia.
  destruct w as [|[|w]]; [lia| |].
  - exfalso. apply E. apply N.div_small. cbn in Hn. lia.
  - etransitivity; [apply (IH _ (S w)); [lia|]|cbn [length]; lia].
    rewrite (Nat2N.inj_succ (S w)), N.pow_succ_r' in Hn.
    apply N.Div0.div_lt_upper_bound. lia.
Qed.

Lemma str_of_N_length (n : N) (w : nat) :
  (0 < w)%nat -> (n < 10 ^ N.of_nat w)%N -> (length (str_of_N n) <= w)%nat.
Proof.
  intros Hw Hn. unfold str_of_N.
  pose proof (digits_go_length (N.to_nat (N.size n)) n w [] Hw Hn) as H.
  cbn [length] in H. lia.
Qed.

(** A number below [10 ^ w] is rendered on exactly [w] characters. *)
Lemma fmt_0d_length (w : nat) (z : Z) :
  (0 < w)%nat -> 0 <= z < 10 ^ Z.of_nat w -> length (fmt_0d w z) = w.
Proof.
  intros Hw [Hz Hlt]. unfold fmt_0d.
  destruct (Z.ltb_spec z 0) as [?|_]; [lia|].
  rewrite length_app, repeat_length.
  assert (length (str_of_N (Z.abs_N z)) <= w)%nat; [|lia].
  apply str_of_N_length; [done|].
  apply N2Z.inj_lt. rewrite N2Z.inj_abs_N, Z.abs_eq by lia.
  rewrite N2Z.inj_pow, nat_N_Z. exact Hlt.
Qed.

Lemma take3_fmt6 (z : Z) :
  0 <= z < 1000000 -> take 3 (fmt_0d 6 z) = fmt_0d 3 (z / 1000).
Proof.
  intros Hz.
  assert (Hq : 0 <= z / 1000 < 1000).
  { split; [apply Z.div_pos; lia|apply Z.div_lt_upper_bound; lia]. }
  destruct (fmt_0d_digits 6 z (proj1 Hz)) as (F6 & _ & V6).
  destruct (fmt_0d_digits 3 (z / 1000) (proj1 Hq)) as (F3 & _ & V3).
  assert (L6 : length (fmt_0d 6 z) = 6%nat)
    by (apply fmt_0d_length; cbn; lia).
  assert (L3 : length (fmt_0d 3 (z / 1000)) = 3%nat)
    by (apply fmt_0d_length; cbn; lia).
  apply digits_unique.
  - by apply Forall_take.
  - done.
  - rewrite length_take. lia.
  - rewrite V3.
    pose proof (dec_value_app (take 3 (fmt_0d 6 z)) (drop 3 (fmt_0d 6 z)))
      as Happ.
    rewrite take_drop, V6, length_drop, L6 in Happ. cbn in Happ.
    assert (B : (dec_value (drop 3 (fmt_0d 6 z)) < 1000)%N).
    { pose proof (dec_value_bound (drop 3 (fmt_0d 6 z))
                    (Forall_drop _ _ _ F6)) as B.
      rewrite length_drop, L6 in B. exact B. }
    apply N2Z.inj. rewrite Z2N.id by lia.
    apply (Z.div_unique z 1000 _
             (Z.of_N (dec_value (drop 3 (fmt_0d 6 z))))); lia.
Qed.

End FixedWidth.

Section FormatTime.

Import Transcription.

Lemma subst_digits (a b : ascii) (l : str) :
  ~ is_digit a -> Forall is_digit l -> map (subst_char a b) l = l.
Proof.
  intros Ha F. induction F as [|c r Hc _ IH]; [done|].
  cbn [map]. rewrite IH. f_equal. unfold subst_char.
  destruct (Ascii.eqb_spec a c) as [->|_]; [done|done].
Qed.

Lemma time_fields (us : Z) :
  0 <= us < 86400000000 ->
  us / 86400000000 = 0 /\
  (us mod 86400000000) / 1000000 / 60 / 60 = us / 3600000000 /\
  ((us mod 86400000000) / 1000000 / 60) mod 60 = us / 60000000 mod 60 /\
  ((us mod 86400000000) / 1000000) mod 60 = us / 1000000 mod 60.
Proof.
  intros H. rewrite (Z.mod_small us 86400000000) by lia.
  rewrite !Z.div_div by lia. repeat split. by apply Z.div_small.
Qed.

Lemma time_ranges (us : Z) :
  0 <= us < 86400000000 ->
  0 <= us / 3600000000 < 24 /\ 0 <= us / 60000000 mod 60 < 60 /\
  0 <= us / 1000000 mod 60 < 60 /\ 0 <= us mod 1000000 < 1000000.
Proof.
  intros H. repeat split;
    try (apply Z.mod_pos_bound; lia); try (apply Z.div_pos; lia).
  apply Z.div_lt_upper_bound; lia.
Qed.

Lemma str_of_Z_digits (z : Z) :
  0 <= z -> Forall is_digit (str_of_Z z) /\ str_of_Z z <> []
            /\ dec_value (str_of_Z z) = Z.to_N z.
Proof.
  intros Hz. unfold str_of_Z. destruct (Z.ltb_spec z 0) as [?|_]; [lia|].
  destruct (str_of_N_digits (Z.abs_N z)) as [F V].
  split; [done|]. split; [apply str_of_N_nonempty|]. rewrite V. lia.
Qed.

Lemma str_of_Z_fmt (w : nat) (z : Z) :
  0 <= z ->
  fmt_0d w z = repeat "0"%char (w - length (str_of_Z z)) ++ str_of_Z z.
Proof.
  intros Hz. unfold fmt_0d, str_of_Z.
  by destruct (Z.ltb_spec z 0) as [?|_]; [lia|].
Qed.

(** The text [str] gives for a time below a day. *)
Lemma timedelta_str_day (us : Z) :
  0 <= us < 86400000000 ->
  timedelta_str (timedelta_of_us us)
  = (str_of_Z (us / 3600000000) ++ py ":"
     ++ fmt_0d 2 (us / 60000000 mod 60) ++ py ":"
     ++ fmt_0d 2 (us / 1000000 mod 60))
    ++ (if us mod 1000000 =? 0 then []
        else py "." ++ fmt_0d 6 (us mod 1000000)).
Proof.
  intros H. destruct (time_fields us H) as (Hd & Hh & Hm & Hs).
  unfold timedelta_str, timedelta_of_us.
  cbn [days Transcription.seconds microseconds].
  rewrite Hd, Hh, Hm, Hs. cbn [Z.eqb].
  destruct (us mod 1000000 =? 0); [by rewrite app_nil_r|].
  by rewrite <- !app_assoc.
Qed.

Lemma format_time_fraction_eq (us : Z) :
  0 <= us < 86400000000 -> us mod 1000000 <> 0 ->
  format_time us
  = str_of_Z (us / 3600000000) ++ py ":"
    ++ fmt_0d 2 (us / 60000000 mod 60) ++ py ":"
    ++ fmt_0d 2 (us / 1000000 mod 60) ++ py ","
    ++ fmt_0d 3 (us mod 1000000 / 1000).
Proof.
  intros H Hfrac. destruct (time_ranges us H) as (Rh & Rm & Rs & Rf).
  unfold format_time. rewrite timedelta_str_day by done.
  destruct (Z.eqb_spec (us mod 1000000) 0) as [?|_]; [done|].
  destruct (str_of_Z_digits (us / 3600000000) (proj1 Rh)) as (Fh & Nh & _).
  destruct (fmt_0d_digits 2 _ (proj1 Rm)) as (Fm & _ & _).
  destruct (fmt_0d_digits 2 _ (proj1 Rs)) as (Fs & _ & _).
  destruct (fmt_0d_digits 6 _ (proj1 Rf)) as (Ff & _ & _).
  assert (Lm : length (fmt_0d 2 (us / 60000000 mod 60)) = 2%nat)
    by (apply fmt_0d_length; cbn; lia).
  assert (Ls : length (fmt_0d 2 (us / 1000000 mod 60)) = 2%nat)
    by (apply fmt_0d_length; cbn; lia).
  assert (Lf : length (fmt_0d 6 (us mod 1000000)) = 6%nat)
    by (apply fmt_0d_length; cbn; lia).
  set (H0 := str_of_Z (us / 3600000000)) in *.
  set (M0 := fmt_0d 2 (us / 60000000 mod 60)) in *.
  set (S0 := fmt_0d 2 (us / 1000000 mod 60)) in *.
  set (F0 := fmt_0d 6 (us mod 1000000)) in *.
  change (py ":") with [":"%char]. change (py ".") with ["."%char].
  change (py ",") with [","%char].
  replace ((H0 ++ [":"%char] ++ M0 ++ [":"%char] ++ S0)
           ++ ["."%char] ++ F0)
    with ((H0 ++ [":"%char] ++ M0 ++ [":"%char] ++ S0 ++ ["."%char]) ++ F0)
    by (by rewrite <- !app_assoc).
  set (P0 := H0 ++ [":"%char] ++ M0 ++ [":"%char] ++ S0 ++ ["."%char]).
  assert (LP : (6 <= length P0)%nat).
  { unfold P0. rewrite !length_app, Lm, Ls. cbn. lia. }
  unfold rjust, drop_last.
  replace (12 - length (P0 ++ F0))%nat with 0%nat
    by (rewrite length_app, Lf; lia).
  cbn [repeat app]. rewrite length_app, Lf.
  replace (length P0 + 6 - 3)%nat with (length P0 + 3)%nat by lia.
  rewrite take_app_add. unfold F0. rewrite take3_fmt6 by done.
  rewrite replace_single, map_app. unfold P0. rewrite !map_app.
  destruct (fmt_0d_digits 3 (us mod 1000000 / 1000)) as (F3 & _ & _).
  { apply Z.div_pos; lia. }
  rewrite (subst_digits _ _ H0), (subst_digits _ _ M0),
    (subst_digits _ _ S0), (subst_digits _ _ (fmt_0d 3 _))
    by (done || apply dot_not_digit).
  cbn [map]. by rewrite <- !app_assoc.
Qed.

Lemma format_time_whole_eq (us : Z) :
  0 <= us < 86400000000 -> us mod 1000000 = 0 ->
  format_time us
  = fmt_0d 6 (us / 3600000000) ++ py ":" ++ fmt_0d 2 (us / 60000000 mod 60).
Proof.
  intros H Hwhole. destruct (time_ranges us H) as (Rh & Rm & Rs & _).
  unfold format_time. rewrite timedelta_str_day, Hwhole by done.
  cbn [Z.eqb]. rewrite app_nil_r.
  destruct (str_of_Z_digits (us / 3600000000) (proj1 Rh)) as (Fh & Nh & Vh).
  destruct (fmt_0d_digits 2 _ (proj1 Rm)) as (Fm & _ & _).
  assert (Lm : length (fmt_0d 2 (us / 60000000 mod 60)) = 2%nat)
    by (apply fmt_0d_length; cbn; lia).
  assert (Ls : length (fmt_0d 2 (us / 1000000 mod 60)) = 2%nat)
    by (apply fmt_0d_length; cbn; lia).
  assert (Lh : (length (str_of_Z (us / 3600000000)) <= 6)%nat).
  { unfold str_of_Z. destruct (Z.ltb_spec (us / 3600000000) 0); [lia|].
    apply str_of_N_length; [lia|]. cbn. lia. }
  rewrite (str_of_Z_fmt 6) by lia.
  set (H0 := str_of_Z (us / 3600000000)) in *.
  set (M0 := fmt_0d 2 (us / 60000000 mod 60)) in *.
  set (S0 := fmt_0d 2 (us / 1000000 mod 60)) in *.
  change (py ":") with [":"%char]. change (py ".") with ["."%char].
  change (py ",") with [","%char].
  unfold rjust, drop_last.
  assert (Llen : length (H0 ++ [":"%char] ++ M0 ++ [":"%char] ++ S0)
                 = (length H0 + 6)%nat)
    by (rewrite !length_app, Lm, Ls; cbn; lia).
  rewrite Llen.
  replace (12 - (length H0 + 6))%nat with (6 - length H0)%nat by lia.
  set (Z0 := repeat "0"%char (6 - length H0)).
  assert (LZ : length Z0 = (6 - length H0)%nat) by apply repeat_length.
  replace (Z0 ++ H0 ++ [":"%char] ++ M0 ++ [":"%char] ++ S0)
    with ((Z0 ++ H0 ++ [":"%char] ++ M0) ++ [":"%char] ++ S0)
    by (by rewrite <- !app_assoc).
  rewrite take_app_length'
    by (rewrite !length_app, LZ, Lm, Ls; cbn; lia).
  rewrite replace_single, !map_app.
  assert (FZ : Forall is_digit Z0).
  { apply Forall_forall. intros x Hx.
    apply list_elem_of_In, repeat_spec in Hx. subst. apply zero_is_digit. }
  rewrite (subst_digits _ _ Z0), (subst_digits _ _ H0),
    (subst_digits _ _ M0) by (done || apply dot_not_digit).
  cbn [map]. by rewrite <- !app_assoc.
Qed.

End FormatTime.

Section ValidateMore.

Lemma plain_digits (l : str) : Forall is_digit l -> Utils.plain l.
Proof.
  intros F. repeat split; apply digits_notin; auto using colon_not_digit,
    comma_not_digit, dot_not_digit.
Qed.

(** Fields of digits are taken for their value, and what follows the
    separator is copied without being looked at. *)
Lemma validate_digit_fields (hh mm ss : str) (sep : ascii) (frac : str) :
  Forall is_digit hh -> hh <> [] -> Forall is_digit mm -> mm <> [] ->
  Forall is_digit ss -> ss <> [] ->
  (dec_value mm < 60)%N -> (dec_value ss < 60)%N ->
  sep = ","%char \/ sep = "."%char -> Utils.plain frac ->
  Utils.validate_timestamp
    (hh ++ py ":" ++ mm ++ py ":" ++ ss ++ sep :: frac)
  = Ok (Some (Utils.normal (Z.of_N (dec_value hh)) (Z.of_N (dec_value mm))
                (Z.of_N (dec_value ss)) (take 3 (ljust 3 "0" frac)))).
Proof.
  intros Fh Nh Fm Nm Fs Ns Rm Rs Hsep (Pf1 & Pf2 & Pf3).
  destruct (plain_digits hh Fh) as (Ph1 & _ & _).
  destruct (plain_digits mm Fm) as (Pm1 & _ & _).
  destruct (plain_digits ss Fs) as (Ps1 & Ps2 & Ps3).
  rewrite validate_timestamp_eq. f_equal.
  unfold Utils.validate_timestamp_closed.
  assert (Hf : Utils.fields (hh ++ py ":" ++ mm ++ py ":" ++ ss ++ sep :: frac)
               = Some (hh, mm, ss ++ sep :: frac)).
  { apply split_three_fields. change (py ":") with [":"%char]. cbn [app].
    apply split_single_three_of; try done.
    intros [H|H]%elem_of_app; [done|].
    apply elem_of_cons in H as [H|H]; [|done].
    destruct Hsep; subst; discriminate. }
  rewrite Hf, !int_digits_string by done.
  rewrite seconds_field_app, int_digits_string by done.
  replace ((0 <=? Z.of_N (dec_value hh))
           && ((0 <=? Z.of_N (dec_value mm)) && (Z.of_N (dec_value mm) <? 60))
           && ((0 <=? Z.of_N (dec_value ss)) && (Z.of_N (dec_value ss) <? 60)))
    with true.
  2: { symmetry. repeat (apply andb_true_iff; split);
       try apply Z.leb_le; try apply Z.ltb_lt; lia. }
  do 2 f_equal. unfold Utils.millis_field, Utils.second_piece.
  change (py ",") with [","%char]. change (py ".") with ["."%char].
  destruct Hsep as [-> | ->].
  - replace (contains [","%char] (ss ++ ","%char :: frac)) with true.
    2: { symmetry. apply contains_single, elem_of_app. right.
         apply elem_of_cons. by left. }
    by rewrite after_first_app, before_first_notin.
  - replace (contains [","%char] (ss ++ "."%char :: frac)) with false.
    2: { symmetry. apply contains_single_false.
         intros [H|H]%elem_of_app; [done|].
         apply elem_of_cons in H as [H|H]; [discriminate|done]. }
    replace (contains ["."%char] (ss ++ "."%char :: frac)) with true.
    2: { symmetry. apply contains_single, elem_of_app. right.
         apply elem_of_cons. by left. }
    by rewrite after_first_app, before_first_notin.
Qed.

Lemma fmt_0d_min_length (w : nat) (z : Z) : (w <= length (fmt_0d w z))%nat.
Proof.
  unfold fmt_0d. destruct (z <? 0); cbn [length];
    rewrite length_app, repeat_length; lia.
Qed.

End ValidateMore.

(** X6. [validate_timestamp] does not look at what follows the comma or
    dot: with hours, minutes and seconds given by digits and in range, any
    text without colon, comma or dot is accepted after the separator, and
    its first three characters, filled up with zeros on the right, become
    the milliseconds; nothing is rounded and nothing has to be a digit. *)
Theorem validate_timestamp_fraction_unchecked
    (hh mm ss : str) (sep : ascii) (frac : str) :
  Forall is_digit hh -> hh <> [] -> Forall is_digit mm -> mm <> [] ->
  Forall is_digit ss -> ss <> [] ->
  (dec_value mm < 60)%N -> (dec_value ss < 60)%N ->
  sep = ","%char \/ sep = "."%char -> Utils.plain frac ->
  Utils.validate_timestamp
    (hh ++ py ":" ++ mm ++ py ":" ++ ss ++ sep :: frac)
  = Ok (Some (Utils.normal (Z.of_N (dec_value hh)) (Z.of_N (dec_value mm))
                (Z.of_N (dec_value ss)) (take 3 (ljust 3 "0" frac)))).
Proof. apply validate_digit_fields. Qed.

Lemma validate_timestamp_fraction_unchecked_witness :
  Utils.validate_timestamp (py "1:2:3,9999") = Ok (Some (py "01:02:03,999"))
  /\ Utils.validate_timestamp (py "1:2:3.x") = Ok (Some (py "01:02:03,x00")).
Proof.
  assert (D : forall c, In c (py "1239") -> is_digit c).
  { intros c Hc. cbn in Hc.
    destruct Hc as [<- | [<- | [<- | [<- | []]]]]; eexists; reflexivity. }
  assert (P : forall t, t = py "9999" \/ t = py "x" -> Utils.plain t).
  { intros t Ht. repeat split; intros Hin; apply list_elem_of_In in Hin;
      destruct Ht as [-> | ->]; cbn in Hin; intuition discriminate. }
  split.
  - apply (validate_timestamp_fraction_unchecked
             (py "1") (py "2") (py "3") ","%char (py "9999"));
      try discriminate; try (cbn; lia); try (by left);
      try (apply P; tauto);
      repeat constructor; apply D; cbn; tauto.
  - apply (validate_timestamp_fraction_unchecked
             (py "1") (py "2") (py "3") "."%char (py "x"));
      try discriminate; try (cbn; lia); try (by right);
      try (apply P; tauto);
      repeat constructor; apply D; cbn; tauto.
Defined.

(** X7. Every timestamp [validate_timestamp] returns has at least the
    twelve characters of [HH:MM:SS,mmm], and exactly twelve when the hours
    are below 100. *)
Theorem validate_timestamp_output_length (s out : str) :
  Utils.validate_timestamp s = Ok (Some out) ->
  (12 <= length out)%nat /\
  exists p0 p1 p2 h,
    Utils.fields s = Some (p0, p1, p2) /\ int p0 = Ok h /\
    (h < 100 -> length out = 12%nat).
Proof.
  intros V. apply validate_some in V
    as (p0 & p1 & p2 & h & m & sec & Hs & H0 & _ & _ & Hh & Hm & Hsec & ->).
  pose proof (millis_field_length p2) as Lms.
  pose proof (fmt_0d_min_length 2 h). pose proof (fmt_0d_min_length 2 m).
  pose proof (fmt_0d_min_length 2 sec).
  unfold Utils.normal. rewrite !length_app, Lms. cbn [py length list_ascii_of_string].
  split; [lia|]. exists p0, p1, p2, h.
  split; [by apply split_three_fields|]. split; [done|]. intros Hlt.
  rewrite !fmt_0d_length by (cbn; lia). done.
Qed.

Lemma validate_timestamp_output_length_witness :
  (12 <= length (py "01:02:03,500"))%nat /\
  exists p0 p1 p2 h,
    Utils.fields (py "1:2:3.5") = Some (p0, p1, p2) /\ int p0 = Ok h /\
    (h < 100 -> length (py "01:02:03,500") = 12%nat).
Proof.
  apply (validate_timestamp_output_length (py "1:2:3.5")). reflexivity.
Defined.

(** X8. For a time below one day with a fraction of a second,
    [format_time] (the rendering of [_process_segments]) gives the hours
    without padding, the minutes and seconds on two digits, a comma and
    the milliseconds cut, not rounded, to three digits. *)
Theorem format_time_fraction (us : Z) :
  0 <= us < 86400000000 -> us mod 1000000 <> 0 ->
  Transcription.format_time us
  = str_of_Z (us / 3600000000) ++ py ":"
    ++ fmt_0d 2 (us / 60000000 mod 60) ++ py ":"
    ++ fmt_0d 2 (us / 1000000 mod 60) ++ py ","
    ++ fmt_0d 3 (us mod 1000000 / 1000).
Proof. apply format_time_fraction_eq. Qed.

Lemma format_time_fraction_witness :
  Transcription.format_time 45296789999 = py "12:34:56,789".
Proof.
  apply (format_time_fraction 45296789999); [lia|]. discriminate.
Defined.

(** X9. For a whole number of seconds below one day, [format_time] gives
    the hours zero-padded to six digits, a colon and the minutes: the
    seconds do not appear, and all the whole seconds of one minute are
    rendered alike. *)
Theorem format_time_whole_seconds (us : Z) :
  0 <= us < 86400000000 -> us mod 1000000 = 0 ->
  Transcription.format_time us
  = fmt_0d 6 (us / 3600000000) ++ py ":" ++ fmt_0d 2 (us / 60000000 mod 60).
Proof. apply format_time_whole_eq. Qed.

Lemma format_time_whole_seconds_witness :
  Transcription.format_time 3723000000 = py "000001:02"
  /\ Transcription.format_time 3724000000 = py "000001:02".
Proof.
  split.
  - apply (format_time_whole_seconds 3723000000); [lia|reflexivity].
  - apply (format_time_whole_seconds 3724000000); [lia|reflexivity].
Defined.

(** X10. What [validate_timestamp] makes of the timestamps of the worker,
    for times below one day: a time with a fraction of a second is accepted
    and comes out in the padded form [HH:MM:SS,mmm]; a whole number of
    seconds gives a text of two colon-separated parts, which is rejected. *)
Theorem validate_timestamp_of_format_time (us : Z) :
  0 <= us < 86400000000 ->
  Utils.validate_timestamp (Transcription.format_time us)
  = if us mod 1000000 =? 0 then Ok None
    else Ok (Some (Utils.normal (us / 3600000000) (us / 60000000 mod 60)
                     (us / 1000000 mod 60)
                     (fmt_0d 3 (us mod 1000000 / 1000)))).
Proof.
  intros H. destruct (time_ranges us H) as (Rh & Rm & Rs & Rf).
  destruct (str_of_Z_digits _ (proj1 Rh)) as (Fh & Nh & Vh).
  destruct (fmt_0d_digits 2 _ (proj1 Rm)) as (Fm & Nm & Vm).
  destruct (fmt_0d_digits 2 _ (proj1 Rs)) as (Fs & Ns & Vs).
  destruct (Z.eqb_spec (us mod 1000000) 0) as [Hw|Hf].
  - rewrite format_time_whole_eq, validate_timestamp_eq by done. f_equal.
    unfold Utils.validate_timestamp_closed, Utils.fields.
    destruct (fmt_0d_digits 6 _ (proj1 Rh)) as (F6 & _ & _).
    change (py ":") with [":"%char]. cbn [app].
    rewrite split_single_app
      by (apply digits_notin; [apply colon_not_digit|done]).
    rewrite split_single_piece
      by (apply digits_notin; [apply colon_not_digit|done]).
    done.
  - rewrite format_time_fraction_eq by done.
    assert (Rq : 0 <= us mod 1000000 / 1000 < 1000).
    { split; [apply Z.div_pos; lia|apply Z.div_lt_upper_bound; lia]. }
    destruct (fmt_0d_digits 3 _ (proj1 Rq)) as (F3 & _ & _).
    change (py ",") with [","%char]. cbn [app].
    rewrite (validate_digit_fields _ _ _ ","%char)
      by (done || (by left) || (by apply plain_digits) || lia).
    rewrite Vh, Vm, Vs, !Z2N.id by lia.
    rewrite pad3_id by (apply fmt_0d_length; cbn; lia). done.
Qed.

Lemma validate_timestamp_of_format_time_witness :
  Utils.validate_timestamp (Transcription.format_time 1500000)
  = Ok (Some (py "00:00:01,500"))
  /\ Utils.validate_timestamp (Transcription.format_time 3000000) = Ok None.
Proof.
  split.
  - apply (validate_timestamp_of_format_time 1500000). lia.
  - apply (validate_timestamp_of_format_time 3000000). lia.
Defined.

(** * More about the worker *)

Section ProcessSegmentsMore.

Import Transcription.
Local Open Scope worker_scope.

Variable translate : bool.
Variable cancel_before : nat -> bool.

(** Below one day the rendering goes through. *)
Lemma time_text_below_one_day (us : Z) :
  0 <= us < 86400000000 -> time_text us = Done (format_time us).
Proof.
  intros H. unfold time_text, timedelta_holds.
  by rewrite Z.div_small by lia.
Qed.

Lemma time_text_held (x : float_time) :
  held x = true -> exists t, time_text x = Done t.
Proof.
  destruct x as [us| |]; cbn [held time_text]; [|done..].
  intros ->. by eexists.
Qed.

Lemma time_text_done (x : float_time) (t : str) :
  time_text x = Done t -> held x = true.
Proof.
  destruct x as [us| |]; cbn [held time_text]; [|done..].
  by destruct (timedelta_holds us).
Qed.

(** The segments [timedelta] holds the times of are those that have a
    record. *)
Lemma timed_normalise (seg : raw_segment) :
  timed seg = true <-> exists record, normalise seg = Done record.
Proof.
  unfold timed, normalise. rewrite andb_true_iff. split.
  - intros [Hs He].
    destruct (time_text_held _ Hs) as [s ->].
    destruct (time_text_held _ He) as [e ->]. by eexists.
  - intros [record H].
    destruct (time_text (raw_start seg)) as [s|] eqn:Es; [|done].
    destruct (time_text (raw_end seg)) as [e|] eqn:Ee; [|done].
    split; by eapply time_text_done.
Qed.

Lemma timed_recorded (raw : list raw_segment) :
  Forall (fun seg => timed seg = true) raw ->
  exists records, recorded raw records.
Proof.
  induction 1 as [|seg rest Hseg _ [records IH]].
  - exists []. constructor.
  - apply timed_normalise in Hseg as [record Hseg].
    exists (record :: records). by constructor.
Qed.

(** The loop returns the empty list with the flag up, or every record, or
    raises what the rendering of a time of one of the segments raises. *)
Lemma process_loop_all_or_nothing (total : nat) (raw : list raw_segment) :
  forall idx segs w,
  match process_loop translate cancel_before total idx raw segs w with
  | (Done out, w') =>
      (out = [] /\ cancelled w' = true)
      \/ exists records, recorded raw records /\ out = segs ++ records
  | (Failed message, _) =>
      exists seg, seg ∈ raw /\ normalise seg = Failed message
  end.
Proof.
  induction raw as [|seg rest IH]; intros idx segs w.
  - cbn. right. exists []. split; [constructor|by rewrite app_nil_r].
  - cbn [process_loop]. unfold wbind at 1. cbn [is_cancelled].
    destruct (cancelled (tick cancel_before w)) eqn:Hc; [left; by split|].
    unfold wbind at 1, raising at 1.
    destruct (time_text (raw_start seg)) as [start_time|message] eqn:Es.
    2: { exists seg. split; [apply elem_of_cons; by left|].
         unfold normalise. by rewrite Es. }
    unfold wbind at 1, raising at 1.
    destruct (time_text (raw_end seg)) as [end_time|message] eqn:Ee.
    2: { exists seg. split; [apply elem_of_cons; by left|].
         unfold normalise. by rewrite Es, Ee. }
    set (record := {| start := start_time; end_ := end_time;
                      text := strip (raw_text seg) |}).
    assert (Hrec : normalise seg = Done record).
    { unfold normalise. by rewrite Es, Ee. }
    unfold wbind at 1.
    destruct translate; cbn [negb wret emit];
      match goal with
      | |- context [process_loop _ _ _ _ _ _ ?w1] =>
          specialize (IH (S idx) (segs ++ [record]) w1);
          destruct (process_loop _ _ _ _ _ _ w1) as [[out|message] w']
      end.
    all: try (destruct IH as [H|(records & Hr & ->)]; [by left|right];
              exists (record :: records); split; [by constructor|];
              by rewrite <- app_assoc).
    all: destruct IH as (seg' & Hin & Hseg'); exists seg';
      (split; [apply elem_of_cons; by right|done]).
Qed.

Section NeverCancelled.

Hypothesis never_cancelled : forall k, cancel_before k = false.

Lemma tick_quiet (w : world) :
  cancelled (tick cancel_before w) = cancelled w
  /\ log (tick cancel_before w) = log w.
Proof. unfold tick. by rewrite never_cancelled. Qed.

Lemma emit_quiet (e : event) (w : world) :
  exists w', emit cancel_before e w = (Done tt, w')
             /\ cancelled w' = cancelled w /\ log w' = log w ++ [e].
Proof.
  destruct (tick_quiet w) as [Hc Hl]. eexists. split; [reflexivity|].
  cbn [cancelled log]. by rewrite Hc, Hl.
Qed.

Lemma is_cancelled_quiet (w : world) :
  exists w', is_cancelled cancel_before w = (Done (cancelled w), w')
             /\ cancelled w' = cancelled w /\ log w' = log w.
Proof.
  destruct (tick_quiet w) as [Hc Hl]. eexists. split; [|by split].
  unfold is_cancelled. by rewrite Hc.
Qed.

(** The log of the loop while nothing cancels. *)
Lemma process_loop_log (total : nat) (raw : list raw_segment)
    (records : list (segment str)) :
  recorded raw records ->
  forall idx segs w,
  cancelled w = false ->
  exists w',
    process_loop translate cancel_before total idx raw segs w
    = (Done (segs ++ records), w')
    /\ cancelled w' = false
    /\ log w'
       = log w ++ (if translate then []
                   else segment_progress total <$> seq idx (length raw)).
Proof.
  induction 1 as [|seg record rest records' Hseg _ IH]; intros idx segs w Hw.
  - exists w. cbn [process_loop wret length seq fmap list_fmap].
    split; [by rewrite app_nil_r|]. split; [done|].
    destruct translate; by rewrite app_nil_r.
  - apply normalise_done in Hseg as (Hs & He & Hr).
    cbn [process_loop]. unfold wbind at 1.
    destruct (is_cancelled_quiet w) as (w1 & -> & Hc1 & Hl1).
    rewrite Hw.
    unfold wbind at 1, raising at 1. rewrite Hs.
    unfold wbind at 1, raising at 1. rewrite He.
    rewrite <- Hr. unfold wbind at 1.
    destruct translate eqn:Ht; cbn [negb].
    + cbn [wret].
      destruct (IH (S idx) (segs ++ [record]) w1) as (w' & -> & Hc & Hl);
        [congruence|].
      exists w'. split; [by rewrite <- app_assoc|]. split; [done|].
      by rewrite Hl, Hl1.
    + match goal with
      | |- context [emit cancel_before ?e w1] =>
          destruct (emit_quiet e w1) as (w2 & -> & Hc2 & Hl2)
      end.
      destruct (IH (S idx) (segs ++ [record]) w2) as (w' & -> & Hc & Hl);
        [congruence|].
      exists w'. split; [by rewrite <- app_assoc|]. split; [done|].
      rewrite Hl, Hl2, Hl1, <- app_assoc. done.
Qed.

(** The loop raises at the first segment that has no record. *)
Lemma process_loop_raises (total : nat) (good : list raw_segment)
    (records : list (segment str)) (bad : raw_segment)
    (rest : list raw_segment) (message : str) :
  recorded good records ->
  normalise bad = Failed message ->
  forall idx segs w,
  cancelled w = false ->
  (process_loop translate cancel_before total idx (good ++ bad :: rest)
     segs w).1
  = Failed message.
Proof.
  intros Hgood Hbad.
  induction Hgood as [|seg record good' records' Hseg _ IH];
    intros idx segs w Hw; cbn [app process_loop]; unfold wbind at 1;
    destruct (is_cancelled_quiet w) as (w1 & -> & Hc1 & Hl1); rewrite Hw.
  - unfold normalise in Hbad. unfold wbind at 1, raising at 1.
    destruct (time_text (raw_start bad)) as [start_time|m];
      [|cbn; congruence].
    unfold wbind at 1, raising at 1.
    destruct (time_text (raw_end bad)) as [end_time|m];
      [done|cbn; congruence].
  - apply normalise_done in Hseg as (Hs & He & Hr).
    unfold wbind at 1, raising at 1. rewrite Hs.
    unfold wbind at 1, raising at 1. rewrite He.
    unfold wbind at 1.
    destruct translate eqn:Ht; cbn [negb].
    + cbn [wret]. apply IH. congruence.
    + match goal with
      | |- context [emit cancel_before ?e w1] =>
          destruct (emit_quiet e w1) as (w2 & -> & Hc2 & Hl2)
      end.
      apply IH. congruence.
Qed.

End NeverCancelled.

Lemma segment_percent_mono (n i j : nat) :
  (i <= j)%nat -> segment_percent n i <= segment_percent n j.
Proof.
  intros H. unfold segment_percent.
  destruct n as [|n]; [by rewrite !Z.div_0_r|].
  apply Z.add_le_mono_l, Z.div_le_mono; lia.
Qed.

Lemma segment_percent_last (n : nat) :
  (0 < n)%nat -> segment_percent n (n - 1) = 95.
Proof.
  intros H. unfold segment_percent.
  replace (Z.of_nat (n - 1 + 1)) with (Z.of_nat n) by lia.
  rewrite Z.mul_comm, Z.div_mul by lia. done.
Qed.

End ProcessSegmentsMore.

(** X11. [_process_segments] never returns a part of the segments.
    Whenever the main thread cancels, it returns the empty list, with the
    flag up, or the record of every raw segment, in order, with the text
    stripped; or it raises, and then with the exception [timedelta]
    raises on the start or the end of one of the segments (a time it does
    not hold, an infinity or a NaN). When [timedelta] holds every time, it
    does not raise. *)
Theorem process_segments_all_or_nothing
    (translate : bool) (cancel_before : nat -> bool)
    (raw : list Transcription.raw_segment) (w : Transcription.world) :
  let r := Transcription._process_segments translate cancel_before raw w in
  match r.1 with
  | Transcription.Done out =>
      (out = [] /\ Transcription.cancelled r.2 = true)
      \/ Transcription.recorded raw out
  | Transcription.Failed message =>
      (exists seg, seg ∈ raw
                   /\ Transcription.normalise seg
                      = Transcription.Failed message)
      /\ ~ Forall (fun seg => Transcription.timed seg = true) raw
  end.
Proof.
  intros r. subst r. unfold Transcription._process_segments.
  pose proof (process_loop_all_or_nothing translate cancel_before
                (length raw) raw 0%nat [] w) as H.
  destruct (Transcription.process_loop _ _ _ _ _ _ _) as [[out|m] w'].
  - destruct H as [H|(records & Hr & ->)]; [by left|by right].
  - split; [exact H|]. destruct H as (seg & Hin & Hseg).
    intros F. rewrite Forall_forall in F.
    apply F, timed_normalise in Hin as [record Hrec]. congruence.
Qed.

(** X12. While nothing cancels and [timedelta] holds the times of every
    segment, [_process_segments] emits nothing when translating and
    otherwise one progress per segment, in order, after segment [i] (from
    0) of [n] the percentage [65 + (i + 1) * 30 / n]: the percentages
    never decrease and the last one is 95. *)
Theorem process_segments_progress
    (translate : bool) (cancel_before : nat -> bool)
    (raw : list Transcription.raw_segment) (w : Transcription.world) :
  (forall k, cancel_before k = false) ->
  Transcription.cancelled w = false ->
  Forall (fun seg => Transcription.timed seg = true) raw ->
  let n := length raw in
  Transcription.log
    (Transcription._process_segments translate cancel_before raw w).2
  = Transcription.log w
    ++ (if translate then []
        else Transcription.segment_progress n <$> seq 0 n)
  /\ (forall i j, (i <= j)%nat ->
        Transcription.segment_percent n i <= Transcription.segment_percent n j)
  /\ ((0 < n)%nat -> Transcription.segment_percent n (n - 1) = 95).
Proof.
  intros Hn Hw Ht n. split; [|split].
  - unfold Transcription._process_segments.
    destruct (timed_recorded raw Ht) as [records Hr].
    destruct (process_loop_log translate cancel_before Hn (length raw) raw
                records Hr 0%nat [] w Hw) as (w' & -> & _ & Hl).
    exact Hl.
  - apply segment_percent_mono.
  - apply segment_percent_last.
Qed.

Lemma process_segments_progress_witness :
  let raw := [ Transcription.RawSegment 1500000 3000000 (py " Hi ");
               Transcription.RawSegment 3000000 4250000 (py "there");
               Transcription.RawSegment 4250000 5000000 (py "all") ] in
  Transcription.log
    (Transcription._process_segments false (fun _ => false) raw
       Transcription.initial).2
  = [ Transcription.progress_update 75 (py "Processing segment 1/3");
      Transcription.progress_update 85 (py "Processing segment 2/3");
      Transcription.progress_update 95 (py "Processing segment 3/3") ].
Proof.
  intros raw.
  refine (proj1 (process_segments_progress false (fun _ => false) raw
                   Transcription.initial (fun _ => eq_refl) eq_refl _)).
  repeat constructor.
Defined.

Section Batches.

Import Transcription.

Lemma batches_upto (total step n : nat) :
  (0 < step)%nat ->
  concat ((fun k => batch_indices total step (k * step)) <$> seq 0 n)
  = seq 0 (Nat.min (n * step) total).
Proof.
  intros Hs. induction n as [|n IH]; [done|].
  rewrite seq_S, fmap_app, concat_app, IH. cbn [fmap list_fmap concat].
  change (0 + n)%nat with n. rewrite ?app_nil_r. unfold batch_indices.
  destruct (Nat.le_gt_cases total (n * step)) as [Hle|Hgt].
  - replace (Nat.min (n * step + step) total - n * step)%nat with 0%nat by lia.
    cbn [seq]. rewrite app_nil_r. f_equal. lia.
  - replace (Nat.min (n * step) total) with (n * step)%nat by lia.
    replace (Nat.min (S n * step) total)
      with (n * step + (Nat.min (n * step + step) total - n * step))%nat
      by lia.
    by rewrite seq_app.
Qed.

Lemma batch_count_covers (total step : nat) :
  (0 < step)%nat -> (total <= (total + step - 1) / step * step)%nat.
Proof.
  intros Hs.
  pose proof (Nat.div_mod (total + step - 1) step) as Hd.
  pose proof (Nat.mod_upper_bound (total + step - 1) step) as Hm.
  nia.
Qed.

Lemma batch_count_bound (total : nat) :
  let step := Nat.max 5 (total / 10) in
  ((total + step - 1) / step <= 12)%nat.
Proof.
  intros step.
  assert (Hs : (0 < step)%nat) by (unfold step; lia).
  apply Nat.lt_succ_r, Nat.Div0.div_lt_upper_bound.
  pose proof (Nat.div_mod total 10) as Hd.
  pose proof (Nat.mod_upper_bound total 10) as Hm.
  unfold step in *. destruct (Nat.max_spec 5 (total / 10)) as [[H1 ->]|[H1 ->]]; nia.
Qed.

End Batches.

(** X13. The batches of [_translate_segments] split the segments without
    gap or overlap: put end to end in the order of the loop, the indices
    of the batches are 0, 1, ... up to the number of texts; and there are
    at most twelve batches with the batch size the worker takes. *)
Theorem translate_batches_partition (total_texts batch_size : nat) :
  (0 < batch_size)%nat ->
  concat (Transcription.batch_indices total_texts batch_size
            <$> Transcription.batch_starts total_texts batch_size)
  = seq 0 total_texts
  /\ (length (Transcription.batch_starts total_texts
                (Nat.max 5 (total_texts / 10))) <= 12)%nat.
Proof.
  intros Hs. split.
  - unfold Transcription.batch_starts. rewrite <- list_fmap_compose.
    change (Transcription.batch_indices total_texts batch_size
            ∘ (fun k => k * batch_size)%nat)
      with (fun k => Transcription.batch_indices total_texts batch_size
                       (k * batch_size)).
    rewrite batches_upto by done. f_equal.
    pose proof (batch_count_covers total_texts batch_size Hs). lia.
  - unfold Transcription.batch_starts. rewrite length_fmap, length_seq.
    apply batch_count_bound.
Qed.

Lemma translate_batches_partition_witness :
  concat (Transcription.batch_indices 12 5
            <$> Transcription.batch_starts 12 5)
  = seq 0 12
  /\ (length (Transcription.batch_starts 12 (Nat.max 5 (12 / 10))) <= 12)%nat.
Proof. apply (translate_batches_partition 12 5). lia. Defined.

Section TranslateSegmentsMore.

Import Transcription.
Local Open Scope worker_scope.

Variable target_language : option str.
Variable net : nat -> nat -> network.
Variable as_completed : nat -> list (nat * str) -> list (nat * str).
Variable cancel_before : nat -> bool.
Hypothesis as_completed_perm : forall i l, Permutation (as_completed i l) l.
Hypothesis all_decline : forall i j url data, declines (net i j url data).

Lemma translate_batch_declined (i : nat) (batch : list str) (target : str) :
  translate_batch (net i) (as_completed i) batch target = VStr <$> batch.
Proof.
  apply translate_batch_ext; [apply as_completed_perm|by rewrite length_fmap|].
  intros k t Hk. rewrite list_lookup_fmap, Hk. cbn.
  destruct (nonblank t) eqn:Hb; [|done].
  rewrite translate_text_nonblank by done.
  rewrite try_servers_declined; [done|]. intros s _. apply all_decline.
Qed.

(** Assigning to each segment the text it has leaves the list as it is. *)
Lemma assign_same (segs : list (segment value)) (pairs : list (nat * nat))
    (translated_batch : list value) :
  Forall (fun '(j, idx) =>
            exists seg, segs !! idx = Some seg
                        /\ translated_batch !! j = Some (text seg)) pairs ->
  assign segs pairs translated_batch = Done segs.
Proof.
  induction 1 as [|[j idx] rest (seg & Hseg & Hx) _ IH]; [done|].
  cbn [assign]. rewrite Hseg, Hx.
  replace (<[idx := {| start := start seg; end_ := end_ seg;
                       text := text seg |}]> segs) with segs; [done|].
  symmetry. apply list_insert_id. rewrite Hseg. by destruct seg.
Qed.

Lemma batch_assign_same (segs0 : list (segment str)) (i batch_size : nat) :
  assign (as_value <$> segs0)
    (enumerate 0
       (seq i (Nat.min (i + batch_size) (length (text <$> segs0)) - i)))
    (VStr <$> take batch_size (drop i (text <$> segs0)))
  = Done (as_value <$> segs0).
Proof.
  apply assign_same, Forall_forall. intros [j idx] H.
  apply elem_of_enumerate in H as [_ H]. rewrite Nat.sub_0_r in H.
  apply lookup_seq in H as [-> H]. rewrite length_fmap in H.
  destruct (lookup_lt_is_Some_2 segs0 (i + j)) as [seg Hseg]; [lia|].
  exists (as_value seg). split.
  - by rewrite list_lookup_fmap, Hseg.
  - rewrite list_lookup_fmap, lookup_take_lt, lookup_drop, list_lookup_fmap,
      Hseg by lia. done.
Qed.

Lemma translate_loop_declined (target : str) (segs0 : list (segment str))
    (batch_size : nat) (starts : list nat) :
  triple (fun _ => True)
    (translate_loop net as_completed cancel_before target (text <$> segs0)
                    batch_size starts (as_value <$> segs0))
    (fun r w => match r with
                | None => cancelled w = true
                | Some out => out = as_value <$> segs0
                end)
    (fun _ => False).
Proof.
  induction starts as [|i rest IH]; cbn [translate_loop].
  - by intros w _.
  - eapply (triple_bind _ _ (fun c w => c = cancelled w)).
    { by intros w _. }
    intros [|]; [intros w Hc; cbn; congruence|].
    eapply (triple_bind _ _ (fun _ _ => True)).
    { by intros w _. }
    intros _. rewrite translate_batch_declined, batch_assign_same.
    apply IH.
Qed.

Lemma translate_segments_declined (segs : list (segment str)) :
  triple (fun _ => True)
    (_translate_segments target_language net as_completed cancel_before segs)
    (fun out w => (out = [] /\ cancelled w = true)
                  \/ out = as_value <$> segs)
    (fun _ => False).
Proof.
  unfold _translate_segments.
  eapply (triple_bind _ _ (fun _ _ => True)); [by intros w _|]. intros _.
  eapply triple_bind; [apply translate_loop_declined|].
  intros [out|].
  - eapply (triple_bind _ _ (fun _ _ => out = as_value <$> segs)).
    { by intros w H. }
    intros _ w H. by right.
  - intros w H. by left.
Qed.

End TranslateSegmentsMore.

(** X14. With every server declining, [_translate_segments] changes
    nothing: unless it is cancelled, in which case it returns the empty
    list, it returns the segments it was given, texts included. *)
Theorem translate_segments_all_decline
    (target_language : option str)
    (net : nat -> nat -> Transcription.network)
    (as_completed : nat -> list (nat * str) -> list (nat * str))
    (cancel_before : nat -> bool)
    (segs : list (segment str)) (w : Transcription.world) :
  (forall i l, Permutation (as_completed i l) l) ->
  (forall i j url data, Transcription.declines (net i j url data)) ->
  let r := Transcription._translate_segments
             target_language net as_completed cancel_before segs w in
  exists out,
    r.1 = Transcription.Done out /\
    ((out = [] /\ Transcription.cancelled r.2 = true)
     \/ out = Transcription.as_value <$> segs).
Proof.
  intros Hp Hd r. subst r.
  pose proof (translate_segments_declined target_language net as_completed
                cancel_before Hp Hd segs w I) as H.
  destruct (Transcription._translate_segments _ _ _ _ _ _)
    as [[out|message] w']; [|done].
  by exists out.
Qed.

Lemma translate_segments_all_decline_witness :
  let segs := [ {| start := py "0:00:01,500"; end_ := py "0:00:03,250";
                   text := py "Hi" |};
                {| start := py "0:00:03,250"; end_ := py "0:00:04,500";
                   text := py "there" |} ] in
  let r := Transcription._translate_segments (Some (py "fr"))
             (fun _ _ _ _ => Transcription.NoResponse) (fun _ l => l)
             (fun _ => false) segs Transcription.initial in
  exists out,
    r.1 = Transcription.Done out /\
    ((out = [] /\ Transcription.cancelled r.2 = true)
     \/ out = Transcription.as_value <$> segs).
Proof.
  intros segs r.
  apply (translate_segments_all_decline (Some (py "fr"))
           (fun _ _ _ _ => Transcription.NoResponse) (fun _ l => l)
           (fun _ => false) segs Transcription.initial).
  - intros i l. reflexivity.
  - intros i j url data. exact I.
Defined.

(** * The signals of a run *)

Section LogInvariant.

Import Transcription.
Local Open Scope worker_scope.

Variable cancel_before : nat -> bool.
Variable good : event -> Prop.
Hypothesis good_cancel : good cancel_message.

Lemma tick_good (w : world) :
  log_all good w -> log_all good (tick cancel_before w).
Proof.
  intros H. unfold tick, log_all.
  destruct (cancel_before (clock w)); [|done].
  cbn. apply Forall_app. split; [done|]. by constructor.
Qed.

Lemma emit_good (e : event) :
  good e ->
  triple (log_all good) (emit cancel_before e) (fun _ => log_all good)
         (fun _ => False).
Proof.
  intros He w Hw. cbn. unfold log_all. cbn [log].
  apply Forall_app. split; [by apply tick_good|by constructor].
Qed.

Lemma is_cancelled_good :
  triple (log_all good) (is_cancelled cancel_before)
         (fun c w => log_all good w /\ c = cancelled w) (fun _ => False).
Proof. intros w Hw. cbn. split; [by apply tick_good|done]. Qed.

Lemma good_emit {B} (e : event) (k : W B) (Q : B -> world -> Prop)
    (E : world -> Prop) :
  good e -> triple (log_all good) k Q E ->
  triple (log_all good) (wbind (emit cancel_before e) (fun _ => k)) Q E.
Proof.
  intros He Hk. eapply triple_bind; [|intros a; exact Hk].
  eapply triple_weaken; [by apply emit_good|done|done|by intros w []].
Qed.

Lemma good_check {B} (k : bool -> W B) (Q : B -> world -> Prop)
    (E : world -> Prop) :
  (forall c, triple (fun w => log_all good w /\ c = cancelled w) (k c) Q E) ->
  triple (log_all good) (wbind (is_cancelled cancel_before) k) Q E.
Proof.
  intros Hk. eapply triple_bind; [|exact Hk].
  eapply triple_weaken; [apply is_cancelled_good|done|done|done].
Qed.

Lemma select_model_size_good (gpu_total_memory : option Z) :
  (forall message, good (progress_update 15 message)) ->
  triple (log_all good) (_select_model_size gpu_total_memory cancel_before)
         (fun _ => log_all good) (fun _ => False).
Proof.
  intros H15. unfold _select_model_size.
  destruct gpu_total_memory; (apply good_emit; [apply H15|by intros w Hw]).
Qed.

End LogInvariant.

Section RunSignals.

Import Transcription.
Local Open Scope worker_scope.

Variable audio_path : str.
Variable source_language : str.
Variable translate : bool.
Variable target_language : option str.
Variable gpu_total_memory : option Z.
Variable load_model : str -> option str.
Variable transcribe : str -> option str -> outcome transcription.
Variable net : nat -> nat -> network.
Variable as_completed : nat -> list (nat * str) -> list (nat * str).
Variable cancel_before : nat -> bool.

Lemma process_loop_progress (total : nat) (raw : list raw_segment) :
  forall idx segs,
  triple (log_all is_progress)
         (process_loop translate cancel_before total idx raw segs)
         (fun _ => log_all is_progress) (log_all is_progress).
Proof.
  induction raw as [|seg rest IH]; intros idx segs; cbn [process_loop].
  - by intros w H.
  - apply good_check; [done|]. intros c.
    apply (triple_pre _ (log_all is_progress)); [by intros w [H _]|].
    destruct c; [by intros w H|].
    eapply triple_bind; [apply triple_raising|]. intros start_time.
    eapply triple_bind; [apply triple_raising|]. intros end_time.
    eapply (triple_bind _ _ (fun _ => log_all is_progress)); [|intros a; apply IH].
    destruct translate; cbn [negb]; [by intros w H|].
    eapply triple_weaken;
      [apply (emit_good cancel_before is_progress I); exact I
      |done|by intros a w H|by intros w []].
Qed.

Lemma translate_loop_progress (target : str) (texts : list str)
    (batch_size : nat) (starts : list nat) :
  forall segs,
  triple (log_all is_progress)
    (translate_loop net as_completed cancel_before target texts batch_size
                    starts segs)
    (fun _ => log_all is_progress) (log_all is_progress).
Proof.
  induction starts as [|i rest IH]; intros segs; cbn [translate_loop].
  - by intros w H.
  - apply good_check; [done|]. intros c.
    apply (triple_pre _ (log_all is_progress)); [by intros w [H _]|].
    destruct c; [by intros w H|].
    apply good_emit; [done|done|].
    destruct (assign _ _ _); [apply IH|by intros w H].
Qed.

Lemma translate_segments_progress (segs : list (segment str)) :
  triple (log_all is_progress)
    (_translate_segments target_language net as_completed cancel_before segs)
    (fun _ => log_all is_progress) (log_all is_progress).
Proof.
  unfold _translate_segments. apply good_emit; [done|done|].
  eapply triple_bind; [apply translate_loop_progress|].
  intros [out|]; [|by intros w H].
  apply good_emit; [done|done|by intros w H].
Qed.

(** [run_main] emits progress signals only, and returns early only with
    the flag up. *)
Lemma run_main_progress :
  triple (log_all is_progress)
    (run_main audio_path source_language translate target_language
              gpu_total_memory load_model transcribe net as_completed
              cancel_before)
    (fun r w => log_all is_progress w /\ (r = None -> cancelled w = true))
    (log_all is_progress).
Proof.
  set (Q := fun (r : option (list (segment value))) (w : world) =>
              log_all is_progress w /\ (r = None -> cancelled w = true)).
  assert (Hnone : triple
            (fun w => log_all is_progress w /\ true = cancelled w)
            (wret None) Q (log_all is_progress)).
  { intros w [Hw Hc]. by split. }
  assert (Hdrop : forall (c : bool) B (m : W B) Q',
            triple (log_all is_progress) m Q' (log_all is_progress) ->
            triple (fun w => log_all is_progress w /\ c = cancelled w) m Q'
                   (log_all is_progress)).
  { intros c B m Q' H. apply (triple_pre _ (log_all is_progress)); [|done].
    by intros w [Hw _]. }
  unfold run_main.
  apply good_emit; [done|done|].
  eapply triple_bind.
  { eapply triple_weaken;
      [by apply (select_model_size_good cancel_before is_progress I)
      |done|by intros a w H|by intros w []]. }
  intros model_size.
  apply good_emit; [done|done|].
  eapply (triple_bind _ _ (fun _ => log_all is_progress)).
  { destruct (load_model model_size); by intros w H. }
  intros _.
  apply good_check; [done|]. intros [|]; [exact Hnone|]. apply Hdrop.
  apply good_emit; [done|done|].
  eapply (triple_bind _ _ (fun _ => log_all is_progress)).
  { destruct (negb _); (apply good_emit; [done|done|by intros w H]). }
  intros lang.
  eapply (triple_bind _ _ (fun _ => log_all is_progress)).
  { intros w Hw. by destruct (transcribe audio_path lang). }
  intros res.
  apply good_check; [done|]. intros [|]; [exact Hnone|]. apply Hdrop.
  apply good_emit; [done|done|].
  apply good_emit; [done|done|].
  eapply (triple_bind _ _ (fun _ => log_all is_progress)).
  { destruct (segments res); by intros w H. }
  intros raw.
  eapply triple_bind; [apply process_loop_progress|]. intros segs.
  apply good_check; [done|]. intros [|]; [exact Hnone|]. apply Hdrop.
  destruct (translation_wanted translate target_language).
  - eapply triple_bind; [apply translate_segments_progress|]. intros out.
    apply good_check; [done|]. intros [|]; [exact Hnone|].
    intros w [Hw _]. by split.
  - intros w Hw. by split.
Qed.

(** [run] by the three ways [run_main] ends. *)
Lemma run_cases (w : world) :
  run audio_path source_language translate target_language
      gpu_total_memory load_model transcribe net as_completed
      cancel_before w
  = match run_main audio_path source_language translate target_language
            gpu_total_memory load_model transcribe net as_completed
            cancel_before w with
    | (Done (Some segs), w1) => run_final cancel_before segs w1
    | (Done None, w1) => (Done tt, w1)
    | (Failed message, w1) =>
        emit cancel_before
          (error_occurred (py "Transcription error: " ++ message)) w1
    end.
Proof.
  unfold run, try_except. unfold wbind at 1.
  by destruct (run_main _ _ _ _ _ _ _ _ _ _ _) as [[[segs|]|message] w1].
Qed.

End RunSignals.


(** * The errors of a run *)

Section RunErrors.

Import Transcription.
Local Open Scope worker_scope.

Variable audio_path : str.
Variable source_language : str.
Variable translate : bool.
Variable target_language : option str.
Variable gpu_total_memory : option Z.
Variable load_model : str -> option str.
Variable transcribe : str -> option str -> outcome transcription.
Variable net : nat -> nat -> network.
Variable as_completed : nat -> list (nat * str) -> list (nat * str).
Variable cancel_before : nat -> bool.

Variable bound : Z.
Hypothesis bound_pos : 0 <= bound.

Local Abbreviation low := (log_all (progress_at_most bound)).

Lemma low_cancel : progress_at_most bound cancel_message.
Proof. exact bound_pos. Qed.

Lemma emit_low (percent : Z) (message : str) (w : world) :
  percent <= bound -> low w ->
  exists w', emit cancel_before (progress_update percent message) w
             = (Done tt, w') /\ low w'.
Proof.
  intros Hp Hw. eexists. split; [reflexivity|].
  exact (emit_good cancel_before _ low_cancel
           (progress_update percent message) Hp w Hw).
Qed.

Lemma is_cancelled_low (w : world) :
  low w ->
  exists w', is_cancelled cancel_before w = (Done (cancelled w'), w')
             /\ low w'.
Proof.
  intros Hw. eexists. split; [reflexivity|].
  by apply tick_good; [apply low_cancel|].
Qed.

Lemma select_model_size_low (w : world) :
  15 <= bound -> low w ->
  exists model_size w',
    _select_model_size gpu_total_memory cancel_before w
    = (Done model_size, w') /\ low w'.
Proof.
  intros Hb Hw. unfold _select_model_size.
  destruct gpu_total_memory; unfold wbind;
    match goal with
    | |- context [emit cancel_before (progress_update 15 ?m) w] =>
        destruct (emit_low 15 m w Hb Hw) as (w' & -> & Hw')
    end; by eexists _, _.
Qed.

Lemma language_low (w : world) :
  35 <= bound -> low w ->
  exists w',
    (if negb (bool_decide (source_language = py "auto"))
     then
       emit cancel_before
            (progress_update 35
               (py "Transcribing with language: " ++ source_language));;
       wret (Some source_language)
     else
       emit cancel_before
            (progress_update 35 (py "Detecting language automatically..."));;
       wret None) w
    = (Done (if bool_decide (source_language = py "auto")
             then None else Some source_language), w')
    /\ low w'.
Proof.
  intros Hb Hw. destruct (bool_decide _); cbn [negb]; unfold wbind;
    match goal with
    | |- context [emit cancel_before (progress_update 35 ?m) w] =>
        destruct (emit_low 35 m w Hb Hw) as (w' & -> & Hw')
    end; by eexists.
Qed.

End RunErrors.

Ltac low_emit Hw :=
  unfold Transcription.wbind at 1;
  let b := match type of Hw with
           | Transcription.log_all (Transcription.progress_at_most ?b) _ => b
           end in
  match goal with
  | |- context [Transcription.emit ?cb
                  (Transcription.progress_update ?p ?m) ?w] =>
      let w' := fresh "w" in
      let H := fresh "Hw" in
      destruct (emit_low cb b ltac:(lia) p m w ltac:(lia) Hw)
        as (w' & -> & H);
      cbv beta iota; clear Hw; rename H into Hw
  end.

Ltac low_select Hw :=
  unfold Transcription.wbind at 1;
  let b := match type of Hw with
           | Transcription.log_all (Transcription.progress_at_most ?b) _ => b
           end in
  match goal with
  | |- context [Transcription._select_model_size ?gpu ?cb ?w] =>
      let size := fresh "model_size" in
      let w' := fresh "w" in
      let H := fresh "Hw" in
      destruct (select_model_size_low gpu cb b ltac:(lia) w ltac:(lia) Hw)
        as (size & w' & -> & H);
      cbv beta iota; clear Hw; rename H into Hw
  end.

Ltac low_check Hw Hc :=
  unfold Transcription.wbind at 1;
  let b := match type of Hw with
           | Transcription.log_all (Transcription.progress_at_most ?b) _ => b
           end in
  match goal with
  | |- context [Transcription.is_cancelled ?cb ?w] =>
      let w' := fresh "w" in
      let H := fresh "Hw" in
      destruct (is_cancelled_low cb b ltac:(lia) w Hw) as (w' & -> & H);
      cbv beta iota; clear Hw; rename H into Hw;
      destruct (Transcription.cancelled w') eqn:Hc
  end.

Ltac low_language Hw :=
  unfold Transcription.wbind at 1;
  let b := match type of Hw with
           | Transcription.log_all (Transcription.progress_at_most ?b) ?w => b
           end in
  let w := match type of Hw with
           | Transcription.log_all _ ?w => w
           end in
  match goal with
  | |- context [Transcription.emit ?cb
                  (Transcription.progress_update 35
                     (py "Transcribing with language: " ++ ?sl))] =>
      let w' := fresh "w" in
      let H := fresh "Hw" in
      destruct (language_low sl cb b ltac:(lia) w ltac:(lia) Hw)
        as (w' & -> & H);
      cbv beta iota; clear Hw; rename H into Hw
  end.

Section RunErrorCases.

Import Transcription.
Local Open Scope worker_scope.

Variable audio_path : str.
Variable source_language : str.
Variable translate : bool.
Variable target_language : option str.
Variable gpu_total_memory : option Z.
Variable load_model : str -> option str.
Variable transcribe : str -> option str -> outcome transcription.
Variable net : nat -> nat -> network.
Variable as_completed : nat -> list (nat * str) -> list (nat * str).
Variable cancel_before : nat -> bool.

Local Abbreviation run_main' :=
  (run_main audio_path source_language translate target_language
            gpu_total_memory load_model transcribe net as_completed
            cancel_before).

Lemma run_main_load_failure (message : str) (w : world) :
  (forall model_size, load_model model_size = Some message) ->
  log_all (progress_at_most 15) w ->
  exists w', run_main' w = (Failed message, w')
             /\ log_all (progress_at_most 15) w'.
Proof.
  intros Hload Hw. unfold run_main.
  low_emit Hw. low_select Hw. low_emit Hw.
  unfold wbind at 1. rewrite Hload. unfold wraise.
  by eexists.
Qed.

Lemma run_main_transcribe_failure (message : str) (w : world) :
  (forall model_size, load_model model_size = None) ->
  transcribe audio_path
    (if bool_decide (source_language = py "auto")
     then None else Some source_language) = Failed message ->
  log_all (progress_at_most 35) w ->
  exists r w',
    run_main' w = (r, w') /\
    log_all (progress_at_most 35) w' /\
    ((r = Done None /\ cancelled w' = true) \/ r = Failed message).
Proof.
  intros Hload Htr Hw. unfold run_main.
  low_emit Hw. low_select Hw. low_emit Hw.
  unfold wbind at 1. rewrite Hload. unfold wret at 1. cbv beta iota.
  low_check Hw Hc; [eexists _, w3; split; [reflexivity|]; split; [done|by left]|].
  low_emit Hw. low_language Hw.
  unfold wbind at 1. rewrite Htr.
  eexists _, w5. split; [reflexivity|]. split; [done|by right].
Qed.

Lemma run_main_no_segments (res : transcription) (w : world) :
  (forall model_size, load_model model_size = None) ->
  transcribe audio_path
    (if bool_decide (source_language = py "auto")
     then None else Some source_language) = Done res ->
  segments res = None ->
  log_all (progress_at_most 65) w ->
  exists r w',
    run_main' w = (r, w') /\
    log_all (progress_at_most 65) w' /\
    ((r = Done None /\ cancelled w' = true) \/ r = Failed (py "'segments'")).
Proof.
  intros Hload Htr Hseg Hw. unfold run_main.
  low_emit Hw. low_select Hw. low_emit Hw.
  unfold wbind at 1. rewrite Hload. unfold wret at 1. cbv beta iota.
  low_check Hw Hc; [eexists _, w3; split; [reflexivity|]; split; [done|by left]|].
  low_emit Hw. low_language Hw.
  unfold wbind at 1. rewrite Htr.
  low_check Hw Hc'; [eexists _, w6; split; [reflexivity|]; split; [done|by left]|].
  low_emit Hw. low_emit Hw.
  unfold wbind at 1. rewrite Hseg. unfold wraise at 1.
  eexists _, w8. split; [reflexivity|]. split; [done|by right].
Qed.

End RunErrorCases.







(** * A run that nothing cancels *)

Section RunQuiet.

Import Transcription.
Local Open Scope worker_scope.

Variable audio_path : str.
Variable source_language : str.
Variable translate : bool.
Variable target_language : option str.
Variable gpu_total_memory : option Z.
Variable load_model : str -> option str.
Variable transcribe : str -> option str -> outcome transcription.
Variable net : nat -> nat -> network.
Variable as_completed : nat -> list (nat * str) -> list (nat * str).
Variable cancel_before : nat -> bool.
Hypothesis never_cancelled : forall k, cancel_before k = false.

Lemma emit_eq (e : event) (w : world) :
  emit cancel_before e w
  = (Done tt, {| cancelled := cancelled w; clock := S (clock w);
                 log := log w ++ [e] |}).
Proof. unfold emit, tick. by rewrite never_cancelled. Qed.

Lemma is_cancelled_eq (w : world) :
  is_cancelled cancel_before w
  = (Done (cancelled w),
     {| cancelled := cancelled w; clock := S (clock w); log := log w |}).
Proof. unfold is_cancelled, tick. by rewrite never_cancelled. Qed.

Lemma select_model_size_eq (w : world) :
  exists model_size notice,
    _select_model_size gpu_total_memory cancel_before w
    = (Done model_size,
       {| cancelled := cancelled w; clock := S (clock w);
          log := log w ++ [progress_update 15 notice] |}).
Proof.
  unfold _select_model_size.
  destruct gpu_total_memory; unfold wbind; rewrite emit_eq; by eexists _, _.
Qed.

Lemma language_eq (w : world) :
  (if negb (bool_decide (source_language = py "auto"))
   then
     emit cancel_before
          (progress_update 35
             (py "Transcribing with language: " ++ source_language));;
     wret (Some source_language)
   else
     emit cancel_before
          (progress_update 35 (py "Detecting language automatically..."));;
     wret None) w
  = (Done (if bool_decide (source_language = py "auto")
           then None else Some source_language),
     {| cancelled := cancelled w; clock := S (clock w);
        log := log w
               ++ [progress_update 35
                     (if bool_decide (source_language = py "auto")
                      then py "Detecting language automatically..."
                      else py "Transcribing with language: "
                           ++ source_language)] |}).
Proof.
  destruct (bool_decide _); cbn [negb]; unfold wbind; by rewrite emit_eq.
Qed.

Lemma run_main_without_translation (res : transcription)
    (raw : list raw_segment) (records : list (segment str)) :
  recorded raw records ->
  (forall model_size, load_model model_size = None) ->
  transcribe audio_path
    (if bool_decide (source_language = py "auto")
     then None else Some source_language) = Done res ->
  segments res = Some raw ->
  translation_wanted translate target_language = false ->
  exists model_size notice w',
    run_main audio_path source_language translate target_language
             gpu_total_memory load_model transcribe net as_completed
             cancel_before initial
    = (Done (Some (as_value <$> records)), w')
    /\ cancelled w' = false
    /\ log w'
       = [progress_update 5 (py "Initializing transcription model...");
          progress_update 15 notice;
          progress_update 10 (py "Loading " ++ model_size ++ py " model...");
          progress_update 30 (py "Model loaded. Starting transcription...");
          progress_update 35
            (if bool_decide (source_language = py "auto")
             then py "Detecting language automatically..."
             else py "Transcribing with language: " ++ source_language);
          progress_update 60
            (py "Transcription complete. Processing results...");
          progress_update 65
            (py "Detected language: "
             ++ default (py "unknown") (language res))]
         ++ (if translate then []
             else segment_progress (length raw) <$> seq 0 (length raw)).
Proof.
  intros Hrec Hload Htr Hseg Hwant. unfold run_main.
  unfold wbind at 1. rewrite emit_eq. cbv beta iota.
  unfold wbind at 1.
  match goal with
  | |- context [_select_model_size gpu_total_memory cancel_before ?w] =>
      destruct (select_model_size_eq w) as (model_size & notice & ->)
  end.
  exists model_size, notice. cbv beta iota.
  unfold wbind at 1. rewrite emit_eq. cbv beta iota.
  unfold wbind at 1. rewrite Hload. unfold wret at 1. cbv beta iota.
  unfold wbind at 1. rewrite is_cancelled_eq.
  cbn [initial cancelled clock log]. cbv beta iota.
  unfold wbind at 1. rewrite emit_eq. cbv beta iota.
  unfold wbind at 1. rewrite language_eq. cbv beta iota.
  unfold wbind at 1. rewrite Htr.
  unfold wbind at 1. rewrite is_cancelled_eq.
  cbn [cancelled clock log]. cbv beta iota.
  unfold wbind at 1. rewrite emit_eq. cbv beta iota.
  unfold wbind at 1. rewrite emit_eq. cbv beta iota.
  unfold wbind at 1. rewrite Hseg. unfold wret at 1. cbv beta iota.
  unfold wbind at 1. unfold _process_segments.
  match goal with
  | |- context [process_loop translate cancel_before ?n 0 raw [] ?w] =>
      destruct (process_loop_log translate cancel_before never_cancelled
                  n raw records Hrec 0%nat [] w eq_refl)
        as (w1 & -> & Hc1 & Hl1)
  end.
  cbv beta iota.
  unfold wbind at 1. rewrite is_cancelled_eq, Hc1, Hwant. unfold wret.
  eexists. split; [reflexivity|]. cbn [cancelled log]. split; [done|].
  rewrite Hl1. cbn [cancelled clock log]. done.
Qed.

End RunQuiet.

(** X19. A run that nothing cancels, whose model loads, whose
    transcription succeeds with a ["segments"] key, of segments whose
    times [timedelta] holds, and that does not translate (no translation
    asked, or no target language), emits
    exactly: the progress of 5, 15, 10, 30, 35 (with the language asked
    for, or the detection), 60 and 65 (with the language detected, or
    ["unknown"]), one progress per segment unless [translate] is set, the
    progress of 100, and [transcription_complete] with the record of every
    raw segment in order. *)
Theorem run_without_translation
    (audio_path source_language : str) (translate : bool)
    (target_language : option str) (gpu_total_memory : option Z)
    (load_model : str -> option str)
    (transcribe : str -> option str
                  -> Transcription.outcome Transcription.transcription)
    (net : nat -> nat -> Transcription.network)
    (as_completed : nat -> list (nat * str) -> list (nat * str))
    (cancel_before : nat -> bool) (res : Transcription.transcription)
    (raw : list Transcription.raw_segment) (records : list (segment str)) :
  (forall k, cancel_before k = false) ->
  (forall model_size, load_model model_size = None) ->
  transcribe audio_path
    (if bool_decide (source_language = py "auto")
     then None else Some source_language)
  = Transcription.Done res ->
  Transcription.segments res = Some raw ->
  Transcription.recorded raw records ->
  Transcription.translation_wanted translate target_language = false ->
  exists model_size notice,
    Transcription.log
      (Transcription.run audio_path source_language translate
         target_language gpu_total_memory load_model transcribe net
         as_completed cancel_before Transcription.initial).2
    = [Transcription.progress_update 5
         (py "Initializing transcription model...");
       Transcription.progress_update 15 notice;
       Transcription.progress_update 10
         (py "Loading " ++ model_size ++ py " model...");
       Transcription.progress_update 30
         (py "Model loaded. Starting transcription...");
       Transcription.progress_update 35
         (if bool_decide (source_language = py "auto")
          then py "Detecting language automatically..."
          else py "Transcribing with language: " ++ source_language);
       Transcription.progress_update 60
         (py "Transcription complete. Processing results...");
       Transcription.progress_update 65
         (py "Detected language: "
          ++ default (py "unknown") (Transcription.language res))]
      ++ (if translate then []
          else Transcription.segment_progress (length raw)
                 <$> seq 0 (length raw))
      ++ [Transcription.progress_update 100 (py "Complete!");
          Transcription.transcription_complete
            (Transcription.as_value <$> records)].
Proof.
  intros Hquiet Hload Htr Hseg Hrec Hwant. rewrite run_cases.
  destruct (run_main_without_translation audio_path source_language
              translate target_language gpu_total_memory load_model
              transcribe net as_completed cancel_before Hquiet res raw
              records Hrec Hload Htr Hseg Hwant)
    as (model_size & notice & w' & -> & Hc & Hl).
  exists model_size, notice.
  unfold Transcription.run_final, Transcription.wbind.
  rewrite !emit_eq by done. cbn [snd Transcription.log].
  rewrite Hl, <- !app_assoc. done.
Qed.

Lemma run_without_translation_witness :
  let raw := [ Transcription.RawSegment 1500000 3250000 (py " Hi ") ] in
  let records := [ {| start := py "0:00:01,500"; end_ := py "0:00:03,250";
                      text := py "Hi" |} ] in
  let res :=
    {| Transcription.language := Some (py "en");
       Transcription.segments := Some raw |} in
  exists model_size notice,
    Transcription.log
      (Transcription.run (py "talk.mp3") (py "auto") false None None
         (fun _ => None) (fun _ _ => Transcription.Done res)
         (fun _ _ _ _ => Transcription.NoResponse) (fun _ l => l)
         (fun _ => false) Transcription.initial).2
    = [Transcription.progress_update 5
         (py "Initializing transcription model...");
       Transcription.progress_update 15 notice;
       Transcription.progress_update 10
         (py "Loading " ++ model_size ++ py " model...");
       Transcription.progress_update 30
         (py "Model loaded. Starting transcription...");
       Transcription.progress_update 35
         (if bool_decide (py "auto" = py "auto")
          then py "Detecting language automatically..."
          else py "Transcribing with language: " ++ py "auto");
       Transcription.progress_update 60
         (py "Transcription complete. Processing results...");
       Transcription.progress_update 65
         (py "Detected language: "
          ++ default (py "unknown") (Transcription.language res))]
      ++ (if false then []
          else Transcription.segment_progress 1 <$> seq 0 1)
      ++ [Transcription.progress_update 100 (py "Complete!");
          Transcription.transcription_complete
            (Transcription.as_value <$> records)].
Proof.
  intros raw records res.
  apply (run_without_translation (py "talk.mp3") (py "auto") false None None
           (fun _ => None) (fun _ _ => Transcription.Done res)
           (fun _ _ _ _ => Transcription.NoResponse) (fun _ l => l)
           (fun _ => false) res raw records).
  - intros k. reflexivity.
  - intros model_size. reflexivity.
  - reflexivity.
  - reflexivity.
  - repeat constructor.
  - reflexivity.
Defined.

Section TranslateSegmentsQuiet.

Import Transcription.
Local Open Scope worker_scope.

Variable target_language : option str.
Variable net : nat -> nat -> network.
Variable as_completed : nat -> list (nat * str) -> list (nat * str).
Variable cancel_before : nat -> bool.
Hypothesis never_cancelled : forall k, cancel_before k = false.

Lemma translate_loop_log (target : str) (segs0 : list (segment str))
    (batch_size : nat) (starts : list nat) :
  Forall (fun i => (i < length segs0)%nat) starts ->
  forall segs w,
  Forall2 same_times segs segs0 ->
  cancelled w = false ->
  exists out w',
    translate_loop net as_completed cancel_before target (text <$> segs0)
                   batch_size starts segs w
    = (Done (Some out), w')
    /\ cancelled w' = false
    /\ log w'
       = log w ++ (batch_progress (length segs0) batch_size <$> starts).
Proof.
  induction 1 as [|i rest Hi _ IH]; intros segs w F Hw.
  - exists segs, w. cbn. by rewrite app_nil_r.
  - cbn [translate_loop].
    unfold wbind at 1. rewrite (is_cancelled_eq cancel_before) by done.
    rewrite Hw. unfold wbind at 1. rewrite (emit_eq cancel_before) by done.
    destruct (assign_same_times
                (enumerate 0
                   (seq i (Nat.min (i + batch_size)
                             (length (text <$> segs0)) - i)))
                (translate_batch (net i) (as_completed i)
                   (take batch_size (drop i (text <$> segs0))) target)
                segs0 segs F) as (segs' & -> & F').
    { rewrite translate_batch_same_length.
      pose proof (batch_pairs_in_range (text <$> segs0) i batch_size) as Hp.
      by rewrite length_fmap in Hp |- *. }
    match goal with
    | |- context [translate_loop _ _ _ _ _ _ _ _ ?w1] =>
        destruct (IH segs' w1 F' eq_refl) as (out & w' & -> & Hc & Hl)
    end.
    exists out, w'. split; [done|]. split; [done|].
    rewrite Hl. cbn [log fmap list_fmap]. rewrite <- app_assoc.
    f_equal. cbn [app]. f_equal. unfold batch_progress.
    rewrite length_take, length_drop, !length_fmap.
    by replace (i + Nat.min batch_size (length segs0 - i))%nat
      with (Nat.min (i + batch_size) (length segs0)) by lia.
Qed.

End TranslateSegmentsQuiet.

(** X20. While nothing cancels, [_translate_segments] emits exactly: the
    progress of 70, one progress per batch in order, before the batch
    starting at index [i] the percentage [70 + i * 25 / total] with the
    range [i + 1] to [min(i + batch_size, total)], and the progress of
    95; the percentage of every batch is at least 70 and below 95. *)
Theorem translate_segments_signals
    (target_language : option str)
    (net : nat -> nat -> Transcription.network)
    (as_completed : nat -> list (nat * str) -> list (nat * str))
    (cancel_before : nat -> bool)
    (segs : list (segment str)) (w : Transcription.world) :
  (forall k, cancel_before k = false) ->
  Transcription.cancelled w = false ->
  let total := length segs in
  let batch_size := Nat.max 5 (total / 10) in
  Transcription.log
    (Transcription._translate_segments target_language net as_completed
       cancel_before segs w).2
  = Transcription.log w
    ++ [Transcription.progress_update 70 (py "Starting translation...")]
    ++ (Transcription.batch_progress total batch_size
          <$> Transcription.batch_starts total batch_size)
    ++ [Transcription.progress_update 95 (py "Translation completed.")]
  /\ Forall (fun i => 70 <= 70 + (Z.of_nat i * 25) / Z.of_nat total < 95)
            (Transcription.batch_starts total batch_size).
Proof.
  intros Hquiet Hw total batch_size. split.
  - unfold Transcription._translate_segments.
    unfold Transcription.wbind at 1. rewrite emit_eq by done.
    unfold Transcription.wbind at 1. rewrite length_fmap.
    fold total. fold batch_size.
    match goal with
    | |- context [Transcription.translate_loop _ _ _ ?t _ _ _ _ ?w1] =>
        destruct (translate_loop_log net as_completed cancel_before Hquiet
                    t segs batch_size
                    (Transcription.batch_starts total batch_size)
                    (batch_starts_lt total batch_size ltac:(lia))
                    (Transcription.as_value <$> segs) w1)
          as (out & w' & -> & Hc & Hl)
    end.
    + apply Forall2_fmap_l, Forall_Forall2_diag, Forall_forall.
      by intros seg _.
    + done.
    + unfold Transcription.wbind. rewrite emit_eq by done.
      cbn [snd Transcription.log]. rewrite Hl. cbn [Transcription.log].
      by rewrite <- !app_assoc.
  - eapply Forall_impl; [apply (batch_starts_lt total batch_size); lia|].
    intros i Hi. cbn in Hi.
    assert (0 <= (Z.of_nat i * 25) / Z.of_nat total)
      by (apply Z.div_pos; lia).
    assert ((Z.of_nat i * 25) / Z.of_nat total < 25)
      by (apply Z.div_lt_upper_bound; lia).
    lia.
Qed.

Lemma translate_segments_signals_witness :
  let segs := [ {| start := py "0:00:01,500"; end_ := py "0:00:03,250";
                   text := py "Hi" |};
                {| start := py "0:00:03,250"; end_ := py "0:00:04,500";
                   text := py "there" |} ] in
  let w := Transcription.initial in
  let total := length segs in
  let batch_size := Nat.max 5 (total / 10) in
  Transcription.log
    (Transcription._translate_segments (Some (py "fr"))
       (fun _ _ _ _ => Transcription.NoResponse) (fun _ l => l)
       (fun _ => false) segs w).2
  = Transcription.log w
    ++ [Transcription.progress_update 70 (py "Starting translation...")]
    ++ (Transcription.batch_progress total batch_size
          <$> Transcription.batch_starts total batch_size)
    ++ [Transcription.progress_update 95 (py "Translation completed.")]
  /\ Forall (fun i => 70 <= 70 + (Z.of_nat i * 25) / Z.of_nat total < 95)
            (Transcription.batch_starts total batch_size).
Proof.
  intros segs w.
  apply (translate_segments_signals (Some (py "fr"))
           (fun _ _ _ _ => Transcription.NoResponse) (fun _ l => l)
           (fun _ => false) segs w).
  - intros k. reflexivity.
  - reflexivity.
Defined.

(** * More about the statistics *)

Section StatisticsMore.

Variable float : Type.
Variable float_of_str : str -> result float.
Variable float_of_Z : Z -> float.
Variables fsub fmul fdiv : float -> float -> float.
Variable fadd : float -> float -> float.
Variable fsum : list float -> float.
Variable fpos : float -> bool.
Variable fzero : float -> bool.

Local Abbreviation segment_duration :=
  (Utils.segment_duration float float_of_str float_of_Z fsub fadd).
Local Abbreviation speed_step :=
  (Utils.speed_step float float_of_str float_of_Z fsub fadd).
Local Abbreviation duration_step :=
  (Utils.duration_step float float_of_str float_of_Z fsub fadd).

Lemma count_words_le (s : str) (inside : bool) :
  (Utils.count_words inside s <= length s)%nat.
Proof.
  revert inside. induction s as [|c s IH]; intros inside; [done|].
  cbn [Utils.count_words length]. destruct (Py.is_space c).
  - specialize (IH false). lia.
  - specialize (IH true). destruct inside; lia.
Qed.

(** The loop of [calculate_reading_speed] sums the lengths and the words
    of every segment, and keeps the durations the loop of
    [get_subtitle_stats] keeps. *)
Lemma speed_fold (segs : list (segment str)) :
  forall total_chars total_words durations,
  fold_left speed_step segs (total_chars, total_words, durations)
  = (total_chars + Z.of_nat (sum_list ((length ∘ text) <$> segs)),
     total_words
     + Z.of_nat (sum_list ((Utils.count_words false ∘ text) <$> segs)),
     fold_left duration_step segs durations).
Proof.
  induction segs as [|seg rest IH]; intros total_chars total_words durations.
  - cbn. by rewrite !Z.add_0_r.
  - cbn [fold_left fmap list_fmap sum_list sum_list_with compose].
    unfold Utils.speed_step at 2, Utils.duration_step at 2.
    destruct (segment_duration seg); rewrite IH;
      rewrite !Nat2Z.inj_add, !Z.add_assoc; done.
Qed.

(** A timestamp without a colon leaves the [try] block by an exception. *)
Lemma seconds_of_parts_no_colon (s : str) :
  ":"%char ∉ s ->
  exists e,
    Utils.seconds_of_parts float float_of_str float_of_Z fadd
      (Py.split (py ":") s) = Raise e.
Proof.
  intros H. change (py ":") with [":"%char].
  rewrite split_single_piece by done.
  unfold Utils.seconds_of_parts. cbn [Py.index lookup list_lookup bind].
  destruct (Py.int s); cbn [bind Py.index]; by eexists.
Qed.

Lemma segment_duration_no_colon (seg : segment str) :
  ":"%char ∉ start seg \/ ":"%char ∉ end_ seg ->
  exists e, segment_duration seg = Raise e.
Proof.
  intros [H|H]; unfold Utils.segment_duration.
  - destruct (seconds_of_parts_no_colon _ H) as [e ->]. by eexists.
  - destruct (seconds_of_parts_no_colon _ H) as [e ->].
    destruct (Utils.seconds_of_parts _ _ _ _ _); by eexists.
Qed.

Lemma duration_fold_no_colon (segs : list (segment str))
    (durations : list float) :
  Forall (fun seg => ":"%char ∉ start seg \/ ":"%char ∉ end_ seg) segs ->
  fold_left duration_step segs durations = durations.
Proof.
  induction 1 as [|seg rest H _ IH]; [done|].
  cbn [fold_left]. unfold Utils.duration_step at 2.
  by destruct (segment_duration_no_colon seg H) as [e ->].
Qed.

Lemma fold_max_spec (xs : list Z) (x : Z) :
  let m := fold_left Z.max xs x in
  (x <= m /\ Forall (fun y => y <= m) xs) /\ m ∈ x :: xs.
Proof.
  revert x. induction xs as [|y xs IH]; intros x; cbn.
  - split; [split; [lia|constructor]|]. apply elem_of_cons. by left.
  - destruct (IH (Z.max x y)) as [[H1 H2] H3]. split; [split|].
    + lia.
    + constructor; [lia|done].
    + apply elem_of_cons in H3 as [H3|H3].
      * rewrite H3. destruct (Z.max_spec x y) as [[_ ->]|[_ ->]].
        -- apply elem_of_cons. right. apply elem_of_cons. by left.
        -- apply elem_of_cons. by left.
      * apply elem_of_cons. right. apply elem_of_cons. by right.
Qed.

End StatisticsMore.

Section StatisticsTotals.

Lemma sum_words_le (segs : list (segment str)) :
  (sum_list ((Utils.count_words false ∘ text) <$> segs)
   <= sum_list ((length ∘ text) <$> segs))%nat.
Proof.
  induction segs as [|seg rest IH]; [done|].
  pose proof (count_words_le (text seg) false) as Hseg.
  rewrite !fmap_cons.
  change (sum_list ((length ∘ text) seg
                    :: ((length ∘ text) <$> rest)))
    with (length (text seg) + sum_list ((length ∘ text) <$> rest))%nat.
  change (sum_list ((Utils.count_words false ∘ text) seg
                    :: ((Utils.count_words false ∘ text) <$> rest)))
    with (Utils.count_words false (text seg)
          + sum_list ((Utils.count_words false ∘ text) <$> rest))%nat.
  lia.
Qed.

Lemma fold_add_lengths (segs : list (segment str)) (a : Z) :
  fold_left Z.add ((fun s => Z.of_nat (length (text s))) <$> segs) a
  = a + Z.of_nat (sum_list ((length ∘ text) <$> segs)).
Proof.
  revert a. induction segs as [|seg rest IH]; intros a.
  - cbn. lia.
  - rewrite !fmap_cons. cbn [fold_left]. rewrite IH.
    change (sum_list ((length ∘ text) seg
                      :: ((length ∘ text) <$> rest)))
      with (length (text seg) + sum_list ((length ∘ text) <$> rest))%nat.
    by rewrite Nat2Z.inj_add, Z.add_assoc.
Qed.

End StatisticsTotals.

(** X21. On a list that is not empty, [calculate_reading_speed] reports
    as [total_chars] the sum of the lengths of the texts and as
    [total_words] the sum of their numbers of words, whatever the
    timestamps are: a segment whose times cannot be read still counts.
    The words never outnumber the characters. *)
Theorem calculate_reading_speed_totals
    (float : Type) (float_of_str : str -> result float)
    (float_of_Z : Z -> float) (fsub fmul fdiv fadd : float -> float -> float)
    (fsum : list float -> float) (fpos fzero : float -> bool)
    (segs : list (segment str)) (total_duration : option (Utils.num float)) :
  segs <> [] ->
  let r := Utils.calculate_reading_speed float float_of_str float_of_Z
             fsub fmul fdiv fadd fsum fpos fzero segs total_duration in
  let chars := sum_list ((length ∘ text) <$> segs) in
  let words := sum_list ((Utils.count_words false ∘ text) <$> segs) in
  r !! "total_chars"%string = Some (Utils.NInt (Z.of_nat chars))
  /\ r !! "total_words"%string = Some (Utils.NInt (Z.of_nat words))
  /\ (words <= chars)%nat.
Proof.
  intros Hne r chars words. subst r chars words.
  destruct segs as [|seg rest]; [done|].
  unfold Utils.calculate_reading_speed. rewrite speed_fold.
  cbv beta iota zeta. rewrite !Z.add_0_l.
  split; [by simplify_map_eq|]. split; [by simplify_map_eq|].
  apply sum_words_le.
Qed.

Lemma calculate_reading_speed_totals_witness :
  let segs := [ {| start := py "00:00:01,000"; end_ := py "00:00:02,500";
                   text := py "Hello  there" |};
                {| start := py "soon"; end_ := py "later";
                   text := py "Bye" |} ] in
  let r := Utils.calculate_reading_speed unit (fun _ => Ok tt)
             (fun _ => tt) (fun _ _ => tt) (fun _ _ => tt) (fun _ _ => tt)
             (fun _ _ => tt) (fun _ => tt) (fun _ => true) (fun _ => false)
             segs None in
  let chars := sum_list ((length ∘ text) <$> segs) in
  let words := sum_list ((Utils.count_words false ∘ text) <$> segs) in
  r !! "total_chars"%string = Some (Utils.NInt (Z.of_nat chars))
  /\ r !! "total_words"%string = Some (Utils.NInt (Z.of_nat words))
  /\ (words <= chars)%nat.
Proof.
  intros segs.
  apply (calculate_reading_speed_totals unit (fun _ => Ok tt)
           (fun _ => tt) (fun _ _ => tt) (fun _ _ => tt) (fun _ _ => tt)
           (fun _ _ => tt) (fun _ => tt) (fun _ => true) (fun _ => false)
           segs None).
  discriminate.
Defined.

(** X22. When no segment of a list that is not empty has times that can
    be read (the start or the end has no colon), [calculate_reading_speed]
    does not divide: both speeds and [total_speaking_duration] are the
    integer 0, and [total_duration] is the duration given, or 0 when none
    or a zero was given. *)
Theorem calculate_reading_speed_unreadable_times
    (float : Type) (float_of_str : str -> result float)
    (float_of_Z : Z -> float) (fsub fmul fdiv fadd : float -> float -> float)
    (fsum : list float -> float) (fpos fzero : float -> bool)
    (segs : list (segment str)) (total_duration : option (Utils.num float)) :
  segs <> [] ->
  Forall (fun seg => ":"%char ∉ start seg \/ ":"%char ∉ end_ seg) segs ->
  let r := Utils.calculate_reading_speed float float_of_str float_of_Z
             fsub fmul fdiv fadd fsum fpos fzero segs total_duration in
  r !! "avg_speed_cps"%string = Some (Utils.NInt 0)
  /\ r !! "avg_speed_wpm"%string = Some (Utils.NInt 0)
  /\ r !! "total_speaking_duration"%string = Some (Utils.NInt 0)
  /\ r !! "total_duration"%string
     = Some (if Utils.truthy float fzero total_duration
             then default (Utils.NInt 0) total_duration
             else Utils.NInt 0).
Proof.
  intros Hne Hbad r. subst r.
  destruct segs as [|seg rest]; [done|].
  unfold Utils.calculate_reading_speed.
  rewrite speed_fold, duration_fold_no_colon by done.
  cbv beta iota zeta.
  repeat split; by simplify_map_eq.
Qed.

Lemma calculate_reading_speed_unreadable_times_witness :
  let segs := [ {| start := py "soon"; end_ := py "00:00:02,500";
                   text := py "Hello" |} ] in
  let r := Utils.calculate_reading_speed unit (fun _ => Ok tt)
             (fun _ => tt) (fun _ _ => tt) (fun _ _ => tt) (fun _ _ => tt)
             (fun _ _ => tt) (fun _ => tt) (fun _ => true) (fun _ => false)
             segs None in
  r !! "avg_speed_cps"%string = Some (Utils.NInt 0)
  /\ r !! "avg_speed_wpm"%string = Some (Utils.NInt 0)
  /\ r !! "total_speaking_duration"%string = Some (Utils.NInt 0)
  /\ r !! "total_duration"%string
     = Some (if Utils.truthy unit (fun _ => false) None
             then default (Utils.NInt 0) None
             else Utils.NInt 0).
Proof.
  intros segs.
  apply (calculate_reading_speed_unreadable_times unit (fun _ => Ok tt)
           (fun _ => tt) (fun _ _ => tt) (fun _ _ => tt) (fun _ _ => tt)
           (fun _ _ => tt) (fun _ => tt) (fun _ => true) (fun _ => false)
           segs None).
  - discriminate.
  - constructor; [|constructor]. left. cbn.
    intros H. repeat (apply elem_of_cons in H as [H|H]; [discriminate|]).
    by apply not_elem_of_nil in H.
Defined.

(** X23. On a list that is not empty, [get_subtitle_stats] reports as
    [count] the number of segments, as [max_length] the length of a
    longest text (no text is longer and one text has that length), and as
    [avg_length] the float quotient of the sum of the lengths by the
    count, never the integer 0 of the guard. *)
Theorem get_subtitle_stats_lengths
    (float : Type) (float_of_str : str -> result float)
    (float_of_Z : Z -> float) (fsub fdiv fadd : float -> float -> float)
    (fsum : list float -> float) (segs : list (segment str)) :
  segs <> [] ->
  let r := Utils.get_subtitle_stats float float_of_str float_of_Z
             fsub fdiv fadd fsum segs in
  r !! "count"%string = Some (Utils.NInt (Z.of_nat (length segs)))
  /\ (exists m : nat,
        r !! "max_length"%string = Some (Utils.NInt (Z.of_nat m))
        /\ Forall (fun seg => (length (text seg) <= m)%nat) segs
        /\ Exists (fun seg => length (text seg) = m) segs)
  /\ r !! "avg_length"%string
     = Some (Utils.NFloat
               (fdiv (float_of_Z
                        (Z.of_nat (sum_list ((length ∘ text) <$> segs))))
                     (float_of_Z (Z.of_nat (length segs))))).
Proof.
  intros Hne r. subst r.
  destruct segs as [|seg rest]; [done|].
  unfold Utils.get_subtitle_stats. cbv zeta.
  split; [by simplify_map_eq|]. split.
  - cbn [fmap list_fmap].
    destruct (fold_max_spec
                ((fun s => Z.of_nat (length (text s))) <$> rest)
                (Z.of_nat (length (text seg)))) as [[H1 H2] H3].
    cbv zeta in H1, H2, H3.
    set (mz := fold_left Z.max _ _) in *. clearbody mz.
    assert (Hm : exists seg', seg' ∈ seg :: rest
                              /\ mz = Z.of_nat (length (text seg'))).
    { apply elem_of_cons in H3 as [H3|H3].
      - exists seg. split; [apply elem_of_cons; by left|done].
      - apply list_elem_of_fmap in H3 as (seg' & -> & Hin).
        exists seg'. split; [apply elem_of_cons; by right|done]. }
    destruct Hm as (seg' & Hin & Hmz).
    exists (length (text seg')). rewrite <- Hmz.
    split; [by simplify_map_eq|]. split.
    + rewrite Hmz in H1, H2. constructor; [by apply Nat2Z.inj_le|].
      apply Forall_forall. intros s Hs.
      rewrite Forall_forall in H2. apply Nat2Z.inj_le, H2.
      apply list_elem_of_fmap. by exists s.
    + apply Exists_exists. by exists seg'.
  - replace (0 <? Z.of_nat (length (seg :: rest))) with true
      by (symmetry; apply Z.ltb_lt; cbn [length]; lia).
    rewrite (fold_add_lengths (seg :: rest) 0), Z.add_0_l.
    by simplify_map_eq.
Qed.

Lemma get_subtitle_stats_lengths_witness :
  let segs := [ {| start := py "00:00:01,000"; end_ := py "00:00:02,500";
                   text := py "Hello there" |};
                {| start := py "00:00:03,000"; end_ := py "00:00:04,000";
                   text := py "Bye" |} ] in
  let fdiv := fun _ _ : unit => tt in
  let float_of_Z := fun _ : Z => tt in
  let r := Utils.get_subtitle_stats unit (fun _ => Ok tt)
             float_of_Z (fun _ _ => tt) fdiv (fun _ _ => tt)
             (fun _ => tt) segs in
  r !! "count"%string = Some (Utils.NInt (Z.of_nat (length segs)))
  /\ (exists m : nat,
        r !! "max_length"%string = Some (Utils.NInt (Z.of_nat m))
        /\ Forall (fun seg => (length (text seg) <= m)%nat) segs
        /\ Exists (fun seg => length (text seg) = m) segs)
  /\ r !! "avg_length"%string
     = Some (Utils.NFloat
               (fdiv (float_of_Z
                        (Z.of_nat (sum_list ((length ∘ text) <$> segs))))
                     (float_of_Z (Z.of_nat (length segs))))).
Proof.
  intros segs fdiv float_of_Z.
  apply (get_subtitle_stats_lengths unit (fun _ => Ok tt)
           float_of_Z (fun _ _ => tt) fdiv (fun _ _ => tt)
           (fun _ => tt) segs).
  discriminate.
Defined.



(** * The frame of a VTT file *)

Section VttFrame.

Lemma vtt_step_frame (vtt_content block : str) :
  exists cue,
    Utils.vtt_step vtt_content block = vtt_content ++ cue
    /\ (cue = [] \/ exists c, cue = c ++ [Py.nl; Py.nl]).
Proof.
  assert (Hskip : exists cue,
            vtt_content = vtt_content ++ cue
            /\ (cue = [] \/ exists c, cue = c ++ [Py.nl; Py.nl])).
  { exists []. rewrite app_nil_r. split; [done|by left]. }
  unfold Utils.vtt_step.
  destruct (Py.strip block); [done|].
  destruct (3 <=? length (Py.split [Py.nl] block))%nat; [|done].
  destruct (Py.split [Py.nl] block) as [|line0 [|line1 rest]]; [done..|].
  eexists. split; [reflexivity|]. right.
  eexists. by rewrite !app_assoc.
Qed.

Lemma vtt_fold_frame (blocks : list str) (vtt_content : str) :
  exists cues,
    fold_left Utils.vtt_step blocks vtt_content = vtt_content ++ cues
    /\ (cues = [] \/ exists c, cues = c ++ [Py.nl; Py.nl]).
Proof.
  revert vtt_content. induction blocks as [|block rest IH]; intros vtt_content.
  - exists []. rewrite app_nil_r. split; [done|by left].
  - cbn [fold_left].
    destruct (vtt_step_frame vtt_content block) as (cue & -> & Hcue).
    destruct (IH (vtt_content ++ cue)) as (cues & -> & Hcues).
    exists (cue ++ cues). split; [by rewrite app_assoc|].
    destruct Hcues as [->|[c ->]].
    + by rewrite app_nil_r.
    + right. exists (cue ++ c). by rewrite app_assoc.
Qed.

End VttFrame.

(** X25. Whatever text it is given, well-formed SRT or not,
    [save_srt_to_vtt] returns a text that begins with the header
    ["WEBVTT"] and a blank line, and that is the header alone or ends
    with a blank line. *)
Theorem save_srt_to_vtt_frame (srt_content : str) :
  exists cues,
    Utils.save_srt_to_vtt srt_content = Utils.header ++ cues
    /\ (cues = [] \/ exists c, cues = c ++ [Py.nl; Py.nl]).
Proof. unfold Utils.save_srt_to_vtt. apply vtt_fold_frame. Qed.

(** X26. While nothing cancels, [_process_segments] raises at the first
    segment with a time that [timedelta] does not hold, with the text of
    that exception, whatever segments come after it: the segments before
    it are not returned. *)
Theorem process_segments_raises
    (translate : bool) (cancel_before : nat -> bool)
    (good : list Transcription.raw_segment) (bad : Transcription.raw_segment)
    (rest : list Transcription.raw_segment) (message : str)
    (w : Transcription.world) :
  (forall k, cancel_before k = false) ->
  Transcription.cancelled w = false ->
  Forall (fun seg => Transcription.timed seg = true) good ->
  Transcription.normalise bad = Transcription.Failed message ->
  (Transcription._process_segments translate cancel_before
     (good ++ bad :: rest) w).1
  = Transcription.Failed message.
Proof.
  intros Hquiet Hw Hgood Hbad. unfold Transcription._process_segments.
  destruct (timed_recorded good Hgood) as [records Hr].
  by apply (process_loop_raises translate cancel_before Hquiet
              (length (good ++ bad :: rest)) good records bad rest message
              Hr Hbad).
Qed.

Lemma process_segments_raises_witness :
  (Transcription._process_segments false (fun _ => false)
     ([ Transcription.RawSegment 1500000 3000000 (py " Hi ") ]
      ++ Transcription.RawSegment 3000000 100000000000000000000 (py "there")
      :: [ Transcription.RawSegment 4250000 5000000 (py "all") ])
     Transcription.initial).1
  = Transcription.Failed
      (py "days=1157407407; must have magnitude <= 999999999").
Proof.
  apply (process_segments_raises false (fun _ => false)
           [ Transcription.RawSegment 1500000 3000000 (py " Hi ") ]
           (Transcription.RawSegment 3000000 100000000000000000000
              (py "there"))
           [ Transcription.RawSegment 4250000 5000000 (py "all") ]
           (py "days=1157407407; must have magnitude <= 999999999")
           Transcription.initial).
  - intros k. reflexivity.
  - reflexivity.
  - repeat constructor.
  - reflexivity.
Defined.
